(** * backup.py: a shallow embedding and its properties

    The script zips the files found under a list of source paths into one
    archive placed in a destination directory and prints a summary line.

    The embedding follows [backup.py] function by function.  The Python
    library calls the script makes ([os.path.join], [os.walk],
    [os.path.exists], [os.makedirs], [os.path.getsize], [zipfile.ZipFile],
    [datetime.strftime], float formatting, [print]) are modelled on a POSIX
    host, over a file system given as a tree, without symbolic links. *)

From Stdlib Require Import String Ascii List ZArith Lia Bool DecimalString
  DecimalPos.
Import ListNotations.
Open Scope string_scope.
Set Warnings "-register-all,-abstract-large-number".

(** ** Strings *)

Definition sep : ascii := "/"%char.

(** [s.split("/")]: the pieces between separators; never the empty list. *)
Fixpoint split_sep (s : string) : list string :=
  match s with
  | EmptyString => [EmptyString]
  | String c s' =>
      if Ascii.eqb c sep then EmptyString :: split_sep s'
      else match split_sep s' with
           | [] => [String c EmptyString]
           | comp :: rest => String c comp :: rest
           end
  end.

(** [s.endswith("/")]. *)
Fixpoint ends_with_sep (s : string) : bool :=
  match s with
  | EmptyString => false
  | String c EmptyString => Ascii.eqb c sep
  | String _ s' => ends_with_sep s'
  end.

(** Drops the leading separators of [s]. *)
Fixpoint lstrip_sep (s : string) : string :=
  match s with
  | String c s' => if Ascii.eqb c sep then lstrip_sep s' else s
  | EmptyString => EmptyString
  end.

Fixpoint dropwhile {A} (f : A -> bool) (l : list A) : list A :=
  match l with
  | x :: r => if f x then dropwhile f r else l
  | [] => []
  end.

Fixpoint takewhile {A} (f : A -> bool) (l : list A) : list A :=
  match l with
  | x :: r => if f x then x :: takewhile f r else []
  | [] => []
  end.

Definition is_sep (c : ascii) : bool := Ascii.eqb c sep.

(** [s.rstrip("/")]. *)
Definition rstrip_sep (s : string) : string :=
  string_of_list_ascii
    (rev (dropwhile is_sep (rev (list_ascii_of_string s)))).

Definition all_sep (s : string) : bool :=
  forallb is_sep (list_ascii_of_string s).

(** Decimal text of a natural number and of a non-negative integer. *)
Definition str_of_nat (n : nat) : string :=
  NilZero.string_of_uint (Nat.to_uint n).

Definition str_of_Z (z : Z) : string :=
  NilZero.string_of_uint (N.to_uint (Z.to_N z)).

(** C's [%02d] on a non-negative number: at least two digits, padded with
    a zero. *)
Definition pad2 (n : nat) : string :=
  let s := str_of_nat n in
  if Nat.ltb (String.length s) 2 then "0" ++ s else s.

(** ** posixpath *)

(** [os.path.join(a, b)]. *)
Definition os_path_join (a b : string) : string :=
  if prefix "/" b then b
  else if (a =? "") || ends_with_sep a then a ++ b
  else a ++ "/" ++ b.

(** [os.path.split(p)]: the part up to the last separator (its trailing
    separators stripped unless it holds nothing else) and the part after
    it. *)
Definition os_path_split (p : string) : string * string :=
  let r := rev (list_ascii_of_string p) in
  let not_sep := fun c => negb (is_sep c) in
  let tail := string_of_list_ascii (rev (takewhile not_sep r)) in
  let head := string_of_list_ascii (rev (dropwhile not_sep r)) in
  let head := if negb (head =? "") && negb (all_sep head)
              then rstrip_sep head else head in
  (head, tail).

(** One iteration of the loop of [os.path.normpath]; [acc] is [new_comps]
    with its last element first. *)
Definition normpath_step (initial_slashes : nat) (acc : list string)
    (comp : string) : list string :=
  if (comp =? "") || (comp =? ".") then acc
  else if negb (comp =? "..")
          || ((initial_slashes =? 0)%nat
              && match acc with [] => true | _ => false end)
          || match acc with top :: _ => top =? ".." | [] => false end
       then comp :: acc
       else tl acc.

(** [os.path.normpath(path)]. *)
Definition normpath (path : string) : string :=
  if path =? "" then "."
  else
    let initial_slashes :=
      if prefix "/" path
      then if prefix "//" path && negb (prefix "///" path) then 2%nat else 1%nat
      else 0%nat in
    let new_comps :=
      fold_left (normpath_step initial_slashes) (split_sep path) [] in
    let p := String.concat "/" (rev new_comps) in
    let p := String.concat "" (repeat "/" initial_slashes) ++ p in
    if p =? "" then "." else p.

(** ** The file system *)

(** What a regular file holds: plain bytes, or a zip container, described
    by its members and by whether its central directory has been
    written. *)
Inductive content :=
| Raw (bytes : list Byte.byte)
| ZipData (finalized : bool) (members : list (string * content)).

(** A directory lists its entries in the order [os.scandir] returns
    them. *)
Inductive node :=
| File (readable : bool) (data : content)
| Dir (entries : list (string * node)).

Definition is_dir_node (n : node) : bool :=
  match n with Dir _ => true | File _ _ => false end.

Fixpoint assoc {A} (k : string) (l : list (string * A)) : option A :=
  match l with
  | [] => None
  | (k', v) :: r => if k' =? k then Some v else assoc k r
  end.

Fixpoint set_entry {A} (k : string) (v : A) (l : list (string * A))
  : list (string * A) :=
  match l with
  | [] => [(k, v)]
  | (k', v') :: r =>
      if k' =? k then (k, v) :: r else (k', v') :: set_entry k v r
  end.

(** The node at an absolute path given by its components. *)
Fixpoint lookup (n : node) (p : list string) : option node :=
  match p with
  | [] => Some n
  | c :: p' =>
      match n with
      | Dir es => match assoc c es with
                  | Some ch => lookup ch p'
                  | None => None
                  end
      | File _ _ => None
      end
  end.

(** Stores [new] at [p]; the parent of [p] has to be a directory, otherwise
    the tree is returned as it is. *)
Fixpoint put (n : node) (p : list string) (new : node) : node :=
  match p with
  | [] => new
  | c :: p' =>
      match n with
      | File _ _ => n
      | Dir es =>
          match assoc c es, p' with
          | Some ch, _ => Dir (set_entry c (put ch p' new) es)
          | None, [] => Dir (set_entry c new es)
          | None, _ :: _ => n
          end
      end
  end.

Inductive errno := ENOENT | ENOTDIR | EEXIST | EISDIR.

(** Path resolution moves through one component: nothing for an empty
    one or ".", up for "..", down for a name. *)
Definition step (cur : list string) (c : string) : list string :=
  if (c =? "") || (c =? ".") then cur
  else if c =? ".." then removelast cur
  else cur ++ [c].

(** Resolution of the components [cs] from the directory [cur]: the
    position before each component, the last one too, has to be a
    directory.  The result is the absolute position reached, which may not
    exist. *)
Fixpoint resolve_from (r : node) (cur : list string) (cs : list string)
  : errno + list string :=
  match cs with
  | [] => inr cur
  | c :: cs' =>
      match lookup r cur with
      | Some (Dir _) => resolve_from r (step cur c) cs'
      | Some (File _ _) => inl ENOTDIR
      | None => inl ENOENT
      end
  end.

Definition start_of (cwd : list string) (path : string) : list string :=
  if prefix "/" path then [] else cwd.

Definition resolve (r : node) (cwd : list string) (path : string)
  : errno + list string :=
  if path =? "" then inl ENOENT
  else resolve_from r (start_of cwd path) (split_sep path).

(** [os.stat(path)]. *)
Definition stat (r : node) (cwd : list string) (path : string)
  : errno + node :=
  match resolve r cwd path with
  | inr p => match lookup r p with
             | Some n => inr n
             | None => inl ENOENT
             end
  | inl e => inl e
  end.

(** Size in bytes of a file's content.  A zip container written with the
    default [ZIP_STORED] method takes, for each member, a local header of
    30 bytes, the name and the data, and once finalized a central
    directory record of 46 bytes and the name for each member and an end
    record of 22 bytes. *)
Fixpoint content_size (c : content) : Z :=
  match c with
  | Raw bs => Z.of_nat (List.length bs)
  | ZipData fin ms =>
      ((fix members_size (ms : list (string * content)) : Z :=
          match ms with
          | [] => 0
          | (nm, data) :: rest =>
              30 + Z.of_nat (String.length nm) + content_size data
              + (if fin then 46 + Z.of_nat (String.length nm) else 0)
              + members_size rest
          end) ms
       + (if fin then 22 else 0))%Z
  end.

(** [st_size] of [os.stat]; for a directory, the size of its block on the
    usual file systems. *)
Definition st_size (n : node) : Z :=
  match n with
  | File _ data => content_size data
  | Dir _ => 4096
  end.

(** [os.walk(top)] on the directory [n] that [top] names: top-down, the
    sub-directories in listing order, each under the name
    [os.path.join(top, dirname)].  Permissions on directories are not
    modelled: every directory of the tree can be listed, where [os.walk]
    leaves out, without an error, a directory it cannot list. *)
Fixpoint walk_node (top : string) (n : node)
  : list (string * list string * list string) :=
  match n with
  | File _ _ => []
  | Dir es =>
      (top,
       map fst (filter (fun e => is_dir_node (snd e)) es),
       map fst (filter (fun e => negb (is_dir_node (snd e))) es))
      :: flat_map (fun e => walk_node (os_path_join top (fst e)) (snd e)) es
  end.

(** ** The Python run time *)

Inductive exn :=
| NameError (name : string)
| TypeError
| ValueError
| IndexError
| RecursionError
| FileNotFoundError (path : string)
| NotADirectoryError (path : string)
| FileExistsError (path : string)
| IsADirectoryError (path : string)
| PermissionError (path : string).

Definition oserror (e : errno) (path : string) : exn :=
  match e with
  | ENOENT => FileNotFoundError path
  | ENOTDIR => NotADirectoryError path
  | EEXIST => FileExistsError path
  | EISDIR => IsADirectoryError path
  end.

Definition is_FileExistsError (e : exn) : bool :=
  match e with FileExistsError _ => true | _ => false end.

(** [datetime.datetime]: the fields [strftime] reads. *)
Record datetime := {
  year : nat; month : nat; day : nat;
  hour : nat; minute : nat; second : nat
}.

(** A [zipfile.ZipFile] object opened for writing: the position of its
    file in the tree, the members written so far, and whether [close] has
    run. *)
Record zipfile := {
  zpos : list string;
  zmembers : list (string * content);
  zclosed : bool
}.

(** The calls the script makes that change the file system, read the
    archive back or print, in the order they are made. *)
Inductive event :=
| EvMakedirs (path : string)
| EvZipOpen (path : string)
| EvZipWrite (filename : string)
| EvZipClose (handle : nat)
| EvGetsize (path : string)
| EvPrint (line : string).

Record world := {
  root : node;
  cwd : list string;
  clock : datetime;
  zips : list zipfile;
  stdout : list string;
  calls : list event
}.

Definition set_root (r : node) (w : world) : world :=
  {| root := r; cwd := cwd w; clock := clock w; zips := zips w;
     stdout := stdout w; calls := calls w |}.

Definition set_zips (zs : list zipfile) (w : world) : world :=
  {| root := root w; cwd := cwd w; clock := clock w; zips := zs;
     stdout := stdout w; calls := calls w |}.

Definition add_stdout (line : string) (w : world) : world :=
  {| root := root w; cwd := cwd w; clock := clock w; zips := zips w;
     stdout := stdout w ++ [line]; calls := calls w |}.

Definition add_call (ev : event) (w : world) : world :=
  {| root := root w; cwd := cwd w; clock := clock w; zips := zips w;
     stdout := stdout w; calls := calls w ++ [ev] |}.

Inductive outcome (A : Type) :=
| Ok (a : A)
| Raise (e : exn).
Arguments Ok {A} a.
Arguments Raise {A} e.

(** Statements run in a world and leave a world, also when they raise. *)
Definition M (A : Type) : Type := world -> outcome A * world.

Definition ret {A} (a : A) : M A := fun w => (Ok a, w).

Definition raise {A} (e : exn) : M A := fun w => (Raise e, w).

Definition bind {A B} (c : M A) (k : A -> M B) : M B :=
  fun w =>
    match c w with
    | (Ok a, w') => k a w'
    | (Raise e, w') => (Raise e, w')
    end.

Notation "x <- c1 ;; c2" := (bind c1 (fun x => c2))
  (at level 61, c1 at next level, right associativity).
Notation "c1 ;; c2" := (bind c1 (fun _ => c2))
  (at level 61, right associativity).

(** [for x in l: body(x)]. *)
Fixpoint for_each {A} (l : list A) (body : A -> M unit) : M unit :=
  match l with
  | [] => ret tt
  | x :: rest => body x ;; for_each rest body
  end.

(** [try: c  except E: handler], for the exceptions [handles] selects. *)
Definition try_except {A} (c : M A) (handles : exn -> bool) (handler : M A)
  : M A :=
  fun w =>
    match c w with
    | (Raise e, w') => if handles e then handler w' else (Raise e, w')
    | r => r
    end.

Definition log (ev : event) : M unit := fun w => (Ok tt, add_call ev w).

(** ** os *)

Definition os_path_exists (path : string) : M bool :=
  fun w =>
    match stat (root w) (cwd w) path with
    | inr _ => (Ok true, w)
    | inl _ => (Ok false, w)
    end.

(** [os.path.getsize(path)]. *)
Definition os_path_getsize (path : string) : M Z :=
  log (EvGetsize path) ;;
  fun w =>
    match stat (root w) (cwd w) path with
    | inr n => (Ok (st_size n), w)
    | inl e => (Raise (oserror e path), w)
    end.

(** [os.walk(top)] with its default [onerror=None]: the error of
    [os.scandir] on a path that is missing or is not a directory is
    dropped, and the walk of that path yields nothing. *)
Definition os_walk (top : string)
  : M (list (string * list string * list string)) :=
  fun w =>
    match stat (root w) (cwd w) top with
    | inr n => (Ok (walk_node top n), w)
    | inl _ => (Ok [], w)
    end.

Definition is_name (c : string) : bool :=
  negb ((c =? "") || (c =? ".") || (c =? "..")).

Definition strip_trailing_empty (cs : list string) : list string :=
  rev (dropwhile (fun c => c =? "") (rev cs)).

(** The position at which a call that creates the last component of [cs]
    would put it: the components before it resolve to a directory.  A last
    component that is not a name designates that directory itself. *)
Definition create_target (r : node) (cwd : list string) (path : string)
    (cs : list string) : errno + list string :=
  if path =? "" then inl ENOENT
  else
    match cs with
    | [] => inl EEXIST
    | _ :: _ =>
        match resolve_from r (start_of cwd path) (removelast cs) with
        | inl e => inl e
        | inr pp =>
            match lookup r pp with
            | None => inl ENOENT
            | Some (File _ _) => inl ENOTDIR
            | Some (Dir _) =>
                let c := last cs "" in
                if is_name c then inr (pp ++ [c])%list else inl EEXIST
            end
        end
    end.

(** [os.mkdir(path)]; trailing separators are allowed. *)
Definition os_mkdir (path : string) : M unit :=
  fun w =>
    match create_target (root w) (cwd w) path
            (strip_trailing_empty (split_sep path)) with
    | inl e => (Raise (oserror e path), w)
    | inr p =>
        match lookup (root w) p with
        | Some _ => (Raise (FileExistsError path), w)
        | None => (Ok tt, set_root (put (root w) p (Dir [])) w)
        end
    end.

(** The body of [os.makedirs(name)] with [exist_ok=False]; [fuel] bounds
    the depth of the recursion on the head of the path. *)
Fixpoint makedirs_rec (fuel : nat) (name : string) : M unit :=
  match fuel with
  | O => raise RecursionError
  | S fuel' =>
      let '(head, tail) := os_path_split name in
      let '(head, tail) :=
        if tail =? "" then os_path_split head else (head, tail) in
      head_exists <- os_path_exists head ;;
      if negb (head =? "") && negb (tail =? "") && negb head_exists
      then
        try_except (makedirs_rec fuel' head) is_FileExistsError (ret tt) ;;
        if tail =? "." then ret tt else os_mkdir name
      else os_mkdir name
  end.

(** [os.makedirs(name)]: each recursive call is on a strictly shorter
    path, so the length of [name] is fuel enough. *)
Definition os_makedirs (name : string) : M unit :=
  log (EvMakedirs name) ;;
  makedirs_rec (S (String.length name)) name.

(** ** zipfile *)

(** Where [open(file, "w+b")] puts the file: an existing regular file is
    truncated, a missing one is created in an existing directory.  A path
    that ends with a separator names a directory, whatever is there.
    Permissions to write are not modelled. *)
Definition open_target (r : node) (cwd : list string) (path : string)
  : errno + list string :=
  let cs := split_sep path in
  if last cs "" =? "" then
    match create_target r cwd path (strip_trailing_empty cs) with
    | inl EEXIST => inl EISDIR
    | inl e => inl e
    | inr _ => inl EISDIR
    end
  else
    match create_target r cwd path cs with
    | inl EEXIST => inl EISDIR
    | inl e => inl e
    | inr p => match lookup r p with
               | Some (Dir _) => inl EISDIR
               | _ => inr p
               end
    end.

Definition set_nth {A} (i : nat) (x : A) (l : list A) : list A :=
  firstn i l ++ match skipn i l with [] => [] | _ :: r => x :: r end.

(** [zipfile.ZipFile(file, 'w')]: creates or truncates [file] and returns
    the handle of the new object. *)
Definition ZipFile (file : string) : M nat :=
  log (EvZipOpen file) ;;
  fun w =>
    match open_target (root w) (cwd w) file with
    | inl e => (Raise (oserror e file), w)
    | inr p =>
        (Ok (List.length (zips w)),
         set_zips
           (zips w ++ [{| zpos := p; zmembers := []; zclosed := false |}])
           (set_root (put (root w) p (File true (ZipData false []))) w))
    end.

(** The member name [ZipInfo.from_file] derives from a file name when no
    [arcname] is given: [os.path.normpath], then the leading separators
    removed.  Python indexes the first character of the result, which
    fails on an empty one. *)
Definition arcname_of (filename : string) : option string :=
  match lstrip_sep (normpath filename) with
  | EmptyString => None
  | arc => Some arc
  end.

Definition add_member (h : nat) (z : zipfile) (m : string * content)
  : M unit :=
  fun w =>
    let ms := (zmembers z ++ [m])%list in
    (Ok tt,
     set_zips (set_nth h {| zpos := zpos z; zmembers := ms;
                            zclosed := false |} (zips w))
       (set_root (put (root w) (zpos z) (File true (ZipData false ms))) w)).

(** [zip_obj.write(filename)]: [os.stat] on the file, the member name,
    then the file is opened for reading and copied.  The members written
    so far are taken to be on disk at once; a file that is the archive
    itself is copied as it is on disk when the write starts, which the
    library does only while the archive fits in its buffer: on a larger
    one its copy does not end.  File times and the encoding of names are
    not modelled: the library raises [ValueError] on a file last changed
    before 1980 and [UnicodeEncodeError] on a name that is not UTF-8. *)
Definition ZipFile_write (h : nat) (filename : string) : M unit :=
  log (EvZipWrite filename) ;;
  fun w =>
    match nth_error (zips w) h with
    | None => (Raise ValueError, w)
    | Some z =>
        if zclosed z then (Raise ValueError, w)
        else
          match stat (root w) (cwd w) filename with
          | inl e => (Raise (oserror e filename), w)
          | inr n =>
              match arcname_of filename with
              | None => (Raise IndexError, w)
              | Some arc =>
                  match n with
                  | Dir _ => add_member h z (arc ++ "/", Raw []) w
                  | File readable data =>
                      if readable then add_member h z (arc, data) w
                      else (Raise (PermissionError filename), w)
                  end
              end
          end
    end.

(** [zip_obj.close()]: writes the central directory and closes the file;
    nothing on an object already closed. *)
Definition ZipFile_close (h : nat) : M unit :=
  log (EvZipClose h) ;;
  fun w =>
    match nth_error (zips w) h with
    | None => (Raise ValueError, w)
    | Some z =>
        if zclosed z then (Ok tt, w)
        else
          (Ok tt,
           set_zips (set_nth h {| zpos := zpos z; zmembers := zmembers z;
                                  zclosed := true |} (zips w))
             (set_root (put (root w) (zpos z)
                          (File true (ZipData true (zmembers z)))) w))
    end.

(** ** datetime *)

(** [now.strftime("%d-%m-%y_%H-%M-%S")]. *)
Definition strftime (now : datetime) : string :=
  pad2 (day now) ++ "-" ++ pad2 (month now) ++ "-"
  ++ pad2 (year now mod 100) ++ "_"
  ++ pad2 (hour now) ++ "-" ++ pad2 (minute now) ++ "-"
  ++ pad2 (second now).

(** The ranges [datetime.datetime] keeps its fields in. *)
Definition valid_datetime (t : datetime) : Prop :=
  (1 <= year t <= 9999 /\ 1 <= month t <= 12 /\ 1 <= day t <= 31
   /\ hour t < 24 /\ minute t < 60 /\ second t < 60)%nat.

(** ** float *)

(** A finite binary64 value, [fmant * 2 ^ fexp]. *)
Record float := { fmant : Z; fexp : Z }.

(** The integer nearest to [num / den], ties to the even one. *)
Definition round_half_even (num den : Z) : Z :=
  let q := (num / den)%Z in
  let r := (num mod den)%Z in
  if (2 * r <? den)%Z then q
  else if (den <? 2 * r)%Z then (q + 1)%Z
  else if Z.even q then q else (q + 1)%Z.

(** [a / b] on Python integers, for [0 <= a] and [0 < b]: the quotient
    rounded to the nearest value with a significand of 53 bits, ties to
    even.  The script divides a file size, below [2 ^ 63], so the quotient
    is in the normal range of binary64. *)
Definition int_truediv (a b : Z) : float :=
  if (a =? 0)%Z then {| fmant := 0; fexp := 0 |}
  else
    let e0 := (Z.log2 a - Z.log2 b)%Z in
    let ge := if (0 <=? e0)%Z then (b * 2 ^ e0 <=? a)%Z
              else (b <=? a * 2 ^ (- e0))%Z in
    let fl := if ge then e0 else (e0 - 1)%Z in
    let s := (fl - 52)%Z in
    let m := if (0 <=? s)%Z then round_half_even a (b * 2 ^ s)
             else round_half_even (a * 2 ^ (- s)) b in
    {| fmant := m; fexp := s |}.

(** The number of hundredths [format(x, ".2f")] prints for [0 <= x]: the
    value is converted exactly, ties to even. *)
Definition hundredths (x : float) : Z :=
  if (0 <=? fexp x)%Z then (100 * fmant x * 2 ^ fexp x)%Z
  else round_half_even (100 * fmant x) (2 ^ (- fexp x)).

(** [f"{x:.2f}"] for [0 <= x]. *)
Definition format_2f (x : float) : string :=
  let h := hundredths x in
  str_of_Z (h / 100) ++ "." ++ pad2 (Z.to_nat (h mod 100)).

(** ** backup.py *)

(** The value [parse_args] returns. *)
Record Namespace := {
  source : list string;
  destination : string;
  name : option string
}.

Definition get_current_time : M string :=
  fun w =>
    let now := clock w in
    let current_time := strftime now in
    (Ok current_time, w).

Definition create_zip_filepath (current_time destination : string)
    (name : option string) : string :=
  let zip_name :=
    match name with
    | None => "backup_" ++ current_time ++ ".zip"
    | Some name => name ++ ".zip"
    end in
  let zip_filepath := destination ++ "/" ++ zip_name in
  zip_filepath.

Definition create_zip_file (zip_filepath : string) (sources : list string)
  : M unit :=
  zip_obj <- ZipFile zip_filepath ;;
  for_each sources (fun source =>
    triples <- os_walk source ;;
    for_each triples (fun '(root, dirs, files) =>
      for_each files (fun file =>
        let file_path := os_path_join root file in
        ZipFile_write zip_obj file_path))) ;;
  ZipFile_close zip_obj.

Definition MiB : Z := 1024 * 1024.

Definition finish_message (num_sources : nat) (destination : string)
    (size : float) : string :=
  "The backup of " ++ str_of_nat num_sources
  ++ " sources has been completed and saved to " ++ destination
  ++ " (size: " ++ format_2f size ++ " MB).".

Definition print (line : string) : M unit :=
  log (EvPrint line) ;;
  fun w => (Ok tt, add_stdout line w).

Definition print_finish_message (sources : list string)
    (destination zip_filepath : string) : M unit :=
  let num_sources := List.length sources in
  bytes <- os_path_getsize zip_filepath ;;
  let size := int_truediv bytes MiB in
  print (finish_message num_sources destination size).

Definition zipources (sources : list string) (destination : string)
    (name : option string) : M unit :=
  current_time <- get_current_time ;;
  let zip_filepath := create_zip_filepath current_time destination name in
  create_zip_file zip_filepath sources ;;
  print_finish_message sources destination zip_filepath.

(** The names bound in the module when [main] runs. *)
Definition module_names : list string :=
  ["argparse"; "os"; "zipfile"; "datetime";
   "parse_args"; "get_current_time"; "create_zip_filepath";
   "create_zip_file"; "print_finish_message"; "zipources"; "main"].

(** The functions of the module that accept three positional arguments,
    as they run on the arguments [main] passes: a list, a string, and a
    string or [None].  [create_zip_filepath] formats them and returns a
    string; [print_finish_message] takes the third for the archive path,
    and [os.path.getsize(None)] is a [TypeError]. *)
Definition module_functions
  : list (string * (list string -> string -> option string -> M unit)) :=
  [("create_zip_filepath", fun _ _ _ => ret tt);
   ("print_finish_message",
    fun sources destination zip_filepath =>
      match zip_filepath with
      | Some path => print_finish_message sources destination path
      | None => raise TypeError
      end);
   ("zipources", zipources)].

(** Looking a global name up and calling it with three arguments: a name
    that is not bound raises [NameError]; a module, or a function with
    other parameters, raises [TypeError] when called. *)
Definition load_global (name : string)
  : M (list string -> string -> option string -> M unit) :=
  match assoc name module_functions with
  | Some f => ret f
  | None =>
      if existsb (String.eqb name) module_names
      then ret (fun _ _ _ => raise TypeError)
      else raise (NameError name)
  end.

(** [main], from the arguments [parse_args] returned. *)
Definition main (args : Namespace) : M unit :=
  let sources := source args in
  let destination := destination args in
  let name := name args in
  dest_exists <- os_path_exists destination ;;
  (if negb dest_exists then os_makedirs destination else ret tt) ;;
  zip_sources <- load_global "zip_sources" ;;
  zip_sources sources destination name.

(** The exit status of [python backup.py ...]: 0 when [main] returns, 1
    when an exception reaches the top level. *)
Definition exit_status (o : outcome unit) : Z :=
  match o with
  | Ok _ => 0
  | Raise _ => 1
  end.

(** ** Vocabulary of the properties *)

(** The body of the outer loop of [create_zip_file], and the file paths it
    hands to [zip_obj.write]. *)
Definition archive_source (zip_obj : nat) (source : string) : M unit :=
  triples <- os_walk source ;;
  for_each triples (fun '(root, dirs, files) =>
    for_each files (fun file =>
      let file_path := os_path_join root file in
      ZipFile_write zip_obj file_path)).

Definition walk_files (triples : list (string * list string * list string))
  : list string :=
  flat_map (fun '(root, dirs, files) => map (os_path_join root) files)
    triples.

(** The files [os.walk(source)] discovers in the tree [r], as the paths
    the script builds for them. *)
Definition walked_paths (r : node) (cwd : list string) (source : string)
  : list string :=
  match stat r cwd source with
  | inr n => walk_files (walk_node source n)
  | inl _ => []
  end.

(** The pattern [backup_\d{2}-\d{2}-\d{2}_\d{2}-\d{2}-\d{2}\.zip], matched
    against a whole string. *)
Inductive pat := Lit (c : ascii) | Digit.

Definition is_digit (c : ascii) : bool :=
  let n := nat_of_ascii c in (48 <=? n)%nat && (n <=? 57)%nat.

Fixpoint matches (p : list pat) (s : string) : bool :=
  match p, s with
  | [], EmptyString => true
  | Lit c :: p', String a s' => Ascii.eqb a c && matches p' s'
  | Digit :: p', String a s' => is_digit a && matches p' s'
  | _, _ => false
  end.

Definition lits (s : string) : list pat := map Lit (list_ascii_of_string s).

Definition default_name_pattern : list pat :=
  (lits "backup_"
   ++ [Digit; Digit; Lit "-"; Digit; Digit; Lit "-"; Digit; Digit; Lit "_";
       Digit; Digit; Lit "-"; Digit; Digit; Lit "-"; Digit; Digit]
   ++ lits ".zip")%list.

(** The tree with the contents of the files forgotten. *)
Inductive shape :=
| SFile
| SDir (entries : list (string * shape)).

Fixpoint shape_of (n : node) : shape :=
  match n with
  | File _ _ => SFile
  | Dir es => SDir (map (fun e => (fst e, shape_of (snd e))) es)
  end.

(** Induction on a tree with the hypothesis for every entry of a
    directory. *)
Fixpoint node_ind' (P : node -> Prop)
    (Hfile : forall b c, P (File b c))
    (Hdir : forall es, Forall (fun e => P (snd e)) es -> P (Dir es))
    (n : node) : P n :=
  match n with
  | File b c => Hfile b c
  | Dir es =>
      Hdir es
        ((fix all (es : list (string * node))
            : Forall (fun e => P (snd e)) es :=
            match es with
            | [] => Forall_nil _
            | e :: rest =>
                Forall_cons e (node_ind' P Hfile Hdir (snd e)) (all rest)
            end) es)
  end.

Fixpoint content_ind' (P : content -> Prop)
    (Hraw : forall bs, P (Raw bs))
    (Hzip : forall fin ms, Forall (fun m => P (snd m)) ms -> P (ZipData fin ms))
    (c : content) : P c :=
  match c with
  | Raw bs => Hraw bs
  | ZipData fin ms =>
      Hzip fin ms
        ((fix all (ms : list (string * content))
            : Forall (fun m => P (snd m)) ms :=
            match ms with
            | [] => Forall_nil _
            | m :: rest =>
                Forall_cons m (content_ind' P Hraw Hzip (snd m)) (all rest)
            end) ms)
  end.

Definition set_clock (t : datetime) (w : world) : world :=
  {| root := root w; cwd := cwd w; clock := t; zips := zips w;
     stdout := stdout w; calls := calls w |}.

(** What the handle [h] stands for once [close] has run: the object is
    closed and the file on disk holds the finalized container with the
    members written. *)
Definition closed_and_finalized (h : nat) (w : world) : Prop :=
  exists z,
    nth_error (zips w) h = Some z /\ zclosed z = true
    /\ lookup (root w) (zpos z) = Some (File true (ZipData true (zmembers z))).

(** The object is open and the file on disk is not finalized. *)
Definition left_open (h : nat) (w : world) : Prop :=
  exists z,
    nth_error (zips w) h = Some z /\ zclosed z = false
    /\ lookup (root w) (zpos z) = Some (File true (ZipData false (zmembers z))).

(** *** A small home directory used in the examples

    [/home/u] holds [a.txt], [subdir/b.txt], an empty directory, a
    directory with a file that cannot be read, and the directory [out]. *)
Definition demo_time : datetime :=
  {| year := 2023; month := 1; day := 9; hour := 7; minute := 5; second := 0 |}.

Definition demo_home : list (string * node) :=
  [("a.txt", File true (Raw [Byte.x61]));
   ("subdir", Dir [("b.txt", File true (Raw [Byte.x62; Byte.x63]))]);
   ("empty", Dir []);
   ("secret", Dir [("key", File false (Raw [Byte.x6b]))]);
   ("out", Dir [])].

Definition demo_world : world :=
  {| root := Dir [("home", Dir [("u", Dir demo_home)])];
     cwd := ["home"; "u"];
     clock := demo_time;
     zips := []; stdout := []; calls := [] |}.

(** The members of the archive the handle [h] wrote. *)
Definition members_of (h : nat) (w : world) : list (string * content) :=
  match nth_error (zips w) h with
  | Some z => zmembers z
  | None => []
  end.

(** The state of the archive between [ZipFile] and [close]: the object
    [h] is open on the file at [pos], and that file holds the members
    [ms], not finalized. *)
Definition archive_state (h : nat) (pos : list string)
    (ms : list (string * content)) (w : world) : Prop :=
  nth_error (zips w) h
  = Some {| zpos := pos; zmembers := ms; zclosed := false |}
  /\ lookup (root w) pos = Some (File true (ZipData false ms)).

Definition has_sep (s : string) : bool :=
  existsb is_sep (list_ascii_of_string s).

(** A name a directory entry can have. *)
Definition proper_name (c : string) : bool := is_name c && negb (has_sep c).

Fixpoint distinct (l : list string) : bool :=
  match l with
  | [] => true
  | x :: r => negb (existsb (String.eqb x) r) && distinct r
  end.

(** The trees that are directory trees: in every directory the entries
    have proper names, all different. *)
Fixpoint wf_node (n : node) : bool :=
  match n with
  | File _ _ => true
  | Dir es =>
      forallb proper_name (map fst es) && distinct (map fst es)
      && forallb (fun e => wf_node (snd e)) es
  end.

(** What a successful [write] of [filename] adds, by what the path
    names. *)
Definition written_as (r : node) (cwd : list string) (filename : string)
    (m : string * content) : Prop :=
  match stat r cwd filename with
  | inr (File _ _) => arcname_of filename = Some (fst m)
  | inr (Dir _) =>
      exists arc, arcname_of filename = Some arc /\ fst m = arc ++ "/"
  | inl _ => False
  end.

Definition not_dir_at (r : node) (p : list string) : Prop :=
  match lookup r p with
  | Some (Dir _) => False
  | _ => True
  end.

(** The computation [c] leaves the component [f] of the world as it
    was. *)
Definition keeps {X A} (f : world -> X) (c : M A) : Prop :=
  forall w, f (snd (c w)) = f w.

(** A relative path in normal form: names joined by single separators. *)
Definition clean_path (s : string) : Prop :=
  exists cs, cs <> [] /\ Forall (fun c => proper_name c = true) cs
             /\ s = String.concat "/" cs.

(** Such a path, or such a path followed by one separator. *)
Definition clean_source (s : string) : Prop :=
  clean_path s \/ exists t, clean_path t /\ s = t ++ "/".

(** [h] is [d] with one or more of its last components removed. *)
Inductive ancestor_of (h : string) : string -> Prop :=
| ancestor_parent c : ancestor_of h (h ++ String sep c)
| ancestor_further d c : ancestor_of h d -> ancestor_of h (d ++ String sep c).

(** The head and the tail [os.makedirs] computes from its argument: the
    path before the last component and that component, the separators at
    the end of the argument left aside. *)
Definition makedirs_split (name : string) : string * string :=
  let '(head, tail) := os_path_split name in
  if tail =? "" then os_path_split head else (head, tail).

Definition makedirs_tail (name : string) : string :=
  snd (makedirs_split name).

(** Destinations [os.makedirs] is sure to create in the tree [r]: the
    last component is a name, and the path before it either is a
    directory that is there, with no entry of that name, or is missing
    and can itself be created; a missing path may also be followed by
    the component ".".  Separators may be repeated, and the path that is
    there may be any path, [..] included.  Permissions to write are not
    modelled. *)
Inductive makeable (r : node) (cwd : list string) : string -> Prop :=
| makeable_name name tail es :
    makedirs_split name = ("", tail) ->
    proper_name tail = true ->
    lookup r cwd = Some (Dir es) ->
    assoc tail es = None ->
    makeable r cwd name
| makeable_in name head tail es :
    makedirs_split name = (head, tail) ->
    (head =? "") = false ->
    proper_name tail = true ->
    stat r cwd head = inr (Dir es) ->
    assoc tail es = None ->
    makeable r cwd name
| makeable_under name head tail e :
    makedirs_split name = (head, tail) ->
    (head =? "") = false ->
    tail = "." \/ proper_name tail = true ->
    stat r cwd head = inl e ->
    makeable r cwd head ->
    makeable r cwd name.

(** *** Vocabulary of the further properties *)

(** A node without entries below it. *)
Definition is_leaf (n : node) : Prop :=
  match n with
  | File _ _ => True
  | Dir [] => True
  | Dir (_ :: _) => False
  end.

(** The regular files of [r'] are those of [r], with their contents and
    permissions. *)
Definition files_kept (r r' : node) : Prop :=
  forall q b c, lookup r' q = Some (File b c) <-> lookup r q = Some (File b c).

(** The same, the position [pos] apart. *)
Definition files_kept_but (pos : list string) (r r' : node) : Prop :=
  forall q, q <> pos ->
  forall b c, lookup r' q = Some (File b c) <-> lookup r q = Some (File b c).

(** Two clock readings that [strftime] cannot tell apart: the same second
    of the same day, the years a multiple of a hundred apart. *)
Definition same_second (t1 t2 : datetime) : Prop :=
  day t1 = day t2 /\ month t1 = month t2
  /\ year t1 mod 100 = year t2 mod 100
  /\ hour t1 = hour t2 /\ minute t1 = minute t2 /\ second t1 = second t2.

(** The base name [create_zip_filepath] gives the archive. *)
Definition base_name (current_time : string) (name : option string)
  : string :=
  match name with
  | None => "backup_" ++ current_time
  | Some name => name
  end.

(** The state of a run of [create_zip_file] between the opening and the
    closing of the archive, against the tree [r0] and the working
    directory [cwd0] the opening left: the archive is open at [pos] with
    the members [ms], the tree has kept its shape, and its files, the
    archive apart, are as they were. *)
Definition writing (h : nat) (pos : list string) (r0 : node)
    (cwd0 : list string) (ms : list (string * content)) (w : world) : Prop :=
  archive_state h pos ms w
  /\ shape_of (root w) = shape_of r0
  /\ cwd w = cwd0
  /\ files_kept_but pos r0 (root w).

(** The directories of [r] are directories of [r']. *)
Definition dirs_kept (r r' : node) : Prop :=
  forall q es, lookup r q = Some (Dir es) ->
  exists es', lookup r' q = Some (Dir es').

(** The member [m] of the archive named [archive] stands for the file
    [fp] of the tree [r]: it has the member name of [fp], and holds the
    data of [fp], unless [fp] is the archive itself. *)
Definition copy_of (r : node) (cwd : list string) (archive fp : string)
    (m : string * content) : Prop :=
  arcname_of fp = Some (fst m)
  /\ (resolve r cwd fp = resolve r cwd archive
      \/ stat r cwd fp = inr (File true (snd m))).

(** * Properties *)

(** ** The monad *)

Lemma bind_ok {A B} (c : M A) (k : A -> M B) w a w' :
  c w = (Ok a, w') -> bind c k w = k a w'.
Proof. intros H. unfold bind. now rewrite H. Qed.

Lemma bind_raise {A B} (c : M A) (k : A -> M B) w e w' :
  c w = (Raise e, w') -> bind c k w = (Raise e, w').
Proof. intros H. unfold bind. now rewrite H. Qed.

Lemma for_each_app {A} (l1 l2 : list A) (body : A -> M unit) w :
  for_each (l1 ++ l2) body w =
  match for_each l1 body w with
  | (Ok _, w1) => for_each l2 body w1
  | (Raise e, w1) => (Raise e, w1)
  end.
Proof.
  revert w. induction l1 as [|x l1 IH]; intros w; simpl.
  - reflexivity.
  - unfold bind. destruct (body x w) as [[[]|e] w1]; [apply IH|reflexivity].
Qed.

Lemma create_zip_file_eq zip_filepath sources :
  create_zip_file zip_filepath sources =
  (zip_obj <- ZipFile zip_filepath ;;
   for_each sources (archive_source zip_obj) ;;
   ZipFile_close zip_obj).
Proof. reflexivity. Qed.

(** ** Naming the archive *)

Lemma pad2_two_digits n :
  (n < 100)%nat ->
  exists a b, pad2 n = String a (String b "")
              /\ is_digit a = true /\ is_digit b = true.
Proof.
  intros H.
  assert (Hall : forallb (fun n =>
            match pad2 n with
            | String a (String b EmptyString) => is_digit a && is_digit b
            | _ => false
            end) (seq 0 100) = true) by (vm_compute; reflexivity).
  rewrite forallb_forall in Hall.
  specialize (Hall n). rewrite in_seq in Hall.
  assert (Hn : (0 <= n < 0 + 100)%nat) by lia.
  specialize (Hall Hn).
  destruct (pad2 n) as [|a [|b [|? ?]]]; try discriminate.
  apply andb_true_iff in Hall. exists a, b. tauto.
Qed.

Lemma default_name_matches t :
  valid_datetime t ->
  matches default_name_pattern ("backup_" ++ strftime t ++ ".zip") = true.
Proof.
  intros (Hy & Hm & Hd & Hh & Hmi & Hs).
  unfold strftime.
  destruct (pad2_two_digits (day t)) as (d1 & d2 & -> & Hd1 & Hd2); [lia|].
  destruct (pad2_two_digits (month t)) as (m1 & m2 & -> & Hm1 & Hm2); [lia|].
  destruct (pad2_two_digits (year t mod 100)) as (y1 & y2 & -> & Hy1 & Hy2).
  { apply Nat.mod_upper_bound. lia. }
  destruct (pad2_two_digits (hour t)) as (h1 & h2 & -> & Hh1 & Hh2); [lia|].
  destruct (pad2_two_digits (minute t)) as (i1 & i2 & -> & Hi1 & Hi2); [lia|].
  destruct (pad2_two_digits (second t)) as (s1 & s2 & -> & Hs1 & Hs2); [lia|].
  cbn. rewrite Hd1, Hd2, Hm1, Hm2, Hy1, Hy2, Hh1, Hh2, Hi1, Hi2, Hs1, Hs2.
  reflexivity.
Qed.

(** C4.  The archive path is [destination/backup_<timestamp>.zip] when no
    name is given and [destination/<name>.zip] when one is; with no name,
    the file name built from the current time matches
    [backup_\d{2}-\d{2}-\d{2}_\d{2}-\d{2}-\d{2}\.zip]. *)
Theorem C4_archive_path (t d : string) :
  create_zip_filepath t d None = d ++ "/" ++ "backup_" ++ t ++ ".zip"
  /\ (forall n, create_zip_filepath t d (Some n) = d ++ "/" ++ n ++ ".zip")
  /\ (forall w,
        valid_datetime (clock w) ->
        exists now file_name,
          get_current_time w = (Ok now, w)
          /\ create_zip_filepath now d None = d ++ "/" ++ file_name
          /\ matches default_name_pattern file_name = true).
Proof.
  split; [reflexivity|]. split; [reflexivity|].
  intros w Hv.
  exists (strftime (clock w)), ("backup_" ++ strftime (clock w) ++ ".zip").
  split; [reflexivity|]. split; [reflexivity|].
  now apply default_name_matches.
Qed.

Lemma C4_archive_path_witness :
  valid_datetime (clock demo_world)
  /\ exists now file_name,
       get_current_time demo_world = (Ok now, demo_world)
       /\ create_zip_filepath now "out" None = "out" ++ "/" ++ file_name
       /\ matches default_name_pattern file_name = true.
Proof.
  assert (Hv : valid_datetime (clock demo_world)).
  { unfold valid_datetime; simpl.
    repeat split; try lia; apply Nat.leb_le; vm_compute; reflexivity. }
  split; [exact Hv|].
  exact (proj2 (proj2 (C4_archive_path "" "out")) demo_world Hv).
Defined.

(** ** What the library calls leave alone *)

Section Frame.
Context {X : Type} (f : world -> X).
Hypothesis f_set_root : forall r w, f (set_root r w) = f w.
Hypothesis f_set_zips : forall zs w, f (set_zips zs w) = f w.
Hypothesis f_add_call : forall ev w, f (add_call ev w) = f w.

Lemma keeps_ret {A} (a : A) : keeps f (ret a).
Proof. intros w. reflexivity. Qed.

Lemma keeps_raise {A} e : keeps f (@raise A e).
Proof. intros w. reflexivity. Qed.

Lemma keeps_bind {A B} (c : M A) (k : A -> M B) :
  keeps f c -> (forall a, keeps f (k a)) -> keeps f (bind c k).
Proof.
  intros Hc Hk w. unfold bind. specialize (Hc w).
  destruct (c w) as [[a|e] w1]; simpl in *.
  - now rewrite Hk.
  - exact Hc.
Qed.

Lemma keeps_for_each {A} (l : list A) (body : A -> M unit) :
  (forall x, keeps f (body x)) -> keeps f (for_each l body).
Proof.
  intros Hb. induction l as [|x l IH]; simpl.
  - apply keeps_ret.
  - apply keeps_bind; auto.
Qed.

Lemma keeps_try_except {A} (c : M A) handles handler :
  keeps f c -> keeps f handler -> keeps f (try_except c handles handler).
Proof.
  intros Hc Hh w. unfold try_except. specialize (Hc w).
  destruct (c w) as [[a|e] w1]; simpl in *; [exact Hc|].
  destruct (handles e); simpl; [now rewrite Hh|exact Hc].
Qed.

Lemma keeps_log ev : keeps f (log ev).
Proof. intros w. simpl. apply f_add_call. Qed.

Lemma keeps_os_path_exists path : keeps f (os_path_exists path).
Proof.
  intros w. unfold os_path_exists.
  now destruct (stat (root w) (cwd w) path).
Qed.

Lemma keeps_os_walk top : keeps f (os_walk top).
Proof.
  intros w. unfold os_walk. now destruct (stat (root w) (cwd w) top).
Qed.

Lemma keeps_os_mkdir path : keeps f (os_mkdir path).
Proof.
  intros w. unfold os_mkdir.
  destruct (create_target _ _ _ _); [reflexivity|].
  destruct (lookup _ _); [reflexivity|]. simpl. apply f_set_root.
Qed.

Lemma keeps_makedirs_rec fuel : forall name, keeps f (makedirs_rec fuel name).
Proof.
  induction fuel as [|fuel IH]; intros name; cbn [makedirs_rec].
  - apply keeps_raise.
  - destruct (os_path_split name) as [head tail].
    destruct (if tail =? "" then os_path_split head else (head, tail))
      as [head' tail'].
    apply keeps_bind; [apply keeps_os_path_exists|]. intros ex.
    destruct (negb (head' =? "") && negb (tail' =? "") && negb ex).
    + apply keeps_bind.
      * apply keeps_try_except; [apply IH|apply keeps_ret].
      * intros _. destruct (tail' =? ".");
          [apply keeps_ret|apply keeps_os_mkdir].
    + apply keeps_os_mkdir.
Qed.

Lemma keeps_os_makedirs name : keeps f (os_makedirs name).
Proof.
  apply keeps_bind; [apply keeps_log|]. intros _. apply keeps_makedirs_rec.
Qed.

Lemma keeps_ZipFile file : keeps f (ZipFile file).
Proof.
  apply keeps_bind; [apply keeps_log|]. intros _ w.
  destruct (open_target (root w) (cwd w) file); [reflexivity|].
  simpl. now rewrite f_set_zips, f_set_root.
Qed.

Lemma keeps_add_member h z m : keeps f (add_member h z m).
Proof. intros w. simpl. now rewrite f_set_zips, f_set_root. Qed.

Lemma keeps_ZipFile_write h filename : keeps f (ZipFile_write h filename).
Proof.
  apply keeps_bind; [apply keeps_log|]. intros _ w.
  destruct (nth_error (zips w) h) as [z|]; [|reflexivity].
  destruct (zclosed z); [reflexivity|].
  destruct (stat (root w) (cwd w) filename) as [e|n]; [reflexivity|].
  destruct (arcname_of filename) as [arc|]; [|reflexivity].
  destruct n as [[|] data|es]; try reflexivity; apply keeps_add_member.
Qed.

Lemma keeps_ZipFile_close h : keeps f (ZipFile_close h).
Proof.
  apply keeps_bind; [apply keeps_log|]. intros _ w.
  destruct (nth_error (zips w) h) as [z|]; [|reflexivity].
  destruct (zclosed z); [reflexivity|].
  simpl. now rewrite f_set_zips, f_set_root.
Qed.

Lemma keeps_archive_source h source : keeps f (archive_source h source).
Proof.
  apply keeps_bind; [apply keeps_os_walk|]. intros triples.
  apply keeps_for_each. intros [[r dirs] files].
  apply keeps_for_each. intros file. apply keeps_ZipFile_write.
Qed.

Lemma keeps_create_zip_file zip_filepath sources :
  keeps f (create_zip_file zip_filepath sources).
Proof.
  rewrite create_zip_file_eq.
  apply keeps_bind; [apply keeps_ZipFile|]. intros h.
  apply keeps_bind; [|intros _; apply keeps_ZipFile_close].
  apply keeps_for_each. intros source. apply keeps_archive_source.
Qed.
End Frame.

Lemma stdout_os_makedirs name w :
  stdout (snd (os_makedirs name w)) = stdout w.
Proof. now apply (keeps_os_makedirs stdout). Qed.

Lemma stdout_create_zip_file p sources w :
  stdout (snd (create_zip_file p sources w)) = stdout w.
Proof. now apply (keeps_create_zip_file stdout). Qed.

Lemma cwd_create_zip_file p sources w :
  cwd (snd (create_zip_file p sources w)) = cwd w.
Proof. now apply (keeps_create_zip_file cwd). Qed.

(** ** The entry point *)

Lemma load_zip_sources w :
  load_global "zip_sources" w = (Raise (NameError "zip_sources"), w).
Proof. reflexivity. Qed.

Lemma main_unfold args w :
  main args w =
  match stat (root w) (cwd w) (destination args) with
  | inr _ => (Raise (NameError "zip_sources"), w)
  | inl _ =>
      match os_makedirs (destination args) w with
      | (Ok _, w1) => (Raise (NameError "zip_sources"), w1)
      | (Raise e, w1) => (Raise e, w1)
      end
  end.
Proof.
  unfold main, bind at 1, os_path_exists.
  destruct (stat (root w) (cwd w) (destination args)) as [e|n]; simpl.
  - unfold bind at 1.
    destruct (os_makedirs (destination args) w) as [[[]|e'] w1];
      reflexivity.
  - reflexivity.
Qed.

(** C1.  [main] calls [zip_sources], a name the module does not bind (the
    function is defined as [zipources]): whatever the arguments and the
    file system, once the destination directory is there the call raises
    [NameError], nothing is printed and the exit status is 1.  Called
    directly on the example of the specification, [zipources] does print
    the summary line. *)
Theorem C1_main_raises_NameError (args : Namespace) (w : world) :
  match stat (root w) (cwd w) (destination args) with
  | inr _ => main args w = (Raise (NameError "zip_sources"), w)
  | inl _ =>
      match os_makedirs (destination args) w with
      | (Ok _, w1) => main args w = (Raise (NameError "zip_sources"), w1)
      | (Raise e, w1) => main args w = (Raise e, w1)
      end
  end
  /\ exit_status (fst (main args w)) = 1%Z
  /\ stdout (snd (main args w)) = stdout w
  /\ main {| source := ["a.txt"; "subdir"]; destination := "out";
             name := Some "mybackup" |} demo_world
     = (Raise (NameError "zip_sources"), demo_world)
  /\ stdout (snd (zipources ["a.txt"; "subdir"] "out" (Some "mybackup")
                    demo_world))
     = ["The backup of 2 sources has been completed and saved to out (size: 0.00 MB)."].
Proof.
  rewrite main_unfold.
  pose proof (stdout_os_makedirs (destination args) w) as Hs.
  destruct (stat (root w) (cwd w) (destination args)) as [e|n].
  - destruct (os_makedirs (destination args) w) as [[[]|e'] w1];
      simpl in *; repeat split; auto.
  - repeat split; auto.
Qed.

(** ** The tree *)

Lemma assoc_set_entry_same {A} k (v : A) l :
  assoc k (set_entry k v l) = Some v.
Proof.
  induction l as [|[k' v'] l IH]; simpl.
  - now rewrite String.eqb_refl.
  - destruct (k' =? k) eqn:E; simpl.
    + now rewrite String.eqb_refl.
    + now rewrite E.
Qed.

Lemma lookup_put_file r p new b c :
  lookup r p = Some (File b c) -> lookup (put r p new) p = Some new.
Proof.
  revert r. induction p as [|a p IH]; intros r H; simpl in *.
  - reflexivity.
  - destruct r as [|es]; [discriminate|].
    destruct (assoc a es) as [ch|] eqn:E; [|discriminate].
    simpl. rewrite assoc_set_entry_same. now apply IH.
Qed.

Lemma lookup_put_new r pp c new es :
  lookup r pp = Some (Dir es) ->
  lookup (put r (pp ++ [c]) new) (pp ++ [c]) = Some new.
Proof.
  revert r. induction pp as [|a pp IH]; intros r H; simpl in *.
  - injection H as ->.
    destruct (assoc c es); simpl; now rewrite assoc_set_entry_same.
  - destruct r as [|es0]; [discriminate|].
    destruct (assoc a es0) as [ch|] eqn:E; [|discriminate].
    simpl. rewrite assoc_set_entry_same. now apply IH.
Qed.

Lemma map_set_entry_same {A B} (g : string * A -> B) k v v' l :
  assoc k l = Some v -> g (k, v') = g (k, v) ->
  map g (set_entry k v' l) = map g l.
Proof.
  intros H Hg. induction l as [|[k' x] l IH]; simpl in *; [discriminate|].
  destruct (k' =? k) eqn:E.
  - apply String.eqb_eq in E. subst k'. injection H as ->.
    simpl. now rewrite Hg.
  - simpl. now rewrite IH.
Qed.

Lemma shape_put_file r p b c b' c' :
  lookup r p = Some (File b c) ->
  shape_of (put r p (File b' c')) = shape_of r.
Proof.
  revert r. induction p as [|a p IH]; intros r H; simpl in *.
  - injection H as ->. reflexivity.
  - destruct r as [|es]; [discriminate|].
    destruct (assoc a es) as [ch|] eqn:E; [|discriminate].
    simpl. f_equal.
    apply map_set_entry_same with (v := ch); [exact E|].
    simpl. f_equal. now apply IH.
Qed.

Lemma assoc_shape es es' c :
  map (fun e => (fst e, shape_of (snd e))) es
  = map (fun e => (fst e, shape_of (snd e))) es' ->
  match assoc c es, assoc c es' with
  | Some n, Some n' => shape_of n = shape_of n'
  | None, None => True
  | _, _ => False
  end.
Proof.
  revert es'. induction es as [|[k v] es IH]; intros [|[k' v'] es'] H;
    simpl in *; try discriminate; [exact I|].
  injection H as Hk Hv Hr. subst k'.
  destruct (k =? c); [exact Hv|]. now apply IH.
Qed.

Lemma lookup_shape r r' q :
  shape_of r = shape_of r' ->
  match lookup r q, lookup r' q with
  | Some n, Some n' => shape_of n = shape_of n'
  | None, None => True
  | _, _ => False
  end.
Proof.
  revert r r'. induction q as [|c q IH]; intros r r' H; simpl.
  - exact H.
  - destruct r as [|es], r' as [|es']; simpl in H; try discriminate;
      [exact I|].
    injection H as H. pose proof (assoc_shape es es' c H) as Ha.
    destruct (assoc c es), (assoc c es'); try contradiction; [|exact I].
    now apply IH.
Qed.

Lemma resolve_from_shape r r' cur cs :
  shape_of r = shape_of r' ->
  resolve_from r cur cs = resolve_from r' cur cs.
Proof.
  intros H. revert cur. induction cs as [|c cs IH]; intros cur; simpl.
  - reflexivity.
  - pose proof (lookup_shape r r' cur H) as Hl.
    destruct (lookup r cur) as [[|]|], (lookup r' cur) as [[|]|];
      simpl in Hl; try contradiction; try discriminate; auto.
Qed.

Lemma stat_shape r r' cwd path :
  shape_of r = shape_of r' ->
  match stat r cwd path, stat r' cwd path with
  | inr n, inr n' => shape_of n = shape_of n'
  | inl e, inl e' => e = e'
  | _, _ => False
  end.
Proof.
  intros H. unfold stat, resolve.
  destruct (path =? ""); [reflexivity|].
  rewrite (resolve_from_shape r r' _ _ H).
  destruct (resolve_from r' (start_of cwd path) (split_sep path)) as [e|p];
    [reflexivity|].
  pose proof (lookup_shape r r' p H) as Hl.
  destruct (lookup r p), (lookup r' p); try contradiction; auto.
Qed.

Lemma is_dir_node_shape n n' :
  shape_of n = shape_of n' -> is_dir_node n = is_dir_node n'.
Proof. destruct n, n'; simpl; intros H; try discriminate; reflexivity. Qed.

Lemma walk_node_shape n :
  forall n' top, shape_of n = shape_of n' -> walk_node top n = walk_node top n'.
Proof.
  induction n as [b c|es IH] using node_ind'; intros n' top H.
  - destruct n'; [reflexivity|discriminate].
  - destruct n' as [|es']; [discriminate|]. simpl in H. injection H as H.
    simpl. revert es' H.
    induction IH as [|[k v] es Hv _ IHes]; intros [|[k' v'] es'] H;
      simpl in *; try discriminate; [reflexivity|].
    injection H as Hk Hs Hr. subst k'.
    specialize (IHes es' Hr). injection IHes as Hd Hf Hrest.
    rewrite (is_dir_node_shape v v' Hs), (Hv v' (os_path_join top k) Hs).
    destruct (is_dir_node v'); simpl; now rewrite Hd, Hf, Hrest.
Qed.

Lemma walked_paths_shape r r' cwd source :
  shape_of r = shape_of r' ->
  walked_paths r cwd source = walked_paths r' cwd source.
Proof.
  intros H. unfold walked_paths.
  pose proof (stat_shape r r' cwd source H) as Hs.
  destruct (stat r cwd source), (stat r' cwd source); try contradiction;
    [reflexivity|].
  now rewrite (walk_node_shape n n0 source Hs).
Qed.

(** ** Writing the archive *)

Lemma nth_error_set_nth {A} (l : list A) i x y :
  nth_error l i = Some y -> nth_error (set_nth i x l) i = Some x.
Proof.
  revert i. induction l as [|a l IH]; intros [|i] H; simpl in *;
    try discriminate; [reflexivity|].
  now apply (IH i).
Qed.

Lemma create_target_inr r cwd path cs pos :
  create_target r cwd path cs = inr pos ->
  exists pp es, pos = (pp ++ [last cs ""])%list
                /\ lookup r pp = Some (Dir es).
Proof.
  unfold create_target. destruct (path =? ""); [discriminate|].
  destruct cs as [|c0 cs]; [discriminate|].
  destruct (resolve_from r (start_of cwd path) (removelast (c0 :: cs)))
    as [e|pp]; [discriminate|].
  destruct (lookup r pp) as [[|es]|] eqn:E; try discriminate.
  destruct (is_name (last (c0 :: cs) "")); [|discriminate].
  intros H. injection H as <-. now exists pp, es.
Qed.

Lemma open_target_inr r cwd path pos :
  open_target r cwd path = inr pos ->
  exists pp c es, pos = (pp ++ [c])%list /\ lookup r pp = Some (Dir es).
Proof.
  unfold open_target.
  destruct (last (split_sep path) "" =? "").
  - destruct (create_target _ _ _ _) as [[]|p]; discriminate.
  - destruct (create_target r cwd path (split_sep path)) as [[]|p] eqn:E;
      try discriminate.
    destruct (lookup r p) as [[|]|]; try discriminate;
      intros H; injection H as <-;
      destruct (create_target_inr _ _ _ _ _ E) as (pp & es & -> & Hpp);
      now exists pp, (last (split_sep path) ""), es.
Qed.

Lemma ZipFile_cases file w :
  match open_target (root w) (cwd w) file with
  | inl e =>
      ZipFile file w = (Raise (oserror e file), add_call (EvZipOpen file) w)
  | inr pos =>
      exists w0,
        ZipFile file w = (Ok (List.length (zips w)), w0)
        /\ archive_state (List.length (zips w)) pos [] w0
        /\ cwd w0 = cwd w
        /\ root w0 = put (root w) pos (File true (ZipData false []))
        /\ calls w0 = (calls w ++ [EvZipOpen file])%list
  end.
Proof.
  unfold ZipFile, bind, log. simpl.
  destruct (open_target (root w) (cwd w) file) as [e|pos] eqn:E;
    [reflexivity|].
  eexists. split; [reflexivity|]. simpl.
  destruct (open_target_inr _ _ _ _ E) as (pp & c & es & -> & Hpp).
  repeat split; simpl.
  - rewrite nth_error_app2 by lia. now rewrite Nat.sub_diag.
  - eapply lookup_put_new; eauto.
Qed.

Lemma ZipFile_write_step h pos ms w filename :
  archive_state h pos ms w ->
  match ZipFile_write h filename w with
  | (Ok _, w') =>
      exists m, archive_state h pos (ms ++ [m]) w'
                /\ written_as (root w) (cwd w) filename m
                /\ shape_of (root w') = shape_of (root w)
                /\ cwd w' = cwd w
  | (Raise e, w') =>
      archive_state h pos ms w' /\ root w' = root w /\ cwd w' = cwd w
  end.
Proof.
  intros [Hz Hl]. unfold ZipFile_write, bind, log, written_as. simpl.
  rewrite Hz. simpl.
  destruct (stat (root w) (cwd w) filename) as [e|n].
  { repeat split; assumption. }
  destruct (arcname_of filename) as [arc|].
  2:{ repeat split; assumption. }
  assert (Hadd : forall m,
    let w' := snd (add_member h {| zpos := pos; zmembers := ms;
                                   zclosed := false |} m
                     (add_call (EvZipWrite filename) w)) in
    archive_state h pos (ms ++ [m]) w'
    /\ shape_of (root w') = shape_of (root w) /\ cwd w' = cwd w).
  { intros m. simpl. repeat split.
    - eapply nth_error_set_nth; eauto.
    - eapply lookup_put_file; eauto.
    - eapply shape_put_file; eauto. }
  destruct n as [[|] data|es].
  - destruct (Hadd (arc, data)) as (Ha & Hs & Hc).
    exists (arc, data). simpl in *. auto.
  - repeat split; assumption.
  - set (m := (arc ++ "/", Raw [])).
    destruct (Hadd m) as (Ha & Hs & Hc).
    exists m. simpl in *. split; [exact Ha|].
    split; [now exists arc|]. auto.
Qed.

Lemma for_each_map {A B} (g : A -> B) (l : list A) (body : B -> M unit) w :
  for_each (map g l) body w = for_each l (fun x => body (g x)) w.
Proof.
  revert w. induction l as [|x l IH]; intros w; simpl; [reflexivity|].
  unfold bind. destruct (body (g x) w) as [[[]|e] w1]; auto.
Qed.

Lemma for_each_walk_files h triples w :
  for_each triples (fun '(root, dirs, files) =>
    for_each files (fun file =>
      let file_path := os_path_join root file in
      ZipFile_write h file_path)) w
  = for_each (walk_files triples) (ZipFile_write h) w.
Proof.
  revert w. induction triples as [|[[r d] f] ts IH]; intros w; simpl;
    [reflexivity|].
  rewrite for_each_app, for_each_map. unfold bind.
  destruct (for_each f _ w) as [[[]|e] w1]; auto.
Qed.

Lemma archive_source_flat h source w :
  archive_source h source w
  = for_each (walked_paths (root w) (cwd w) source) (ZipFile_write h) w.
Proof.
  unfold archive_source, bind, os_walk, walked_paths.
  destruct (stat (root w) (cwd w) source) as [e|n]; [reflexivity|].
  apply for_each_walk_files.
Qed.

Lemma written_as_shape r r' cwd filename m :
  shape_of r = shape_of r' ->
  written_as r cwd filename m -> written_as r' cwd filename m.
Proof.
  intros H. unfold written_as.
  pose proof (stat_shape r r' cwd filename H) as Hs.
  destruct (stat r cwd filename) as [e|[|]],
           (stat r' cwd filename) as [e'|[|]];
    simpl in Hs; try contradiction; try discriminate; auto.
Qed.

Lemma writes_spec h pos paths :
  forall ms w,
    archive_state h pos ms w ->
    shape_of (root (snd (for_each paths (ZipFile_write h) w)))
    = shape_of (root w)
    /\ cwd (snd (for_each paths (ZipFile_write h) w)) = cwd w
    /\ exists ms',
         archive_state h pos (ms ++ ms')
           (snd (for_each paths (ZipFile_write h) w))
         /\ match fst (for_each paths (ZipFile_write h) w) with
            | Ok _ => Forall2 (written_as (root w) (cwd w)) paths ms'
            | Raise _ => True
            end.
Proof.
  induction paths as [|fp paths IH]; intros ms w Hst; simpl.
  - repeat split. exists []. rewrite app_nil_r. split; [exact Hst|constructor].
  - unfold bind.
    pose proof (ZipFile_write_step h pos ms w fp Hst) as Hw.
    destruct (ZipFile_write h fp w) as [[[]|e] w1].
    + destruct Hw as (m & Hst1 & Hwr & Hsh & Hcwd).
      destruct (IH _ _ Hst1) as (Hsh' & Hcwd' & ms' & Hst' & Hres).
      split; [congruence|]. split; [congruence|].
      exists (m :: ms'). rewrite <- app_assoc in Hst'. split; [exact Hst'|].
      destruct (fst (for_each paths (ZipFile_write h) w1)); [|exact I].
      constructor; [exact Hwr|].
      eapply Forall2_impl; [|exact Hres].
      intros x y. rewrite Hcwd. apply written_as_shape. exact Hsh.
    + destruct Hw as (Hst1 & Hr & Hcwd). simpl.
      split; [now rewrite Hr|]. split; [exact Hcwd|].
      exists []. rewrite app_nil_r. split; [exact Hst1|exact I].
Qed.

Lemma sources_loop_flat h pos r0 cwd0 sources :
  forall ms w,
    archive_state h pos ms w ->
    shape_of (root w) = shape_of r0 -> cwd w = cwd0 ->
    for_each sources (archive_source h) w
    = for_each (flat_map (walked_paths r0 cwd0) sources) (ZipFile_write h) w.
Proof.
  induction sources as [|s sources IH]; intros ms w Hst Hsh Hcwd; simpl;
    [reflexivity|].
  rewrite for_each_app. unfold bind. rewrite archive_source_flat.
  rewrite (walked_paths_shape _ _ (cwd w) s Hsh), Hcwd.
  destruct (writes_spec h pos (walked_paths r0 cwd0 s) ms w Hst)
    as (Hsh' & Hcwd' & ms' & Hst' & _).
  destruct (for_each (walked_paths r0 cwd0 s) (ZipFile_write h) w)
    as [[[]|e] w1]; [|reflexivity].
  simpl in *. eapply IH; eauto; congruence.
Qed.

(** [create_zip_file] opens the archive, writes the files the walks of
    the sources discover in the tree as it is right after the opening,
    and closes the archive. *)
Lemma create_zip_file_flat p sources w h w0 :
  ZipFile p w = (Ok h, w0) ->
  create_zip_file p sources w
  = (for_each (flat_map (walked_paths (root w0) (cwd w0)) sources)
       (ZipFile_write h) ;;
     ZipFile_close h) w0.
Proof.
  intros Ho. rewrite create_zip_file_eq. unfold bind at 1. rewrite Ho.
  pose proof (ZipFile_cases p w) as Hc.
  destruct (open_target (root w) (cwd w) p) as [e|pos];
    [rewrite Ho in Hc; discriminate|].
  destruct Hc as (w0' & Ho' & Hst & _). rewrite Ho in Ho'.
  injection Ho' as -> ->.
  unfold bind.
  now rewrite (sources_loop_flat _ pos (root w0') (cwd w0') sources [] w0').
Qed.

(** ** Resolution after a file has been put in the tree *)

Lemma assoc_set_entry_other {A} k k' (v : A) l :
  k' <> k -> assoc k' (set_entry k v l) = assoc k' l.
Proof.
  intros Hne. induction l as [|[k0 v0] l IH]; simpl.
  - destruct (k =? k') eqn:E; [|reflexivity].
    apply String.eqb_eq in E. congruence.
  - destruct (k0 =? k) eqn:E; simpl.
    + apply String.eqb_eq in E. subst k0.
      destruct (k =? k') eqn:E'; [|reflexivity].
      apply String.eqb_eq in E'. congruence.
    + now rewrite IH.
Qed.

Lemma lookup_dir_put r p new q es :
  p <> [] -> not_dir_at r p ->
  lookup r q = Some (Dir es) ->
  exists es', lookup (put r p new) q = Some (Dir es').
Proof.
  revert r q. induction p as [|a p IH]; intros r q Hne Hnd Hq;
    [congruence|].
  destruct r as [b d|es0].
  { destruct q; simpl in Hq; [discriminate|discriminate]. }
  destruct q as [|c q].
  { simpl. destruct (assoc a es0), p; eauto. }
  simpl in Hq. destruct (assoc c es0) as [chc|] eqn:Ec; [|discriminate].
  unfold not_dir_at in Hnd. simpl in Hnd. simpl.
  destruct (assoc a es0) as [ch|] eqn:Ea.
  - simpl. destruct (String.eqb_spec c a) as [->|Hca].
    + rewrite assoc_set_entry_same. rewrite Ea in Ec. injection Ec as <-.
      destruct p as [|a' p].
      * simpl in Hnd. destruct ch as [|esc].
        -- destruct q; simpl in Hq; discriminate.
        -- contradiction.
      * apply IH; [discriminate|exact Hnd|exact Hq].
    + rewrite assoc_set_entry_other by exact Hca. rewrite Ec. eauto.
  - destruct p as [|a' p].
    + simpl. destruct (String.eqb_spec c a) as [->|Hca]; [congruence|].
      rewrite assoc_set_entry_other by exact Hca. rewrite Ec. eauto.
    + simpl. rewrite Ec. eauto.
Qed.

Lemma resolve_from_put r p new cur cs res :
  p <> [] -> not_dir_at r p ->
  resolve_from r cur cs = inr res ->
  resolve_from (put r p new) cur cs = inr res.
Proof.
  intros Hne Hnd. revert cur. induction cs as [|c cs IH]; intros cur H;
    simpl in *; [exact H|].
  destruct (lookup r cur) as [[|es]|] eqn:E; try discriminate.
  destruct (lookup_dir_put r p new cur es Hne Hnd E) as (es' & ->).
  now apply IH.
Qed.

Lemma resolve_from_app r cur cs1 cs2 :
  resolve_from r cur (cs1 ++ cs2) =
  match resolve_from r cur cs1 with
  | inr cur' => resolve_from r cur' cs2
  | inl e => inl e
  end.
Proof.
  revert cur. induction cs1 as [|c cs1 IH]; intros cur; simpl;
    [reflexivity|].
  destruct (lookup r cur) as [[|]|]; auto.
Qed.

Lemma step_name cur c : is_name c = true -> step cur c = (cur ++ [c])%list.
Proof.
  unfold is_name, step. intros H. apply negb_true_iff in H.
  apply orb_false_iff in H as [H1 H3]. rewrite H1, H3. reflexivity.
Qed.

Lemma split_sep_not_nil s : split_sep s <> [].
Proof.
  induction s as [|c s IH]; simpl; [discriminate|].
  destruct (Ascii.eqb c sep); [discriminate|].
  destruct (split_sep s); [congruence|discriminate].
Qed.

(** The position [open] chooses is the one the path resolves to. *)
Lemma open_target_resolve r cwd path pos :
  open_target r cwd path = inr pos ->
  resolve r cwd path = inr pos /\ not_dir_at r pos /\ pos <> []
  /\ exists pp es, resolve_from r (start_of cwd path)
                     (removelast (split_sep path)) = inr pp
                   /\ lookup r pp = Some (Dir es)
                   /\ is_name (last (split_sep path) "") = true
                   /\ pos = (pp ++ [last (split_sep path) ""])%list
                   /\ (path =? "") = false.
Proof.
  unfold open_target.
  destruct (last (split_sep path) "" =? "").
  { destruct (create_target _ _ _ _) as [[]|p]; discriminate. }
  unfold create_target, resolve.
  destruct (path =? "") eqn:Ep; [discriminate|].
  pose proof (split_sep_not_nil path) as Hcs.
  pose proof (app_removelast_last "" Hcs) as Hsplit.
  remember (last (split_sep path) "") as c eqn:Hc.
  remember (removelast (split_sep path)) as front eqn:Hfront.
  destruct (split_sep path) as [|c0 cs] eqn:Ecs; [congruence|].
  destruct (resolve_from r (start_of cwd path) front)
    as [e|pp] eqn:Er; [destruct e; discriminate|].
  destruct (lookup r pp) as [[|es]|] eqn:El; try discriminate.
  destruct (is_name c) eqn:En; [|discriminate].
  destruct (lookup r (pp ++ [c])%list) as [[|]|] eqn:Ep';
    try discriminate; intros H;
    assert (Hpos : pos = (pp ++ [c])%list) by congruence;
    clear H; subst pos.
  all: split;
    [ rewrite Hsplit, resolve_from_app, Er; simpl;
      rewrite El, step_name by exact En; reflexivity |].
  all: split; [unfold not_dir_at; now rewrite Ep'|].
  all: split; [now destruct pp|].
  all: exists pp, es; auto.
Qed.

Lemma open_target_put r cwd path pos new :
  open_target r cwd path = inr pos ->
  lookup (put r pos new) pos = Some new ->
  is_dir_node new = false ->
  open_target (put r pos new) cwd path = inr pos.
Proof.
  intros Ho Hl Hnew.
  destruct (open_target_resolve _ _ _ _ Ho)
    as (_ & Hnd & Hne & pp & es & Hr & Hpp & Hname & -> & Hp).
  unfold open_target.
  assert (Hlast : (last (split_sep path) "" =? "") = false).
  { unfold is_name in Hname. apply negb_true_iff in Hname.
    apply orb_false_iff in Hname as [H _].
    now apply orb_false_iff in H as [H _]. }
  rewrite Hlast. unfold create_target. rewrite Hp.
  pose proof (split_sep_not_nil path) as Hcs.
  destruct (split_sep path) as [|c0 cs] eqn:Ecs; [congruence|].
  rewrite (resolve_from_put _ _ new _ _ _ Hne Hnd Hr).
  destruct (lookup_dir_put _ _ new _ _ Hne Hnd Hpp) as (es' & ->).
  rewrite Hname, Hl. destruct new; [reflexivity|discriminate].
Qed.

Lemma open_target_shape r r' cwd path :
  shape_of r = shape_of r' ->
  open_target r cwd path = open_target r' cwd path.
Proof.
  intros H.
  assert (Hc : forall cs,
    match create_target r cwd path cs, create_target r' cwd path cs with
    | inl e, inl e' => e = e'
    | inr p, inr p' =>
        p = p' /\ match lookup r p, lookup r' p with
                  | Some n, Some n' => is_dir_node n = is_dir_node n'
                  | None, None => True
                  | _, _ => False
                  end
    | _, _ => False
    end).
  { intros cs. unfold create_target. destruct (path =? ""); [reflexivity|].
    destruct cs as [|c0 cs]; [reflexivity|].
    rewrite (resolve_from_shape r r' _ _ H).
    destruct (resolve_from r' _ _) as [e|pp]; [reflexivity|].
    pose proof (lookup_shape r r' pp H) as Hl.
    destruct (lookup r pp) as [[|]|], (lookup r' pp) as [[|]|];
      simpl in Hl; try contradiction; try discriminate; try reflexivity.
    destruct (is_name (last (c0 :: cs) "")); [|reflexivity].
    split; [reflexivity|].
    pose proof (lookup_shape r r' (pp ++ [last (c0 :: cs) ""])%list H)
      as Hl'.
    destruct (lookup r _), (lookup r' _); try contradiction; auto.
    now apply is_dir_node_shape. }
  unfold open_target.
  destruct (last (split_sep path) "" =? "").
  - specialize (Hc (strip_trailing_empty (split_sep path))).
    destruct (create_target r _ _ _) as [e|p],
             (create_target r' _ _ _) as [e'|p'];
      try contradiction; [now subst|reflexivity].
  - specialize (Hc (split_sep path)).
    destruct (create_target r _ _ _) as [e|p],
             (create_target r' _ _ _) as [e'|p'];
      try contradiction; [now subst|].
    destruct Hc as [<- Hk].
    destruct (lookup r p) as [[|]|], (lookup r' p) as [[|]|];
      simpl in Hk; try contradiction; try discriminate; reflexivity.
Qed.

Lemma ZipFile_close_spec h pos ms w :
  archive_state h pos ms w ->
  exists w',
    ZipFile_close h w = (Ok tt, w')
    /\ closed_and_finalized h w'
    /\ members_of h w' = ms
    /\ lookup (root w') pos = Some (File true (ZipData true ms))
    /\ shape_of (root w') = shape_of (root w)
    /\ cwd w' = cwd w /\ stdout w' = stdout w
    /\ calls w' = (calls w ++ [EvZipClose h])%list.
Proof.
  intros [Hz Hl]. unfold ZipFile_close, bind, log. simpl. rewrite Hz. simpl.
  eexists. split; [reflexivity|]. simpl.
  assert (Hn : nth_error
                 (set_nth h {| zpos := pos; zmembers := ms; zclosed := true |}
                    (zips w)) h
               = Some {| zpos := pos; zmembers := ms; zclosed := true |})
    by (eapply nth_error_set_nth; eauto).
  assert (Hp : lookup (put (root w) pos (File true (ZipData true ms))) pos
               = Some (File true (ZipData true ms)))
    by (eapply lookup_put_file; eauto).
  split.
  { eexists. split; [exact Hn|]. simpl. split; [reflexivity|exact Hp]. }
  split; [unfold members_of; simpl; now rewrite Hn|].
  split; [exact Hp|].
  split; [eapply shape_put_file; eauto|]. auto.
Qed.

Lemma resolve_shape r r' cwd path :
  shape_of r = shape_of r' -> resolve r cwd path = resolve r' cwd path.
Proof.
  intros H. unfold resolve. destruct (path =? ""); [reflexivity|].
  now apply resolve_from_shape.
Qed.

(** The three ways [create_zip_file] ends: the opening fails; a write
    fails, and the archive is left open; or every walked file is written
    and the archive is closed. *)
Lemma create_zip_file_cases p sources w :
  match ZipFile p w with
  | (Raise e, w0) => create_zip_file p sources w = (Raise e, w0)
  | (Ok h, w0) =>
      let paths := flat_map (walked_paths (root w0) (cwd w0)) sources in
      match for_each paths (ZipFile_write h) w0 with
      | (Raise e, w1) =>
          create_zip_file p sources w = (Raise e, w1) /\ left_open h w1
      | (Ok _, w1) =>
          exists w2,
            create_zip_file p sources w = (Ok tt, w2)
            /\ ZipFile_close h w1 = (Ok tt, w2)
            /\ closed_and_finalized h w2
            /\ Forall2 (written_as (root w0) (cwd w0)) paths (members_of h w2)
            /\ stat (root w2) (cwd w2) p
               = inr (File true (ZipData true (members_of h w2)))
            /\ exists pos, open_target (root w2) (cwd w2) p = inr pos
      end
  end.
Proof.
  pose proof (ZipFile_cases p w) as Hc.
  destruct (open_target (root w) (cwd w) p) as [e|pos] eqn:Eo.
  { rewrite Hc. rewrite create_zip_file_eq.
    now rewrite (bind_raise _ _ _ _ _ Hc). }
  destruct Hc as (w0 & Ho & Hst & Hcwd & Hroot & _). rewrite Ho.
  cbv zeta. rewrite (create_zip_file_flat _ _ _ _ _ Ho).
  set (paths := flat_map (walked_paths (root w0) (cwd w0)) sources).
  destruct (writes_spec _ _ paths _ _ Hst) as (Hsh & Hcw & ms & Hst1 & Hres).
  destruct (for_each paths (ZipFile_write (List.length (zips w))) w0)
    as [[[]|e] w1] eqn:Ef; simpl in *.
  2:{ rewrite (bind_raise _ _ _ _ _ Ef).
      split; [reflexivity|]. destruct Hst1 as [Hz Hl].
      eexists. split; [exact Hz|]. split; [reflexivity|exact Hl]. }
  rewrite (bind_ok _ _ _ _ _ Ef).
  destruct (ZipFile_close_spec _ _ _ _ Hst1)
    as (w2 & Hcl & Hfin & Hms & Hl2 & Hsh2 & Hcw2 & _).
  exists w2. rewrite Hms.
  destruct (open_target_resolve _ _ _ _ Eo)
    as (Hres0 & Hnd & Hne & _).
  assert (Hsh02 : shape_of (root w2) = shape_of (root w0)) by congruence.
  assert (Hc02 : cwd w2 = cwd w) by congruence.
  repeat split; auto.
  - unfold stat. rewrite (resolve_shape _ _ _ _ Hsh02), Hc02, Hroot.
    unfold resolve in *. destruct (p =? ""); [discriminate|].
    rewrite (resolve_from_put _ _ _ _ _ _ Hne Hnd Hres0).
    now rewrite Hl2.
  - exists pos. rewrite (open_target_shape _ _ _ _ Hsh02), Hc02, Hroot.
    apply open_target_put; [exact Eo| |reflexivity].
    destruct Hst as [_ Hl0]. now rewrite Hroot in Hl0.
Qed.

Lemma for_each_raise {A} (l : list A) (body : A -> M unit) w e w' :
  for_each l body w = (Raise e, w') ->
  exists x w1, In x l /\ body x w1 = (Raise e, w').
Proof.
  revert w. induction l as [|x l IH]; intros w H; simpl in H;
    [discriminate|].
  unfold bind in H. destruct (body x w) as [[[]|e1] w1] eqn:E.
  - destruct (IH _ H) as (y & w2 & Hin & Hy). exists y, w2. simpl. auto.
  - injection H as -> ->. exists x, w. simpl. auto.
Qed.

Lemma os_walk_not_directory top w :
  match stat (root w) (cwd w) top with
  | inr (Dir _) => False
  | _ => True
  end ->
  os_walk top w = (Ok [], w) /\ walked_paths (root w) (cwd w) top = [].
Proof.
  unfold os_walk, walked_paths.
  destruct (stat (root w) (cwd w) top) as [e|[b c|es]]; simpl; intros H;
    [split; reflexivity|split; reflexivity|contradiction].
Qed.

Lemma print_finish_message_frame sources d p w :
  root (snd (print_finish_message sources d p w)) = root w
  /\ cwd (snd (print_finish_message sources d p w)) = cwd w
  /\ zips (snd (print_finish_message sources d p w)) = zips w.
Proof.
  unfold print_finish_message, os_path_getsize, print, bind, log. simpl.
  destruct (stat (root w) (cwd w) p); simpl; auto.
Qed.

Lemma zipources_eq sources d n w :
  zipources sources d n w =
  match create_zip_file (create_zip_filepath (strftime (clock w)) d n)
          sources w with
  | (Ok _, w1) =>
      print_finish_message sources d
        (create_zip_filepath (strftime (clock w)) d n) w1
  | (Raise e, w1) => (Raise e, w1)
  end.
Proof. reflexivity. Qed.

Lemma ZipFile_ok_stat file w h w0 :
  ZipFile file w = (Ok h, w0) ->
  h = List.length (zips w)
  /\ stat (root w0) (cwd w0) file = inr (File true (ZipData false []))
  /\ members_of h w0 = [].
Proof.
  intros Ho. pose proof (ZipFile_cases file w) as Hc.
  destruct (open_target (root w) (cwd w) file) as [e|pos] eqn:Eo;
    [rewrite Ho in Hc; discriminate|].
  destruct Hc as (w0' & Ho' & [Hz Hl] & Hcwd & Hroot & _).
  rewrite Ho in Ho'. injection Ho' as -> <-.
  destruct (open_target_resolve _ _ _ _ Eo) as (Hres & Hnd & Hne & _).
  split; [reflexivity|]. split.
  - unfold stat, resolve in *. rewrite Hcwd, Hroot.
    destruct (file =? ""); [discriminate|].
    rewrite (resolve_from_put _ _ _ _ _ _ Hne Hnd Hres).
    now rewrite <- Hroot, Hl.
  - unfold members_of. now rewrite Hz.
Qed.

(** ** The archive handle and the summary *)

(** C6, as the code has it.  When [create_zip_file] returns, the archive
    is closed and finalized, the path names the finalized file, and the
    summary step runs in that world.  When it raises, the exception leaves
    [zipources] at once: nothing is printed, the summary step does not
    run, and an archive that had been opened is left open, not
    finalized. *)
Theorem C6_summary_reads_closed_archive (sources : list string)
    (d : string) (n : option string) (w : world) :
  let p := create_zip_filepath (strftime (clock w)) d n in
  let h := List.length (zips w) in
  match create_zip_file p sources w with
  | (Ok _, w1) =>
      closed_and_finalized h w1
      /\ stat (root w1) (cwd w1) p
         = inr (File true (ZipData true (members_of h w1)))
      /\ zipources sources d n w = print_finish_message sources d p w1
  | (Raise e, w1) =>
      zipources sources d n w = (Raise e, w1)
      /\ stdout w1 = stdout w
      /\ match ZipFile p w with
         | (Ok _, _) => left_open h w1
         | (Raise _, _) => zips w1 = zips w
         end
  end.
Proof.
  intros p h. rewrite zipources_eq. fold p.
  pose proof (create_zip_file_cases p sources w) as Hc.
  pose proof (stdout_create_zip_file p sources w) as Hout.
  pose proof (ZipFile_cases p w) as Ho.
  destruct (open_target (root w) (cwd w) p) as [e0|pos].
  - rewrite Ho in *. rewrite Hc in *. simpl in *. auto.
  - destruct Ho as (w0 & Ho & _). rewrite Ho in *. cbv zeta in Hc.
    destruct (for_each _ _ w0) as [[[]|e] w1].
    + destruct Hc as (w2 & -> & _ & Hfin & _ & Hstat & _). auto.
    + destruct Hc as [Hc Hopen]. rewrite Hc in *. simpl in *. auto.
Qed.

(** C6, as stated, fails: a file of the source cannot be read, the write
    raises, and [create_zip_file] ends with the archive open and the file
    on disk not finalized. *)
Lemma C6_handle_left_open_after_failed_write :
  exists w1,
    create_zip_file "out/mybackup.zip" ["secret"] demo_world
    = (Raise (PermissionError "secret/key"), w1)
    /\ left_open 0 w1
    /\ ~ closed_and_finalized 0 w1.
Proof.
  eexists. split; [vm_compute; reflexivity|]. split.
  - eexists. split; [reflexivity|]. split; reflexivity.
  - intros (z & Hz & Hclosed & _). vm_compute in Hz.
    injection Hz as <-. discriminate.
Qed.

(** ** An explicit name *)

(** C9.  With an explicit name the archive path does not depend on the
    timestamp: it is [destination/<name>.zip].  After a run that
    succeeded, a second run with the same name and destination, at any
    later time, opens the archive at the same path without error and
    truncates the file the first run left. *)
Theorem C9_explicit_name (t1 t2 d X : string) :
  create_zip_filepath t1 d (Some X) = create_zip_filepath t2 d (Some X)
  /\ create_zip_filepath t1 d (Some X) = d ++ "/" ++ X ++ ".zip"
  /\ forall (sources : list string) (w w1 : world) (now2 : datetime),
       zipources sources d (Some X) w = (Ok tt, w1) ->
       stat (root w1) (cwd w1) (d ++ "/" ++ X ++ ".zip")
       = inr (File true (ZipData true (members_of (List.length (zips w)) w1)))
       /\ exists h w2,
            ZipFile (create_zip_filepath (strftime now2) d (Some X))
              (set_clock now2 w1) = (Ok h, w2)
            /\ stat (root w2) (cwd w2) (d ++ "/" ++ X ++ ".zip")
               = inr (File true (ZipData false [])).
Proof.
  split; [reflexivity|]. split; [reflexivity|].
  intros sources w w1 now2 Hrun.
  rewrite zipources_eq in Hrun.
  change (create_zip_filepath (strftime (clock w)) d (Some X))
    with (d ++ "/" ++ X ++ ".zip") in Hrun.
  change (create_zip_filepath (strftime now2) d (Some X))
    with (d ++ "/" ++ X ++ ".zip").
  set (p := d ++ "/" ++ X ++ ".zip") in *.
  pose proof (create_zip_file_cases p sources w) as Hc.
  pose proof (ZipFile_cases p w) as Ho.
  destruct (open_target (root w) (cwd w) p) as [e0|pos].
  { rewrite Ho in Hc. rewrite Hc in Hrun. discriminate. }
  destruct Ho as (w0 & Ho & _). rewrite Ho in Hc. cbv zeta in Hc.
  destruct (for_each _ _ w0) as [[[]|e] wa].
  2:{ destruct Hc as [Hc _]. rewrite Hc in Hrun. discriminate. }
  destruct Hc as (wb & Hc & _ & _ & _ & Hstat & pos' & Hopen).
  rewrite Hc in Hrun.
  destruct (print_finish_message_frame sources d p wb) as (Hr & Hcw & Hz).
  rewrite Hrun in Hr, Hcw, Hz. simpl in Hr, Hcw, Hz.
  split.
  { unfold members_of. rewrite Hr, Hcw, Hz. exact Hstat. }
  pose proof (ZipFile_cases p (set_clock now2 w1)) as Ho2.
  simpl in Ho2. rewrite Hr, Hcw, Hopen in Ho2.
  destruct Ho2 as (w2 & Ho2 & _).
  exists (List.length (zips w1)), w2. split; [exact Ho2|].
  now destruct (ZipFile_ok_stat _ _ _ _ Ho2) as (_ & Hs & _).
Qed.

Lemma C9_explicit_name_witness :
  exists w1,
    zipources ["subdir"] "out" (Some "mybackup") demo_world = (Ok tt, w1)
    /\ stat (root w1) (cwd w1) "out/mybackup.zip"
       = inr (File true (ZipData true (members_of 0 w1)))
    /\ exists h w2,
         ZipFile (create_zip_filepath (strftime demo_time) "out"
                    (Some "mybackup")) (set_clock demo_time w1) = (Ok h, w2)
         /\ stat (root w2) (cwd w2) "out/mybackup.zip"
            = inr (File true (ZipData false [])).
Proof.
  eexists. split; [vm_compute; reflexivity|].
  refine (proj2 (proj2 (C9_explicit_name "" "" "out" "mybackup"))
            ["subdir"] demo_world _ demo_time _).
  vm_compute; reflexivity.
Defined.

(** ** Sources that yield no files *)

Lemma flat_map_all_nil {A B} (g : A -> list B) (l : list A) :
  (forall x, In x l -> g x = []) -> flat_map g l = [].
Proof.
  induction l as [|x l IH]; intros H; simpl; [reflexivity|].
  rewrite (H x) by (simpl; auto). apply IH. intros y Hy. apply H. simpl. auto.
Qed.

Lemma create_zip_file_open_fails p sources w e w0 :
  ZipFile p w = (Raise e, w0) -> create_zip_file p sources w = (Raise e, w0).
Proof.
  intros Ho. pose proof (create_zip_file_cases p sources w) as Hc.
  now rewrite Ho in Hc.
Qed.

(** C10.  When the archive can be opened and no walk yields a file,
    [create_zip_file] returns normally, with the archive closed and
    finalized at the path, holding no member.  And whenever
    [create_zip_file] raises, the exception is the one of the opening of
    the archive or the one of a write of a walked file. *)
Theorem C10_no_files_empty_archive (p : string) (sources : list string)
    (w : world) :
  (forall h w0,
     ZipFile p w = (Ok h, w0) ->
     (forall s, In s sources -> walked_paths (root w0) (cwd w0) s = []) ->
     exists w',
       create_zip_file p sources w = (Ok tt, w')
       /\ closed_and_finalized h w'
       /\ members_of h w' = []
       /\ stat (root w') (cwd w') p = inr (File true (ZipData true [])))
  /\ (forall e w',
        create_zip_file p sources w = (Raise e, w') ->
        ZipFile p w = (Raise e, w')
        \/ exists h w0 file_path w1,
             ZipFile p w = (Ok h, w0)
             /\ In file_path
                  (flat_map (walked_paths (root w0) (cwd w0)) sources)
             /\ ZipFile_write h file_path w1 = (Raise e, w')).
Proof.
  pose proof (create_zip_file_cases p sources w) as Hc. split.
  - intros h w0 Ho Hnone. rewrite Ho in Hc. cbv zeta in Hc.
    rewrite (flat_map_all_nil _ _ Hnone) in Hc. simpl in Hc.
    destruct Hc as (w2 & Hc & _ & Hfin & Hmem & Hstat & _).
    destruct (members_of h w2) as [|m ms] eqn:Em; [|inversion Hmem].
    exists w2. split; [exact Hc|]. split; [exact Hfin|].
    split; [exact Em|exact Hstat].
  - intros e w' Hr.
    destruct (ZipFile p w) as [[h|e0] w0] eqn:Ho.
    + right. cbv zeta in Hc.
      destruct (for_each _ _ w0) as [[[]|e1] w1] eqn:Ef.
      * destruct Hc as (w2 & Hc & _). rewrite Hc in Hr. discriminate.
      * destruct Hc as [Hc _]. rewrite Hc in Hr. injection Hr as -> ->.
        destruct (for_each_raise _ _ _ _ _ Ef) as (fp & wa & Hin & Hw).
        now exists h, w0, fp, wa.
    + left. rewrite Hc in Hr. injection Hr as -> ->. reflexivity.
Qed.

Lemma C10_no_files_empty_archive_witness :
  let w0 := snd (ZipFile "out/e.zip" demo_world) in
  ZipFile "out/e.zip" demo_world = (Ok 0, w0)
  /\ (forall s, In s ["empty"; "nowhere"] ->
        walked_paths (root w0) (cwd w0) s = [])
  /\ (exists w',
        create_zip_file "out/e.zip" ["empty"; "nowhere"] demo_world
        = (Ok tt, w')
        /\ closed_and_finalized 0 w'
        /\ members_of 0 w' = []
        /\ stat (root w') (cwd w') "out/e.zip"
           = inr (File true (ZipData true [])))
  /\ exists e w',
       create_zip_file "out/e.zip" ["secret"] demo_world = (Raise e, w')
       /\ (ZipFile "out/e.zip" demo_world = (Raise e, w')
           \/ exists h w0 file_path w1,
                ZipFile "out/e.zip" demo_world = (Ok h, w0)
                /\ In file_path
                     (flat_map (walked_paths (root w0) (cwd w0)) ["secret"])
                /\ ZipFile_write h file_path w1 = (Raise e, w')).
Proof.
  intros w0.
  assert (Ho : ZipFile "out/e.zip" demo_world = (Ok 0, w0))
    by (vm_compute; reflexivity).
  assert (Hn : forall s, In s ["empty"; "nowhere"] ->
                 walked_paths (root w0) (cwd w0) s = []).
  { intros s [<-|[<-|[]]]; vm_compute; reflexivity. }
  assert (Hr : create_zip_file "out/e.zip" ["secret"] demo_world
               = (Raise (PermissionError "secret/key"),
                  snd (create_zip_file "out/e.zip" ["secret"] demo_world)))
    by (vm_compute; reflexivity).
  split; [exact Ho|]. split; [exact Hn|]. split.
  - exact (proj1 (C10_no_files_empty_archive "out/e.zip" ["empty"; "nowhere"]
                    demo_world) 0 w0 Ho Hn).
  - eexists. eexists. split; [exact Hr|].
    exact (proj2 (C10_no_files_empty_archive "out/e.zip" ["secret"]
                    demo_world) _ _ Hr).
Defined.

(** ** A source that does not exist, a source that is a file *)

(** C2, as stated, fails: "missing" does not exist, yet
    [create_zip_file] returns normally, having gone on to the next
    source. *)
Lemma C2_missing_source_raises_nothing :
  stat (root demo_world) (cwd demo_world) "missing" = inl ENOENT
  /\ os_walk "missing" demo_world = (Ok [], demo_world)
  /\ exists w',
       create_zip_file "out/mybackup.zip" ["missing"; "subdir"] demo_world
       = (Ok tt, w')
       /\ map fst (members_of 0 w') = ["subdir/b.txt"].
Proof.
  split; [reflexivity|]. split; [reflexivity|].
  eexists. split; [vm_compute; reflexivity|]. reflexivity.
Qed.

(** C2, as the code has it.  A source that does not exist when the
    sources are walked (the tree keeps its shape from the opening of the
    archive to its closing) raises nothing: its walk yields nothing and
    the run is the run on the other sources. *)
Theorem C2_missing_source_is_skipped (p : string)
    (pre post : list string) (missing : string) (w : world) :
  (forall h w0, ZipFile p w = (Ok h, w0) ->
                os_path_exists missing w0 = (Ok false, w0)) ->
  (forall h w0, ZipFile p w = (Ok h, w0) ->
                os_walk missing w0 = (Ok [], w0))
  /\ create_zip_file p (pre ++ missing :: post) w
     = create_zip_file p (pre ++ post) w.
Proof.
  intros Hmiss.
  assert (Hw : forall h w0, ZipFile p w = (Ok h, w0) ->
            os_walk missing w0 = (Ok [], w0)
            /\ walked_paths (root w0) (cwd w0) missing = []).
  { intros h w0 Ho. apply os_walk_not_directory.
    specialize (Hmiss h w0 Ho). unfold os_path_exists in Hmiss.
    destruct (stat (root w0) (cwd w0) missing); [exact I|discriminate]. }
  split; [intros h w0 Ho; exact (proj1 (Hw h w0 Ho))|].
  destruct (ZipFile p w) as [[h|e] w0] eqn:Ho.
  - rewrite !(create_zip_file_flat _ _ _ _ _ Ho).
    rewrite !flat_map_app. simpl.
    now rewrite (proj2 (Hw h w0 eq_refl)).
  - now rewrite !(create_zip_file_open_fails _ _ _ _ _ Ho).
Qed.

Lemma C2_missing_source_is_skipped_witness :
  (forall h w0, ZipFile "out/mybackup.zip" demo_world = (Ok h, w0) ->
                os_path_exists "missing" w0 = (Ok false, w0))
  /\ create_zip_file "out/mybackup.zip" (["a.txt"] ++ "missing" :: ["subdir"])
       demo_world
     = create_zip_file "out/mybackup.zip" (["a.txt"] ++ ["subdir"])
         demo_world.
Proof.
  assert (H : forall h w0,
            ZipFile "out/mybackup.zip" demo_world = (Ok h, w0) ->
            os_path_exists "missing" w0 = (Ok false, w0)).
  { intros h w0 Ho. vm_compute in Ho. injection Ho as <- <-.
    vm_compute. reflexivity. }
  split; [exact H|].
  exact (proj2 (C2_missing_source_is_skipped "out/mybackup.zip" ["a.txt"]
                  ["subdir"] "missing" demo_world H)).
Defined.

Lemma os_walk_regular_file top w b c :
  stat (root w) (cwd w) top = inr (File b c) -> os_walk top w = (Ok [], w).
Proof.
  intros H. apply os_walk_not_directory. now rewrite H.
Qed.

(** C3.  The code does not do this: [os.walk] on a path that names a
    regular file yields nothing, in every tree, so a source that is a file
    is left out of the archive.  For the sources ["a.txt"; "subdir/"] the
    archive holds one member, [subdir/b.txt]. *)
Theorem C3_file_source_is_not_archived :
  (forall (w : world) (source : string),
     match stat (root w) (cwd w) source with
     | inr (File _ _) =>
         os_walk source w = (Ok [], w)
         /\ walked_paths (root w) (cwd w) source = []
     | _ => True
     end)
  /\ stat (root demo_world) (cwd demo_world) "a.txt"
     = inr (File true (Raw [Byte.x61]))
  /\ os_walk "a.txt" demo_world = (Ok [], demo_world)
  /\ exists w',
       create_zip_file "out/mybackup.zip" ["a.txt"; "subdir/"] demo_world
       = (Ok tt, w')
       /\ members_of 0 w' = [("subdir/b.txt", Raw [Byte.x62; Byte.x63])]
       /\ stat (root w') (cwd w') "out/mybackup.zip"
          = inr (File true
                   (ZipData true [("subdir/b.txt", Raw [Byte.x62; Byte.x63])])).
Proof.
  split.
  { intros w source.
    pose proof (os_walk_not_directory source w) as H.
    destruct (stat (root w) (cwd w) source) as [e|[b c|es]]; auto. }
  split; [reflexivity|]. split; [reflexivity|].
  eexists. split; [vm_compute; reflexivity|]. split; reflexivity.
Qed.

(** ** The summary line *)

Lemma round_half_even_nearest num den :
  (0 < den)%Z ->
  (2 * Z.abs (round_half_even num den * den - num) <= den)%Z.
Proof.
  intros Hd. unfold round_half_even.
  pose proof (Z.div_mod num den ltac:(lia)) as Hdm.
  pose proof (Z.mod_pos_bound num den Hd) as Hm.
  destruct (Z.ltb_spec (2 * (num mod den)) den);
    [|destruct (Z.ltb_spec den (2 * (num mod den)));
      [|destruct (Z.even (num / den))]]; nia.
Qed.

Lemma round_half_even_multiple x den :
  (0 < den)%Z -> round_half_even (x * den) den = x.
Proof.
  intros Hd. unfold round_half_even.
  rewrite Z.div_mul, Z.mod_mul by lia.
  destruct (Z.ltb_spec (2 * 0) den); [reflexivity|lia].
Qed.

Lemma log2_MiB : Z.log2 MiB = 20%Z.
Proof. reflexivity. Qed.

(** Below [2 ^ 53] bytes the division by [1024 * 1024] is exact. *)
Lemma int_truediv_MiB_exact n :
  (0 < n < 2 ^ 53)%Z ->
  int_truediv n MiB
  = {| fmant := n * 2 ^ (52 - Z.log2 n); fexp := Z.log2 n - 72 |}.
Proof.
  intros [Hpos Hlt]. unfold int_truediv. rewrite log2_MiB.
  destruct (Z.eqb_spec n 0) as [->|_]; [lia|].
  pose proof (Z.log2_spec n Hpos) as [Hlo _].
  pose proof (Z.log2_nonneg n) as Hnn.
  assert (Hla : (Z.log2 n < 53)%Z) by (apply Z.log2_lt_pow2; lia).
  assert (Hge : (if (0 <=? Z.log2 n - 20)%Z
                 then (MiB * 2 ^ (Z.log2 n - 20) <=? n)%Z
                 else (MiB <=? n * 2 ^ (- (Z.log2 n - 20)))%Z) = true).
  { change MiB with (2 ^ 20)%Z.
    destruct (Z.leb_spec 0 (Z.log2 n - 20)).
    - apply Z.leb_le. rewrite <- Z.pow_add_r by lia.
      replace (20 + (Z.log2 n - 20))%Z with (Z.log2 n) by lia. exact Hlo.
    - apply Z.leb_le.
      replace (2 ^ 20)%Z
        with (2 ^ Z.log2 n * 2 ^ (- (Z.log2 n - 20)))%Z.
      + apply Z.mul_le_mono_nonneg_r; [apply Z.pow_nonneg; lia|exact Hlo].
      + rewrite <- Z.pow_add_r by lia. f_equal. lia. }
  rewrite Hge.
  destruct (Z.leb_spec 0 (Z.log2 n - 20 - 52)); [lia|].
  f_equal; [|lia].
  replace (- (Z.log2 n - 20 - 52))%Z with ((52 - Z.log2 n) + 20)%Z by lia.
  rewrite Z.pow_add_r by lia. rewrite Z.mul_assoc.
  change MiB with (2 ^ 20)%Z.
  apply round_half_even_multiple. lia.
Qed.

Lemma hundredths_nearest n :
  (0 <= n < 2 ^ 53)%Z ->
  (2 * Z.abs (hundredths (int_truediv n MiB) * MiB - 100 * n) <= MiB)%Z.
Proof.
  intros [Hnn Hlt].
  destruct (Z.eqb_spec n 0) as [->|Hne]; [vm_compute; discriminate|].
  rewrite int_truediv_MiB_exact by lia. unfold hundredths.
  cbn [fexp fmant].
  assert (Hla : (Z.log2 n < 53)%Z) by (apply Z.log2_lt_pow2; lia).
  pose proof (Z.log2_nonneg n) as Hl0.
  destruct (Z.leb_spec 0 (Z.log2 n - 72)); [lia|].
  set (k := (52 - Z.log2 n)%Z).
  replace (- (Z.log2 n - 72))%Z with (k + 20)%Z by (unfold k; lia).
  assert (Hk : (0 < 2 ^ k)%Z) by (apply Z.pow_pos_nonneg; unfold k; lia).
  rewrite Z.pow_add_r by (unfold k; lia).
  change (2 ^ 20)%Z with MiB.
  pose proof (round_half_even_nearest (100 * (n * 2 ^ k)) (2 ^ k * MiB)
                ltac:(unfold MiB; lia)) as Hr.
  set (h := round_half_even (100 * (n * 2 ^ k)) (2 ^ k * MiB)) in *.
  replace (h * (2 ^ k * MiB) - 100 * (n * 2 ^ k))%Z
    with (2 ^ k * (h * MiB - 100 * n))%Z in Hr by ring.
  rewrite Z.abs_mul, (Z.abs_eq (2 ^ k)) in Hr by lia.
  apply (Z.mul_le_mono_pos_l _ _ (2 ^ k)%Z); [exact Hk|].
  unfold MiB in *. lia.
Qed.

Lemma content_size_cons fin nm data rest :
  content_size (ZipData fin ((nm, data) :: rest))
  = (30 + Z.of_nat (String.length nm) + content_size data
     + (if fin then 46 + Z.of_nat (String.length nm) else 0)
     + content_size (ZipData fin rest))%Z.
Proof. cbn -[Z.add Z.of_nat String.length]. lia. Qed.

Lemma content_size_nonneg c : (0 <= content_size c)%Z.
Proof.
  induction c as [bs|fin ms IH] using content_ind'.
  - cbn -[Z.of_nat]. lia.
  - induction IH as [|[nm data] ms Hd _ IHms].
    + destruct fin; cbn; lia.
    + rewrite content_size_cons. cbn [snd] in Hd. destruct fin; lia.
Qed.

Lemma st_size_nonneg n : (0 <= st_size n)%Z.
Proof. destruct n; simpl; [apply content_size_nonneg|lia]. Qed.

Lemma print_finish_message_ok sources d p w archive :
  stat (root w) (cwd w) p = inr archive ->
  let line :=
    finish_message (List.length sources) d
      (int_truediv (st_size archive) MiB) in
  print_finish_message sources d p w
  = (Ok tt,
     add_stdout line (add_call (EvPrint line) (add_call (EvGetsize p) w))).
Proof.
  intros H. unfold print_finish_message, os_path_getsize, print, bind, log.
  cbn [root cwd add_call]. rewrite H. reflexivity.
Qed.

Lemma round_half_even_nonneg num den :
  (0 <= num)%Z -> (0 < den)%Z -> (0 <= round_half_even num den)%Z.
Proof.
  intros Hn Hd. unfold round_half_even.
  pose proof (Z.div_pos num den Hn Hd) as Hq.
  destruct (2 * (num mod den) <? den)%Z; [exact Hq|].
  destruct (den <? 2 * (num mod den))%Z; [lia|].
  destruct (Z.even (num / den)); lia.
Qed.

Lemma hundredths_truediv_nonneg n :
  (0 <= n)%Z -> (0 <= hundredths (int_truediv n MiB))%Z.
Proof.
  intros Hn. unfold int_truediv.
  destruct (n =? 0)%Z; [vm_compute; discriminate|].
  set (e0 := (Z.log2 n - Z.log2 MiB)%Z).
  set (fl := if (if (0 <=? e0)%Z then (MiB * 2 ^ e0 <=? n)%Z
                 else (MiB <=? n * 2 ^ (- e0))%Z)
             then e0 else (e0 - 1)%Z).
  set (s := (fl - 52)%Z).
  assert (HM : (0 < MiB)%Z) by reflexivity.
  assert (Hm : (0 <= (if (0 <=? s)%Z then round_half_even n (MiB * 2 ^ s)
                      else round_half_even (n * 2 ^ (- s)) MiB))%Z).
  { destruct (Z.leb_spec 0 s).
    - apply round_half_even_nonneg; [exact Hn|].
      pose proof (Z.pow_pos_nonneg 2 s ltac:(lia) ltac:(lia)). nia.
    - apply round_half_even_nonneg; [|exact HM].
      pose proof (Z.pow_pos_nonneg 2 (- s) ltac:(lia) ltac:(lia)). nia. }
  unfold hundredths. cbn [fmant fexp].
  set (m := if (0 <=? s)%Z then round_half_even n (MiB * 2 ^ s)
            else round_half_even (n * 2 ^ (- s)) MiB) in *.
  destruct (Z.leb_spec 0 s).
  - pose proof (Z.pow_pos_nonneg 2 s ltac:(lia) ltac:(lia)). nia.
  - apply round_half_even_nonneg; [lia|].
    apply Z.pow_pos_nonneg; lia.
Qed.

(** C5, as the code has it.  For every sources list, destination and
    archive path that names a file, the summary step prints one line,
    [The backup of <N> sources has been completed and saved to
    <destination> (size: <X.XX> MB).], where [N] is the length of the
    sources list and [X.XX], read as a number [h] of hundredths, is what
    the format [.2f] makes of the binary64 quotient of the size in bytes
    by [1024 * 1024].  For a file of less than [2 ^ 53] bytes the
    quotient is exact and [h] is within half a hundredth of it: the size
    in mebibytes rounded to two decimals.  For an archive path that names
    nothing, the step raises the error of [os.path.getsize] and prints
    nothing. *)
Theorem C5_summary_line (sources : list string) (d p : string) (w : world) :
  (forall archive,
     stat (root w) (cwd w) p = inr archive ->
     exists (h : Z) (w' : world),
       let line :=
         "The backup of " ++ str_of_nat (List.length sources)
         ++ " sources has been completed and saved to " ++ d
         ++ " (size: "
         ++ (str_of_Z (h / 100) ++ "." ++ pad2 (Z.to_nat (h mod 100)))
         ++ " MB)." in
       print_finish_message sources d p w = (Ok tt, w')
       /\ stdout w' = (stdout w ++ [line])%list
       /\ h = hundredths (int_truediv (st_size archive) (1024 * 1024))
       /\ (0 <= h)%Z
       /\ ((st_size archive < 2 ^ 53)%Z ->
           (2 * Z.abs (h * (1024 * 1024) - 100 * st_size archive)
            <= 1024 * 1024)%Z))
  /\ (forall e,
        stat (root w) (cwd w) p = inl e ->
        fst (print_finish_message sources d p w) = Raise (oserror e p)
        /\ stdout (snd (print_finish_message sources d p w)) = stdout w).
Proof.
  split.
  - intros archive Hstat.
    exists (hundredths (int_truediv (st_size archive) MiB)).
    eexists. split; [apply (print_finish_message_ok _ _ _ _ _ Hstat)|].
    split; [reflexivity|]. split; [reflexivity|].
    pose proof (st_size_nonneg archive) as Hnn.
    split; [now apply hundredths_truediv_nonneg|].
    intros Hsize.
    pose proof (hundredths_nearest (st_size archive) (conj Hnn Hsize)) as Hh.
    set (h := hundredths (int_truediv (st_size archive) MiB)) in *.
    unfold MiB in Hh. exact Hh.
  - intros e He.
    unfold print_finish_message, os_path_getsize, bind, log.
    cbn [root cwd add_call]. rewrite He. split; reflexivity.
Qed.

Lemma C5_summary_line_witness :
  let w := snd (create_zip_file "out/mybackup.zip" ["subdir"] demo_world) in
  exists archive,
    stat (root w) (cwd w) "out/mybackup.zip" = inr archive
    /\ exists (h : Z) (w' : world),
         let line :=
           "The backup of " ++ str_of_nat 2
           ++ " sources has been completed and saved to " ++ "out"
           ++ " (size: "
           ++ (str_of_Z (h / 100) ++ "." ++ pad2 (Z.to_nat (h mod 100)))
           ++ " MB)." in
         print_finish_message ["a.txt"; "subdir"] "out" "out/mybackup.zip" w
         = (Ok tt, w')
         /\ stdout w' = (stdout w ++ [line])%list
         /\ h = hundredths (int_truediv (st_size archive) (1024 * 1024))
         /\ (0 <= h)%Z
         /\ ((st_size archive < 2 ^ 53)%Z ->
             (2 * Z.abs (h * (1024 * 1024) - 100 * st_size archive)
              <= 1024 * 1024)%Z).
Proof.
  intros w.
  exists (File true
            (ZipData true [("subdir/b.txt", Raw [Byte.x62; Byte.x63])])).
  assert (Hs : stat (root w) (cwd w) "out/mybackup.zip"
               = inr (File true (ZipData true
                        [("subdir/b.txt", Raw [Byte.x62; Byte.x63])])))
    by (vm_compute; reflexivity).
  split; [exact Hs|].
  exact (proj1 (C5_summary_line ["a.txt"; "subdir"] "out" "out/mybackup.zip"
                  w) _ Hs).
Defined.

(** C5, as stated, fails: for an archive of [2 ^ 62 + 5243] bytes the
    size in mebibytes is [4398046511104.0050001...], which rounds to
    [4398046511104.01]; the binary64 quotient has only ten bits after the
    point left, and the line says [4398046511104.00]. *)
Lemma C5_large_size_is_not_the_rounded_quotient :
  (forall sources d p w archive,
     stat (root w) (cwd w) p = inr archive ->
     st_size archive = (2 ^ 62 + 5243)%Z ->
     let line :=
       "The backup of " ++ str_of_nat (List.length sources)
       ++ " sources has been completed and saved to " ++ d
       ++ " (size: 4398046511104.00 MB)." in
     stdout (snd (print_finish_message sources d p w))
     = (stdout w ++ [line])%list)
  /\ hundredths (int_truediv (2 ^ 62 + 5243) (1024 * 1024))
     = 439804651110400%Z
  /\ (1024 * 1024
      < 2 * Z.abs (439804651110400 * (1024 * 1024)
                   - 100 * (2 ^ 62 + 5243)))%Z
  /\ (2 * Z.abs (439804651110401 * (1024 * 1024) - 100 * (2 ^ 62 + 5243))
      <= 1024 * 1024)%Z.
Proof.
  split; [|split; [vm_compute; reflexivity|split; vm_compute; congruence]].
  intros sources d p w archive Hstat Hsize line. unfold line.
  rewrite (print_finish_message_ok _ _ _ _ _ Hstat). cbn [snd stdout add_stdout].
  unfold finish_message. rewrite Hsize.
  replace (format_2f (int_truediv (2 ^ 62 + 5243) MiB))
    with "4398046511104.00" by (vm_compute; reflexivity).
  reflexivity.
Qed.

(** ** Paths built by the walk *)

Lemma split_sep_app_sep a b :
  split_sep (a ++ String sep b) = (split_sep a ++ split_sep b)%list.
Proof.
  induction a as [|c a IH]; simpl.
  - reflexivity.
  - destruct (Ascii.eqb c sep); rewrite IH; [reflexivity|].
    pose proof (split_sep_not_nil a) as Hne.
    destruct (split_sep a); [congruence|reflexivity].
Qed.

Lemma split_sep_no_sep s : has_sep s = false -> split_sep s = [s].
Proof.
  unfold has_sep. induction s as [|c s IH]; simpl; [reflexivity|].
  intros H. apply orb_false_iff in H as [Hc Hs]. unfold is_sep in Hc.
  rewrite Hc, (IH Hs). reflexivity.
Qed.

Lemma ends_with_sep_inv s :
  ends_with_sep s = true -> exists t, s = t ++ String sep "".
Proof.
  induction s as [|c s IH]; simpl; [discriminate|].
  destruct s as [|c' s'].
  - intros H. apply Ascii.eqb_eq in H. subst c. now exists "".
  - intros H. destruct (IH H) as (t & Ht). exists (String c t).
    simpl. now rewrite <- Ht.
Qed.

Lemma ends_with_sep_app t : ends_with_sep (t ++ String sep "") = true.
Proof.
  induction t as [|c t IH]; simpl; [reflexivity|].
  destruct (t ++ String sep "") eqn:E; [destruct t; discriminate|exact IH].
Qed.

Lemma append_assoc (a b c : string) : (a ++ b) ++ c = a ++ (b ++ c).
Proof. induction a as [|x a IH]; simpl; [reflexivity|now rewrite IH]. Qed.

Lemma append_nil_r (a : string) : a ++ "" = a.
Proof. induction a as [|x a IH]; simpl; [reflexivity|now rewrite IH]. Qed.

Lemma prefix_empty s : prefix "" s = true.
Proof. now destruct s. Qed.

Lemma prefix_sep_app top x :
  (top =? "") = false -> prefix "/" (top ++ x) = prefix "/" top.
Proof.
  destruct top as [|c top]; [discriminate|]. intros _.
  change (match ascii_dec "/" c with
          | left _ => prefix "" (top ++ x)
          | right _ => false
          end
          = match ascii_dec "/" c with
            | left _ => prefix "" top
            | right _ => false
            end).
  destruct (ascii_dec "/" c); [|reflexivity]. now rewrite !prefix_empty.
Qed.

Lemma prefix_sep_app_sep t x y :
  prefix "/" (t ++ String sep x) = prefix "/" (t ++ String sep y).
Proof.
  destruct t as [|c t].
  { change (match ascii_dec "/" sep with
            | left _ => prefix "" x
            | right _ => false
            end
            = match ascii_dec "/" sep with
              | left _ => prefix "" y
              | right _ => false
              end).
    destruct (ascii_dec "/" sep); [|reflexivity]. now rewrite !prefix_empty. }
  change (match ascii_dec "/" c with
          | left _ => prefix "" (t ++ String sep x)
          | right _ => false
          end
          = match ascii_dec "/" c with
            | left _ => prefix "" (t ++ String sep y)
            | right _ => false
            end).
  destruct (ascii_dec "/" c); [|reflexivity]. now rewrite !prefix_empty.
Qed.

Lemma prefix_sep_no_sep s : has_sep s = false -> prefix "/" s = false.
Proof.
  destruct s as [|c s]; [reflexivity|]. unfold has_sep.
  cbn [list_ascii_of_string existsb].
  intros H. apply orb_false_iff in H as [Hc _]. unfold is_sep in Hc.
  change (match ascii_dec "/" c with
          | left _ => prefix "" s
          | right _ => false
          end = false).
  destruct (ascii_dec "/" c) as [<-|Hne]; [discriminate|reflexivity].
Qed.

Lemma proper_name_inv c :
  proper_name c = true -> is_name c = true /\ has_sep c = false.
Proof.
  unfold proper_name. intros H. apply andb_true_iff in H as [H1 H2].
  now apply negb_true_iff in H2.
Qed.

(** [os.path.join(top, name)] for a directory entry [name] is [top],
    a separator unless [top] ends with one, and [name]. *)
Lemma os_path_join_name top name :
  (top =? "") = false -> has_sep name = false ->
  os_path_join top name
  = if ends_with_sep top then top ++ name else top ++ "/" ++ name.
Proof.
  intros Ht Hn. unfold os_path_join.
  now rewrite (prefix_sep_no_sep _ Hn), Ht.
Qed.

Lemma app_not_empty top x : (top =? "") = false -> (top ++ x =? "") = false.
Proof. destruct top; [discriminate|reflexivity]. Qed.

Lemma os_path_join_not_empty top name :
  (top =? "") = false -> (os_path_join top name =? "") = false.
Proof.
  intros Ht. unfold os_path_join.
  destruct (prefix "/" name) eqn:E.
  - destruct name; [discriminate|reflexivity].
  - rewrite Ht. simpl. destruct (ends_with_sep top); now apply app_not_empty.
Qed.

(** The path of an entry resolves to the entry's position. *)
Lemma resolve_join r cwd top name P es :
  proper_name name = true ->
  resolve r cwd top = inr P -> lookup r P = Some (Dir es) ->
  resolve r cwd (os_path_join top name) = inr (P ++ [name])%list.
Proof.
  intros Hname Hres HP.
  destruct (proper_name_inv _ Hname) as [Hn Hs].
  unfold resolve in *.
  destruct (top =? "") eqn:Ht; [discriminate|].
  rewrite (os_path_join_not_empty _ name Ht).
  rewrite (os_path_join_name _ _ Ht Hs).
  destruct (ends_with_sep top) eqn:He.
  - destruct (ends_with_sep_inv _ He) as (t & ->).
    rewrite append_assoc.
    change (String sep "" ++ name) with (String sep name).
    unfold start_of in *.
    rewrite (prefix_sep_app_sep t name "").
    rewrite split_sep_app_sep, (split_sep_no_sep _ Hs), resolve_from_app.
    rewrite split_sep_app_sep, resolve_from_app in Hres. simpl in Hres.
    destruct (resolve_from r _ (split_sep t)) as [e|P0]; [discriminate|].
    destruct (lookup r P0) as [[|]|]; try discriminate.
    injection Hres as Hres. change (step P0 "") with P0 in Hres. subst P0.
    cbn [resolve_from]. now rewrite HP, step_name.
  - change ("/" ++ name) with (String sep name). unfold start_of in *.
    rewrite prefix_sep_app by exact Ht.
    rewrite split_sep_app_sep, (split_sep_no_sep _ Hs), resolve_from_app.
    rewrite Hres. cbn [resolve_from]. now rewrite HP, step_name.
Qed.

Lemma lookup_app r P Q :
  lookup r (P ++ Q) =
  match lookup r P with
  | Some n => lookup n Q
  | None => None
  end.
Proof.
  revert r. induction P as [|c P IH]; intros r; simpl; [reflexivity|].
  destruct r as [|es]; [reflexivity|]. destruct (assoc c es); auto.
Qed.

Lemma assoc_in_distinct {A} (l : list (string * A)) k v :
  distinct (map fst l) = true -> In (k, v) l -> assoc k l = Some v.
Proof.
  induction l as [|[k' v'] l IH]; simpl; [contradiction|].
  intros Hd [Heq|Hin].
  - injection Heq as -> ->. now rewrite String.eqb_refl.
  - apply andb_true_iff in Hd as [Hn Hd].
    destruct (String.eqb_spec k' k) as [->|Hne]; [|now apply IH].
    apply negb_true_iff in Hn.
    assert (Hex : existsb (String.eqb k) (map fst l) = true).
    { apply existsb_exists. exists k. split; [|apply String.eqb_refl].
      apply in_map_iff. now exists (k, v). }
    congruence.
Qed.

Lemma wf_node_entry es k v :
  wf_node (Dir es) = true -> In (k, v) es ->
  proper_name k = true /\ wf_node v = true /\ assoc k es = Some v.
Proof.
  simpl. intros H Hin.
  apply andb_true_iff in H as [H Hsub]. apply andb_true_iff in H as [Hnm Hd].
  rewrite forallb_forall in Hnm, Hsub. repeat split.
  - apply Hnm. apply in_map_iff. now exists (k, v).
  - now apply (Hsub (k, v)).
  - now apply assoc_in_distinct.
Qed.

Lemma in_walk_files fp triples :
  In fp (walk_files triples) <->
  exists r dirs files file,
    In (r, dirs, files) triples /\ In file files
    /\ fp = os_path_join r file.
Proof.
  unfold walk_files. rewrite in_flat_map. split.
  - intros ([[r dirs] files] & Hin & Hfp). apply in_map_iff in Hfp.
    destruct Hfp as (file & <- & Hfile). now exists r, dirs, files, file.
  - intros (r & dirs & files & file & Hin & Hfile & ->).
    exists (r, dirs, files). split; [exact Hin|].
    apply in_map_iff. now exists file.
Qed.

(** Every path the walk of a directory tree builds names a regular file
    of that tree. *)
Lemma walk_files_are_files r cwd n :
  forall top P,
    wf_node n = true -> resolve r cwd top = inr P -> lookup r P = Some n ->
    forall fp, In fp (walk_files (walk_node top n)) ->
               exists b c, stat r cwd fp = inr (File b c).
Proof.
  induction n as [b c|es IH] using node_ind'; intros top P Hwf Hres HP fp Hin.
  - simpl in Hin. contradiction.
  - apply in_walk_files in Hin.
    destruct Hin as (rt & dirs & files & file & Htri & Hfile & ->).
    simpl in Htri. destruct Htri as [Heq|Hsub].
    + injection Heq as <- <- <-.
      apply in_map_iff in Hfile. destruct Hfile as ([k v] & <- & Hf).
      apply filter_In in Hf as [Hf Hnd]. simpl in *.
      destruct (wf_node_entry _ _ _ Hwf Hf) as (Hname & _ & Hassoc).
      destruct v as [b c|]; [|discriminate].
      exists b, c. unfold stat.
      rewrite (resolve_join _ _ _ _ _ _ Hname Hres HP).
      rewrite lookup_app, HP. simpl. now rewrite Hassoc.
    + apply in_flat_map in Hsub. destruct Hsub as ([k v] & Hkv & Hin').
      rewrite Forall_forall in IH. simpl in *.
      destruct (wf_node_entry _ _ _ Hwf Hkv) as (Hname & Hwfv & Hassoc).
      apply (IH (k, v) Hkv (os_path_join top k) (P ++ [k])%list Hwfv).
      * exact (resolve_join _ _ _ _ _ _ Hname Hres HP).
      * rewrite lookup_app, HP. simpl. now rewrite Hassoc.
      * apply in_walk_files. now exists rt, dirs, files, file.
Qed.

Lemma wf_node_lookup r P n :
  wf_node r = true -> lookup r P = Some n -> wf_node n = true.
Proof.
  revert r. induction P as [|c P IH]; intros r Hwf H; simpl in H.
  - now injection H as <-.
  - destruct r as [|es]; [discriminate|].
    destruct (assoc c es) as [ch|] eqn:E; [|discriminate].
    apply (IH ch); [|exact H]. simpl in Hwf.
    apply andb_true_iff in Hwf as [_ Hsub]. rewrite forallb_forall in Hsub.
    assert (Hin : In (c, ch) es).
    { clear -E. induction es as [|[k v] es IHes]; simpl in *; [discriminate|].
      destruct (String.eqb_spec k c) as [->|]; [left; congruence|right; auto]. }
    exact (Hsub _ Hin).
Qed.

Lemma walked_paths_are_files r cwd source fp :
  wf_node r = true -> In fp (walked_paths r cwd source) ->
  exists b c, stat r cwd fp = inr (File b c).
Proof.
  intros Hwf. unfold walked_paths.
  destruct (stat r cwd source) as [e|n] eqn:Hs; [contradiction|].
  unfold stat in Hs.
  destruct (resolve r cwd source) as [e|P] eqn:Hres; [discriminate|].
  destruct (lookup r P) as [n'|] eqn:HP; [|discriminate].
  injection Hs as ->.
  eapply walk_files_are_files; eauto. eapply wf_node_lookup; eauto.
Qed.

(** ** Opening the archive keeps the tree a directory tree *)

Lemma split_sep_components s c :
  In c (split_sep s) -> has_sep c = false.
Proof.
  revert c. induction s as [|ch s IH]; intros c; simpl.
  - intros [<-|[]]. reflexivity.
  - destruct (Ascii.eqb ch sep) eqn:E.
    + intros [<-|H]; [reflexivity|now apply IH].
    + pose proof (split_sep_not_nil s) as Hne.
      destruct (split_sep s) as [|x rest]; [congruence|].
      intros [<-|H].
      * unfold has_sep. simpl. unfold is_sep at 1. rewrite E. simpl.
        apply (IH x). simpl. auto.
      * apply IH. simpl. auto.
Qed.

Lemma existsb_set_entry {A} k c (v : A) l :
  k <> c ->
  existsb (String.eqb k) (map fst (set_entry c v l))
  = existsb (String.eqb k) (map fst l).
Proof.
  intros Hne. induction l as [|[k' v'] l IH]; simpl.
  - destruct (String.eqb_spec k c); [congruence|reflexivity].
  - destruct (String.eqb_spec k' c) as [->|Hk]; simpl; [reflexivity|].
    now rewrite IH.
Qed.

Lemma wf_set_entry es c v :
  wf_node (Dir es) = true -> proper_name c = true -> wf_node v = true ->
  wf_node (Dir (set_entry c v es)) = true.
Proof.
  intros Hwf Hc Hv. induction es as [|[k x] es IH].
  - simpl. now rewrite Hc, Hv.
  - cbn [wf_node map fst forallb distinct] in Hwf.
    apply andb_true_iff in Hwf as [Hwf Hsub].
    apply andb_true_iff in Hwf as [Hnm Hd].
    cbn [snd] in Hsub.
    apply andb_true_iff in Hsub as [Hx Hsub].
    apply andb_true_iff in Hnm as [Hk Hnm].
    apply andb_true_iff in Hd as [Hnk Hd].
    assert (Hes : wf_node (Dir es) = true).
    { simpl. now rewrite Hnm, Hd, Hsub. }
    specialize (IH Hes).
    cbn [set_entry]. destruct (String.eqb_spec k c) as [->|Hne].
    + simpl. now rewrite Hc, Hnm, Hnk, Hd, Hv, Hsub.
    + cbn [wf_node map fst forallb distinct snd].
      simpl in IH. apply andb_true_iff in IH as [IH Hsub'].
      apply andb_true_iff in IH as [Hnm' Hd'].
      rewrite Hk, Hnm', Hd', Hx, Hsub'.
      now rewrite (existsb_set_entry k c v es Hne), Hnk.
Qed.

Lemma assoc_in {A} (l : list (string * A)) k v :
  assoc k l = Some v -> exists k', In (k', v) l /\ k' = k.
Proof.
  induction l as [|[k0 v0] l IH]; simpl; [discriminate|].
  destruct (String.eqb_spec k0 k) as [->|Hne].
  - intros H. injection H as ->. exists k. auto.
  - intros H. destruct (IH H) as (k' & Hin & Hk). exists k'. auto.
Qed.

Lemma wf_put_file r pp c es b d :
  wf_node r = true -> lookup r pp = Some (Dir es) ->
  proper_name c = true ->
  wf_node (put r (pp ++ [c]) (File b d)) = true.
Proof.
  revert r. induction pp as [|a pp IH]; intros r Hwf Hl Hc.
  - simpl in Hl. injection Hl as ->. simpl app. cbn [put].
    destruct (assoc c es); now apply wf_set_entry.
  - simpl in Hl. destruct r as [|es0]; [discriminate|].
    destruct (assoc a es0) as [ch|] eqn:Ea; [|discriminate].
    simpl app. cbn [put]. rewrite Ea.
    destruct (assoc_in _ _ _ Ea) as (k' & Hin & ->).
    destruct (wf_node_entry _ _ _ Hwf Hin) as (Ha & Hch & _).
    apply wf_set_entry; auto.
Qed.

Lemma last_in {A} (l : list A) d : l <> [] -> In (last l d) l.
Proof.
  induction l as [|x l IH]; [congruence|]. intros _.
  destruct l as [|y l]; [simpl; auto|].
  right. apply IH. discriminate.
Qed.

Lemma ZipFile_keeps_wf p w h w0 :
  wf_node (root w) = true -> ZipFile p w = (Ok h, w0) ->
  wf_node (root w0) = true.
Proof.
  intros Hwf Ho. pose proof (ZipFile_cases p w) as Hc.
  destruct (open_target (root w) (cwd w) p) as [e|pos] eqn:Eo;
    [rewrite Ho in Hc; discriminate|].
  destruct Hc as (w0' & Ho' & _ & _ & Hroot & _). rewrite Ho in Ho'.
  injection Ho' as _ <-. rewrite Hroot.
  destruct (open_target_resolve _ _ _ _ Eo)
    as (_ & _ & _ & pp & es & _ & Hpp & Hname & -> & _).
  eapply wf_put_file; eauto.
  unfold proper_name. rewrite Hname. simpl.
  rewrite (split_sep_components p); [reflexivity|].
  apply last_in, split_sep_not_nil.
Qed.

(** ** Entry names *)

Lemma written_names r cwd paths ms :
  Forall2 (written_as r cwd) paths ms ->
  (forall fp, In fp paths -> exists b c, stat r cwd fp = inr (File b c)) ->
  map arcname_of paths = map (fun m => Some (fst m)) ms.
Proof.
  induction 1 as [|fp m paths ms Hw _ IH]; intros Hfiles; simpl;
    [reflexivity|].
  rewrite IH by (intros x Hx; apply Hfiles; simpl; auto).
  destruct (Hfiles fp (or_introl eq_refl)) as (b & c & Hs).
  unfold written_as in Hw. rewrite Hs in Hw. now rewrite Hw.
Qed.

Lemma concat_cons c cs :
  cs <> [] ->
  String.concat "/" (c :: cs) = c ++ String sep (String.concat "/" cs).
Proof. destruct cs; [congruence|reflexivity]. Qed.

Lemma split_sep_concat cs :
  cs <> [] -> Forall (fun c => proper_name c = true) cs ->
  split_sep (String.concat "/" cs) = cs.
Proof.
  induction cs as [|c cs IH]; [congruence|]. intros _ Hall.
  inversion Hall as [|? ? Hc Hcs]; subst.
  destruct (proper_name_inv _ Hc) as [_ Hs].
  destruct cs as [|c' cs].
  - simpl. now apply split_sep_no_sep.
  - rewrite concat_cons by discriminate.
    rewrite split_sep_app_sep, (split_sep_no_sep _ Hs), IH;
      [reflexivity|discriminate|exact Hcs].
Qed.

Lemma is_name_not_empty c : is_name c = true -> exists ch c', c = String ch c'.
Proof. destruct c; [discriminate|eauto]. Qed.

Lemma concat_head cs :
  cs <> [] -> Forall (fun c => proper_name c = true) cs ->
  exists ch rest, String.concat "/" cs = String ch rest /\ is_sep ch = false.
Proof.
  destruct cs as [|c cs]; [congruence|]. intros _ Hall.
  inversion Hall as [|? ? Hc Hcs]; subst.
  destruct (proper_name_inv _ Hc) as [Hn Hs].
  destruct (is_name_not_empty _ Hn) as (ch & c' & ->).
  assert (Hch : is_sep ch = false).
  { unfold has_sep in Hs. simpl in Hs. now apply orb_false_iff in Hs as [? _]. }
  destruct cs as [|c2 cs].
  - exists ch, c'. auto.
  - rewrite concat_cons by discriminate. simpl. eauto.
Qed.

Lemma normpath_fold_names cs acc :
  Forall (fun c => proper_name c = true) cs ->
  fold_left (normpath_step 0) cs acc = (rev cs ++ acc)%list.
Proof.
  revert acc. induction cs as [|c cs IH]; intros acc Hall; [reflexivity|].
  inversion Hall as [|? ? Hc Hcs]; subst.
  destruct (proper_name_inv _ Hc) as [Hn _].
  unfold is_name in Hn. apply negb_true_iff in Hn.
  apply orb_false_iff in Hn as [Hn Hdd]. apply orb_false_iff in Hn as [He Hd].
  simpl. unfold normpath_step at 2. rewrite He, Hd, Hdd. simpl.
  rewrite IH by exact Hcs. now rewrite <- app_assoc.
Qed.

(** On a relative path in normal form the member name is the path. *)
Lemma arcname_of_clean s : clean_path s -> arcname_of s = Some s.
Proof.
  intros (cs & Hne & Hall & ->).
  destruct (concat_head cs Hne Hall) as (ch & rest & Hhd & Hch).
  assert (Hpre : prefix "/" (String.concat "/" cs) = false).
  { rewrite Hhd.
    change (match ascii_dec "/" ch with
            | left _ => prefix "" rest
            | right _ => false
            end = false).
    destruct (ascii_dec "/" ch) as [<-|]; [discriminate|reflexivity]. }
  assert (Hnorm : normpath (String.concat "/" cs) = String.concat "/" cs).
  { unfold normpath. rewrite Hpre.
    rewrite (split_sep_concat cs Hne Hall).
    rewrite (normpath_fold_names cs [] Hall), app_nil_r, rev_involutive.
    rewrite Hhd. reflexivity. }
  unfold arcname_of. rewrite Hnorm, Hhd. simpl. unfold is_sep in Hch.
  now rewrite Hch.
Qed.

Lemma ends_with_sep_cons c s :
  (s =? "") = false -> ends_with_sep (String c s) = ends_with_sep s.
Proof. destruct s; [discriminate|reflexivity]. Qed.

Lemma ends_with_sep_append a b :
  (b =? "") = false -> ends_with_sep (a ++ b) = ends_with_sep b.
Proof.
  intros Hb. induction a as [|c a IH]; [reflexivity|].
  simpl append. rewrite ends_with_sep_cons; [exact IH|].
  destruct a; [exact Hb|reflexivity].
Qed.

Lemma ends_with_sep_name c :
  is_name c = true -> has_sep c = false -> ends_with_sep c = false.
Proof.
  intros Hn Hs. destruct (is_name_not_empty _ Hn) as (ch & c' & ->).
  clear Hn. revert ch Hs. induction c' as [|x c' IH]; intros ch Hs.
  - unfold has_sep in Hs. simpl in *. now apply orb_false_iff in Hs as [? _].
  - rewrite ends_with_sep_cons by reflexivity. apply IH.
    unfold has_sep in *. simpl in *. now apply orb_false_iff in Hs as [_ ?].
Qed.

Lemma ends_with_sep_concat cs :
  cs <> [] -> Forall (fun c => proper_name c = true) cs ->
  ends_with_sep (String.concat "/" cs) = false.
Proof.
  induction cs as [|c cs IH]; [congruence|]. intros _ Hall.
  inversion Hall as [|? ? Hc Hcs]; subst.
  destruct (proper_name_inv _ Hc) as [Hn Hs].
  destruct cs as [|c' cs].
  - simpl. now apply ends_with_sep_name.
  - rewrite concat_cons by discriminate.
    destruct (concat_head (c' :: cs) ltac:(discriminate) Hcs)
      as (ch & rest & Hhd & _).
    rewrite ends_with_sep_append by reflexivity.
    rewrite ends_with_sep_cons by (rewrite Hhd; reflexivity).
    apply IH; [discriminate|exact Hcs].
Qed.

Lemma concat_snoc cs c :
  cs <> [] ->
  String.concat "/" (cs ++ [c]) = String.concat "/" cs ++ String sep c.
Proof.
  induction cs as [|x cs IH]; [congruence|]. intros _.
  destruct cs as [|y cs].
  - reflexivity.
  - change ((x :: y :: cs) ++ [c])%list with (x :: ((y :: cs) ++ [c]))%list.
    rewrite !concat_cons by (try discriminate; now destruct cs).
    rewrite IH by discriminate. now rewrite append_assoc.
Qed.

Lemma clean_path_not_empty s : clean_path s -> (s =? "") = false.
Proof.
  intros (cs & Hne & Hall & ->).
  destruct (concat_head cs Hne Hall) as (ch & rest & -> & _). reflexivity.
Qed.

Lemma clean_join top name :
  clean_source top -> proper_name name = true ->
  clean_path (os_path_join top name).
Proof.
  intros Htop Hname. destruct (proper_name_inv _ Hname) as [_ Hs].
  assert (Hgoal : forall cs, cs <> [] ->
            Forall (fun c => proper_name c = true) cs ->
            clean_path (String.concat "/" cs ++ String sep name)).
  { intros cs Hne Hall. exists (cs ++ [name])%list.
    split; [now destruct cs|]. split.
    - apply Forall_app. split; [exact Hall|]. now constructor.
    - now rewrite concat_snoc. }
  destruct Htop as [Hc|(t & Hc & ->)].
  - rewrite os_path_join_name by (auto using clean_path_not_empty).
    destruct Hc as (cs & Hne & Hall & ->).
    rewrite ends_with_sep_concat by assumption. now apply Hgoal.
  - rewrite os_path_join_name;
      [|now apply app_not_empty, clean_path_not_empty|exact Hs].
    change (t ++ "/") with (t ++ String sep "").
    rewrite ends_with_sep_app, append_assoc.
    destruct Hc as (cs & Hne & Hall & ->). now apply Hgoal.
Qed.

Lemma walk_files_clean n :
  forall top,
    wf_node n = true -> clean_source top ->
    forall fp, In fp (walk_files (walk_node top n)) -> clean_path fp.
Proof.
  induction n as [b c|es IH] using node_ind'; intros top Hwf Htop fp Hin.
  - simpl in Hin. contradiction.
  - apply in_walk_files in Hin.
    destruct Hin as (rt & dirs & files & file & Htri & Hfile & ->).
    simpl in Htri. destruct Htri as [Heq|Hsub].
    + injection Heq as <- <- <-.
      apply in_map_iff in Hfile. destruct Hfile as ([k v] & <- & Hf).
      apply filter_In in Hf as [Hf _].
      destruct (wf_node_entry _ _ _ Hwf Hf) as (Hname & _ & _).
      now apply clean_join.
    + apply in_flat_map in Hsub. destruct Hsub as ([k v] & Hkv & Hin').
      rewrite Forall_forall in IH.
      destruct (wf_node_entry _ _ _ Hwf Hkv) as (Hname & Hwfv & _).
      apply (IH (k, v) Hkv (os_path_join top k) Hwfv).
      * left. now apply clean_join.
      * apply in_walk_files. now exists rt, dirs, files, file.
Qed.

Lemma walked_paths_clean r cwd source fp :
  wf_node r = true -> clean_source source ->
  In fp (walked_paths r cwd source) -> arcname_of fp = Some fp.
Proof.
  intros Hwf Hsrc. unfold walked_paths.
  destruct (stat r cwd source) as [e|n] eqn:Hs; [contradiction|].
  intros Hin. apply arcname_of_clean.
  apply (walk_files_clean n source); auto.
  unfold stat in Hs.
  destruct (resolve r cwd source) as [e|P]; [discriminate|].
  destruct (lookup r P) as [n'|] eqn:HP; [|discriminate].
  injection Hs as ->. eapply wf_node_lookup; eauto.
Qed.

(** C8, as the code has it.  In a directory tree, when [create_zip_file]
    returns, the members of the archive are, in order, the files the walks
    of the sources discovered, each under the name [zipfile] derives from
    its walk path [os.path.join(root, file)]: the path normalized by
    [os.path.normpath], its leading separators removed.  The name is not
    made relative to the source: for a source given as a relative path in
    normal form, with or without a separator at its end, the name is the
    walk path itself, the directories of the source included. *)
Theorem C8_entry_names (p : string) (sources : list string) (w w' : world) :
  wf_node (root w) = true ->
  create_zip_file p sources w = (Ok tt, w') ->
  exists h w0,
    ZipFile p w = (Ok h, w0)
    /\ stat (root w') (cwd w') p
       = inr (File true (ZipData true (members_of h w')))
    /\ map (fun m => Some (fst m)) (members_of h w')
       = map arcname_of (flat_map (walked_paths (root w0) (cwd w0)) sources)
    /\ (forall file_path name,
          arcname_of file_path = Some name ->
          name = lstrip_sep (normpath file_path))
    /\ (forall source file_path,
          clean_source source ->
          In file_path (walked_paths (root w0) (cwd w0) source) ->
          arcname_of file_path = Some file_path).
Proof.
  intros Hwf Hrun.
  pose proof (create_zip_file_cases p sources w) as Hc.
  destruct (ZipFile p w) as [[h|e] w0] eqn:Ho.
  2:{ rewrite Hc in Hrun. discriminate. }
  cbv zeta in Hc.
  destruct (for_each _ _ w0) as [[[]|e] w1].
  2:{ destruct Hc as [Hc _]. rewrite Hc in Hrun. discriminate. }
  destruct Hc as (w2 & Hc & _ & _ & Hmem & Hstat & _).
  rewrite Hc in Hrun. injection Hrun as <-.
  pose proof (ZipFile_keeps_wf _ _ _ _ Hwf Ho) as Hwf0.
  exists h, w0. split; [reflexivity|]. split; [exact Hstat|].
  split; [|split].
  - symmetry. apply (written_names _ _ _ _ Hmem).
    intros fp Hin. apply in_flat_map in Hin. destruct Hin as (s & _ & Hin).
    eapply walked_paths_are_files; [exact Hwf0|exact Hin].
  - intros file_path name. unfold arcname_of.
    destruct (lstrip_sep (normpath file_path)); [discriminate|congruence].
  - intros source file_path Hsrc Hin.
    eapply walked_paths_clean; eauto.
Qed.

Lemma C8_entry_names_witness :
  wf_node (root demo_world) = true
  /\ exists w',
       create_zip_file "out/mybackup.zip" ["subdir"; "/home/u/subdir"]
         demo_world = (Ok tt, w')
       /\ exists h w0,
            ZipFile "out/mybackup.zip" demo_world = (Ok h, w0)
            /\ stat (root w') (cwd w') "out/mybackup.zip"
               = inr (File true (ZipData true (members_of h w')))
            /\ map (fun m => Some (fst m)) (members_of h w')
               = map arcname_of
                   (flat_map (walked_paths (root w0) (cwd w0))
                      ["subdir"; "/home/u/subdir"])
            /\ (forall file_path name,
                  arcname_of file_path = Some name ->
                  name = lstrip_sep (normpath file_path))
            /\ (forall source file_path,
                  clean_source source ->
                  In file_path (walked_paths (root w0) (cwd w0) source) ->
                  arcname_of file_path = Some file_path).
Proof.
  assert (Hwf : wf_node (root demo_world) = true) by (vm_compute; reflexivity).
  split; [exact Hwf|]. eexists.
  assert (Hrun :
    create_zip_file "out/mybackup.zip" ["subdir"; "/home/u/subdir"] demo_world
    = (Ok tt, snd (create_zip_file "out/mybackup.zip"
                     ["subdir"; "/home/u/subdir"] demo_world)))
    by (vm_compute; reflexivity).
  split; [exact Hrun|].
  exact (C8_entry_names "out/mybackup.zip" ["subdir"; "/home/u/subdir"]
           demo_world _ Hwf Hrun).
Defined.

(** C8, as stated, fails: the walk of the source [/home/u/subdir] builds
    the path [/home/u/subdir/b.txt], and the archive stores the file under
    [home/u/subdir/b.txt]; for the source [./subdir] the path is
    [./subdir/b.txt] and the name [subdir/b.txt]. *)
Lemma C8_entry_name_differs_from_walk_path :
  exists w0 w',
    ZipFile "out/mybackup.zip" demo_world = (Ok 0, w0)
    /\ create_zip_file "out/mybackup.zip" ["/home/u/subdir"; "./subdir"]
         demo_world = (Ok tt, w')
    /\ flat_map (walked_paths (root w0) (cwd w0)) ["/home/u/subdir"; "./subdir"]
       = ["/home/u/subdir/b.txt"; "./subdir/b.txt"]
    /\ map fst (members_of 0 w') = ["home/u/subdir/b.txt"; "subdir/b.txt"]
    /\ map fst (members_of 0 w')
       <> flat_map (walked_paths (root w0) (cwd w0))
            ["/home/u/subdir"; "./subdir"].
Proof.
  eexists. eexists. split; [vm_compute; reflexivity|].
  split; [vm_compute; reflexivity|].
  split; [vm_compute; reflexivity|].
  split; [vm_compute; reflexivity|].
  vm_compute. discriminate.
Qed.

(** ** Creating the destination *)

Lemma list_ascii_app a b :
  list_ascii_of_string (a ++ b)
  = (list_ascii_of_string a ++ list_ascii_of_string b)%list.
Proof. induction a as [|c a IH]; simpl; [reflexivity|now rewrite IH]. Qed.

Lemma string_of_list_app l1 l2 :
  string_of_list_ascii (l1 ++ l2)
  = string_of_list_ascii l1 ++ string_of_list_ascii l2.
Proof. induction l1 as [|c l1 IH]; simpl; [reflexivity|now rewrite IH]. Qed.

Lemma length_append a b :
  String.length (a ++ b) = (String.length a + String.length b)%nat.
Proof. induction a as [|c a IH]; simpl; [reflexivity|now rewrite IH]. Qed.

Lemma forallb_rev {A} (f : A -> bool) l : forallb f (rev l) = forallb f l.
Proof.
  induction l as [|x l IH]; simpl; [reflexivity|].
  rewrite forallb_app, IH. simpl. rewrite andb_true_r. apply andb_comm.
Qed.

Lemma is_sep_sep : is_sep sep = true.
Proof. reflexivity. Qed.

Lemma stat_parent_dir r cwd h c n :
  (h =? "") = false ->
  stat r cwd (h ++ String sep c) = inr n ->
  exists es, stat r cwd h = inr (Dir es).
Proof.
  intros Hh. unfold stat, resolve, start_of.
  rewrite (app_not_empty _ _ Hh), Hh, prefix_sep_app by exact Hh.
  rewrite split_sep_app_sep, resolve_from_app.
  destruct (resolve_from r _ (split_sep h)) as [e|Q]; [discriminate|].
  pose proof (split_sep_not_nil c) as Hne.
  destruct (split_sep c) as [|x l]; [congruence|]. cbn [resolve_from].
  destruct (lookup r Q) as [[|es]|]; try discriminate. eauto.
Qed.

Lemma ancestor_not_empty h d :
  ancestor_of h d -> (h =? "") = false -> (d =? "") = false.
Proof.
  induction 1 as [c|d c _ IH]; intros Hh.
  - now apply app_not_empty.
  - now apply app_not_empty, IH.
Qed.

Lemma ancestors_are_dirs r cwd h d :
  ancestor_of h d -> (h =? "") = false ->
  forall n, stat r cwd d = inr n -> exists es, stat r cwd h = inr (Dir es).
Proof.
  induction 1 as [c|d c Hanc IH]; intros Hh n Hs.
  - exact (stat_parent_dir _ _ _ _ _ Hh Hs).
  - destruct (stat_parent_dir _ _ _ _ _ (ancestor_not_empty _ _ Hanc Hh) Hs)
      as (es & Hd).
    exact (IH Hh _ Hd).
Qed.

Lemma os_makedirs_calls d w :
  calls (snd (os_makedirs d w)) = (calls w ++ [EvMakedirs d])%list.
Proof.
  unfold os_makedirs, bind, log.
  pose proof (keeps_makedirs_rec calls (fun _ _ => eq_refl)
                (S (String.length d)) d (add_call (EvMakedirs d) w)) as H.
  destruct (makedirs_rec _ d _) as [[[]|e] w1]; exact H.
Qed.

(** *** The recursion of [os.makedirs] ends *)

Lemma length_string_of_list l :
  String.length (string_of_list_ascii l) = List.length l.
Proof. induction l as [|c l IH]; simpl; [reflexivity|now rewrite IH]. Qed.

Lemma length_list_of_string s :
  List.length (list_ascii_of_string s) = String.length s.
Proof. induction s as [|c s IH]; simpl; [reflexivity|now rewrite IH]. Qed.

Lemma takewhile_dropwhile_length {A} (f : A -> bool) l :
  (List.length (takewhile f l) + List.length (dropwhile f l)
   = List.length l)%nat.
Proof.
  induction l as [|x l IH]; simpl; [reflexivity|].
  destruct (f x); simpl; lia.
Qed.

Lemma dropwhile_length {A} (f : A -> bool) l :
  (List.length (dropwhile f l) <= List.length l)%nat.
Proof.
  induction l as [|x l IH]; simpl; [lia|]. destruct (f x); simpl; lia.
Qed.

Lemma rstrip_sep_length s :
  (String.length (rstrip_sep s) <= String.length s)%nat.
Proof.
  unfold rstrip_sep. rewrite length_string_of_list, length_rev.
  pose proof (dropwhile_length is_sep (rev (list_ascii_of_string s))) as H.
  now rewrite length_rev, length_list_of_string in H.
Qed.

(** The two parts [os.path.split] returns are not longer than the
    path. *)
Lemma os_path_split_length p :
  (String.length (fst (os_path_split p)) + String.length (snd (os_path_split p))
   <= String.length p)%nat.
Proof.
  unfold os_path_split. cbn [fst snd].
  set (r := rev (list_ascii_of_string p)).
  pose proof (takewhile_dropwhile_length (fun c => negb (is_sep c)) r) as Hl.
  assert (Hr : List.length r = String.length p)
    by (unfold r; now rewrite length_rev, length_list_of_string).
  set (head0 := string_of_list_ascii
                  (rev (dropwhile (fun c => negb (is_sep c)) r))).
  assert (Hh : String.length head0
               = List.length (dropwhile (fun c => negb (is_sep c)) r))
    by (unfold head0; now rewrite length_string_of_list, length_rev).
  rewrite length_string_of_list, length_rev.
  pose proof (rstrip_sep_length head0) as Hs.
  destruct (negb (head0 =? "") && negb (all_sep head0)); lia.
Qed.

(** Above the length of the path, the fuel does not matter: the
    recursion of [os.makedirs] is on a strictly shorter path each
    time. *)
Lemma makedirs_rec_fuel fuel1 :
  forall fuel2 nm w,
    String.length nm < fuel1 -> String.length nm < fuel2 ->
    makedirs_rec fuel1 nm w = makedirs_rec fuel2 nm w.
Proof.
  induction fuel1 as [|fuel1 IH]; intros fuel2 nm w H1 H2; [lia|].
  destruct fuel2 as [|fuel2]; [lia|]. cbn [makedirs_rec].
  pose proof (os_path_split_length nm) as Hs1.
  destruct (os_path_split nm) as [head tail] eqn:E1. cbn [fst snd] in Hs1.
  pose proof (os_path_split_length head) as Hs2.
  destruct (os_path_split head) as [head2 tail2] eqn:E2. cbn [fst snd] in Hs2.
  assert (Hlen : forall hd tl,
            (if tail =? "" then (head2, tail2) else (head, tail)) = (hd, tl) ->
            (tl =? "") = false -> String.length hd < String.length nm).
  { intros hd tl Heq Htl.
    assert (Hpos : (0 < String.length tl)%nat).
    { destruct tl; [discriminate|simpl; lia]. }
    destruct (tail =? ""); injection Heq as <- <-; lia. }
  destruct (if tail =? "" then (head2, tail2) else (head, tail))
    as [hd tl] eqn:E3.
  specialize (Hlen hd tl eq_refl).
  unfold bind at 1 3.
  destruct (os_path_exists hd w) as [[ex|e] w1]; [|reflexivity].
  destruct (negb (hd =? "")) eqn:Hhd; [|reflexivity].
  destruct (tl =? "") eqn:Htl; [reflexivity|].
  destruct (negb ex); [|reflexivity]. cbn [negb andb].
  unfold bind, try_except.
  rewrite (IH fuel2 hd w1) by (specialize (Hlen eq_refl); lia).
  reflexivity.
Qed.

Lemma os_makedirs_fuel nm fuel w :
  String.length nm < fuel ->
  os_makedirs nm w = (log (EvMakedirs nm) ;; makedirs_rec fuel nm) w.
Proof.
  intros H. unfold os_makedirs, bind, log.
  now rewrite (makedirs_rec_fuel (S (String.length nm)) fuel) by lia.
Qed.

Lemma os_mkdir_no_RecursionError path w :
  fst (os_mkdir path w) <> Raise RecursionError.
Proof.
  unfold os_mkdir.
  destruct (create_target _ _ _ _) as [[]|p]; try discriminate.
  destruct (lookup (root w) p); discriminate.
Qed.

(** With the length of the path as fuel, the bound on the recursion is
    never the reason [os.makedirs] raises. *)
Lemma makedirs_rec_no_RecursionError fuel :
  forall nm w,
    String.length nm < fuel ->
    fst (makedirs_rec fuel nm w) <> Raise RecursionError.
Proof.
  induction fuel as [|fuel IH]; intros nm w Hf; [lia|].
  cbn [makedirs_rec].
  pose proof (os_path_split_length nm) as Hs1.
  destruct (os_path_split nm) as [head tail] eqn:E1. cbn [fst snd] in Hs1.
  pose proof (os_path_split_length head) as Hs2.
  destruct (os_path_split head) as [head2 tail2] eqn:E2. cbn [fst snd] in Hs2.
  assert (Hlen : forall hd tl,
            (if tail =? "" then (head2, tail2) else (head, tail)) = (hd, tl) ->
            (tl =? "") = false -> String.length hd < String.length nm).
  { intros hd tl Heq Htl.
    assert (Hpos : (0 < String.length tl)%nat).
    { destruct tl; [discriminate|simpl; lia]. }
    destruct (tail =? ""); injection Heq as <- <-; lia. }
  destruct (if tail =? "" then (head2, tail2) else (head, tail))
    as [hd tl] eqn:E3.
  specialize (Hlen hd tl eq_refl).
  unfold bind at 1.
  destruct (os_path_exists hd w) as [[ex|e] w1] eqn:Eex.
  2:{ unfold os_path_exists in Eex.
      destruct (stat (root w) (cwd w) hd); discriminate. }
  destruct (negb (hd =? "")) eqn:Hhd;
    [|apply os_mkdir_no_RecursionError].
  destruct (tl =? "") eqn:Htl; [apply os_mkdir_no_RecursionError|].
  destruct (negb ex); [|apply os_mkdir_no_RecursionError]. cbn [negb andb].
  unfold bind, try_except.
  pose proof (IH hd w1 ltac:(specialize (Hlen eq_refl); lia)) as Hrec.
  destruct (makedirs_rec fuel hd w1) as [[[]|e] w2]; cbn [fst] in Hrec.
  - destruct (tl =? "."); [discriminate|apply os_mkdir_no_RecursionError].
  - destruct e; cbn [is_FileExistsError ret]; try discriminate;
      try congruence.
    destruct (tl =? "."); [discriminate|apply os_mkdir_no_RecursionError].
Qed.

Lemma makedirs_rec_S fuel name :
  makedirs_rec (S fuel) name
  = (let '(head, tail) := makedirs_split name in
     head_exists <- os_path_exists head ;;
     if negb (head =? "") && negb (tail =? "") && negb head_exists
     then
       try_except (makedirs_rec fuel head) is_FileExistsError (ret tt) ;;
       if tail =? "." then ret tt else os_mkdir name
     else os_mkdir name).
Proof.
  cbn [makedirs_rec]. unfold makedirs_split.
  destruct (os_path_split name) as [head tail].
  destruct (tail =? ""); [|reflexivity].
  destruct (os_path_split head); reflexivity.
Qed.

Lemma takewhile_dropwhile_app {A} (f : A -> bool) l :
  l = (takewhile f l ++ dropwhile f l)%list.
Proof.
  induction l as [|x l IH]; [reflexivity|]. cbn [takewhile dropwhile].
  destruct (f x); [cbn [app]; now rewrite <- IH|reflexivity].
Qed.

Lemma takewhile_forallb {A} (f : A -> bool) l :
  forallb f (takewhile f l) = true.
Proof.
  induction l as [|x l IH]; [reflexivity|]. cbn [takewhile].
  destruct (f x) eqn:E; [cbn [forallb]; now rewrite E|reflexivity].
Qed.

Lemma dropwhile_head {A} (f : A -> bool) l x rest :
  dropwhile f l = x :: rest -> f x = false.
Proof.
  induction l as [|y l IH]; cbn [dropwhile]; [discriminate|].
  destruct (f y) eqn:E; [exact IH|]. intros H. now injection H as <- _.
Qed.

Lemma all_empty_repeat l :
  forallb (fun c => c =? "") l = true ->
  l = repeat "" (List.length l).
Proof.
  induction l as [|x l IH]; [reflexivity|]. cbn [forallb].
  intros H. apply andb_true_iff in H as [Hx Hl].
  apply String.eqb_eq in Hx. subst x. cbn. now rewrite <- IH.
Qed.

Lemma rev_repeat {A} (x : A) n : rev (repeat x n) = repeat x n.
Proof.
  induction n as [|n IH]; [reflexivity|]. cbn [repeat rev]. rewrite IH.
  clear IH. induction n as [|n IH]; [reflexivity|].
  cbn [repeat app]. now rewrite IH.
Qed.

(** [strip_trailing_empty] removes empty components at the end. *)
Lemma strip_trailing_empty_spec l :
  exists k, l = (strip_trailing_empty l ++ repeat "" k)%list.
Proof.
  unfold strip_trailing_empty.
  pose proof (takewhile_dropwhile_app (fun c => c =? "") (rev l)) as H.
  pose proof (takewhile_forallb (fun c => c =? "") (rev l)) as Ht.
  apply all_empty_repeat in Ht.
  exists (List.length (takewhile (fun c => c =? "") (rev l))).
  rewrite <- (rev_involutive l) at 1. rewrite H at 1.
  rewrite rev_app_distr. f_equal.
  rewrite Ht at 1. apply rev_repeat.
Qed.

Lemma strip_trailing_empty_app front c k :
  (c =? "") = false ->
  strip_trailing_empty (front ++ [c] ++ repeat "" k) = (front ++ [c])%list.
Proof.
  intros Hc. unfold strip_trailing_empty.
  rewrite app_assoc, rev_app_distr, rev_repeat, rev_app_distr. cbn [rev app].
  induction k as [|k IH]; cbn [repeat app dropwhile].
  - rewrite Hc. cbn [rev]. now rewrite rev_involutive.
  - exact IH.
Qed.

Lemma resolve_from_empties r cur k es :
  lookup r cur = Some (Dir es) ->
  resolve_from r cur (repeat "" k) = inr cur.
Proof.
  intros H. induction k as [|k IH]; [reflexivity|].
  cbn [repeat resolve_from]. rewrite H. exact IH.
Qed.

Lemma create_target_spec r cwd path cs pos :
  create_target r cwd path cs = inr pos ->
  (path =? "") = false
  /\ cs <> []
  /\ is_name (last cs "") = true
  /\ exists pp es,
       resolve_from r (start_of cwd path) (removelast cs) = inr pp
       /\ lookup r pp = Some (Dir es)
       /\ pos = (pp ++ [last cs ""])%list.
Proof.
  unfold create_target. destruct (path =? ""); [discriminate|].
  destruct cs as [|c0 cs]; [discriminate|].
  destruct (resolve_from r (start_of cwd path) (removelast (c0 :: cs)))
    as [e|pp]; [discriminate|].
  destruct (lookup r pp) as [[|es]|] eqn:E; try discriminate.
  destruct (is_name (last (c0 :: cs) "")) eqn:Hn; [|discriminate].
  intros H. injection H as <-.
  split; [reflexivity|]. split; [discriminate|]. split; [reflexivity|].
  now exists pp, es.
Qed.

(** When [os.mkdir] returns, its argument names a new, empty
    directory. *)
Lemma os_mkdir_ok path w w1 :
  os_mkdir path w = (Ok tt, w1) ->
  cwd w1 = cwd w /\ stat (root w1) (cwd w1) path = inr (Dir []).
Proof.
  unfold os_mkdir.
  destruct (create_target (root w) (cwd w) path
              (strip_trailing_empty (split_sep path))) as [e|p] eqn:Ec;
    [discriminate|].
  destruct (lookup (root w) p) as [n|] eqn:Hp; [discriminate|].
  intros H. injection H as <-. cbn [root cwd set_root].
  split; [reflexivity|].
  destruct (create_target_spec _ _ _ _ _ Ec)
    as (Hpath & Hne & Hn & pp & es & Hres & Hpp & ->).
  destruct (strip_trailing_empty_spec (split_sep path)) as (k & Hk).
  set (cs := strip_trailing_empty (split_sep path)) in *.
  set (c := last cs "") in *.
  assert (Hcs : cs = (removelast cs ++ [c])%list)
    by (apply app_removelast_last; exact Hne).
  assert (Hne' : (pp ++ [c])%list <> []) by (destruct pp; discriminate).
  assert (Hnd : not_dir_at (root w) (pp ++ [c]))
    by (unfold not_dir_at; now rewrite Hp).
  assert (Hnew : lookup (put (root w) (pp ++ [c]) (Dir [])) (pp ++ [c])
                 = Some (Dir [])) by (eapply lookup_put_new; eauto).
  unfold stat, resolve. rewrite Hpath, Hk, resolve_from_app.
  remember (removelast cs) as front eqn:Hfront.
  rewrite Hcs, resolve_from_app.
  rewrite (resolve_from_put _ _ (Dir []) _ _ _ Hne' Hnd Hres).
  cbn [resolve_from].
  destruct (lookup_dir_put _ _ (Dir []) _ _ Hne' Hnd Hpp) as (es' & ->).
  rewrite (step_name _ _ Hn).
  rewrite (resolve_from_empties _ _ k [] Hnew). now rewrite Hnew.
Qed.

(** When [os.makedirs] returns for a path whose last component is not
    ".", its last step was the [os.mkdir] of the path. *)
Lemma makedirs_rec_ok fuel name w w1 :
  makedirs_rec fuel name w = (Ok tt, w1) ->
  makedirs_tail name <> "." ->
  cwd w1 = cwd w /\ stat (root w1) (cwd w1) name = inr (Dir []).
Proof.
  intros Hrun Htail.
  assert (Hcwd : cwd w1 = cwd w).
  { pose proof (keeps_makedirs_rec cwd (fun _ _ => eq_refl) fuel name w) as H.
    now rewrite Hrun in H. }
  split; [exact Hcwd|].
  destruct fuel as [|fuel]; [discriminate Hrun|].
  rewrite makedirs_rec_S in Hrun. unfold makedirs_tail in Htail.
  destruct (makedirs_split name) as [head tail]. cbn [snd] in Htail.
  unfold bind at 1, os_path_exists in Hrun.
  set (ex := match stat (root w) (cwd w) head with
             | inr _ => true | inl _ => false end) in *.
  assert (Hex : (match stat (root w) (cwd w) head with
                 | inr _ => (Ok true, w) | inl _ => (Ok false, w) end)
                = (Ok ex, w))
    by (unfold ex; destruct (stat (root w) (cwd w) head); reflexivity).
  rewrite Hex in Hrun. clear Hex.
  destruct (negb (head =? "") && negb (tail =? "") && negb ex).
  - unfold bind in Hrun.
    destruct (try_except (makedirs_rec fuel head) is_FileExistsError (ret tt) w)
      as [[[]|e] w'] eqn:Et; [|discriminate Hrun].
    destruct (String.eqb_spec tail ".") as [->|_]; [congruence|].
    exact (proj2 (os_mkdir_ok _ _ _ Hrun)).
  - exact (proj2 (os_mkdir_ok _ _ _ Hrun)).
Qed.

Lemma os_makedirs_ok name w w1 :
  os_makedirs name w = (Ok tt, w1) ->
  makedirs_tail name <> "." ->
  cwd w1 = cwd w /\ stat (root w1) (cwd w1) name = inr (Dir []).
Proof.
  unfold os_makedirs, bind, log. intros Hrun Htail.
  exact (makedirs_rec_ok _ _ _ _ Hrun Htail).
Qed.

(** *** What [os.path.split] makes of a path *)

Lemma all_sep_app a b : all_sep (a ++ b) = all_sep a && all_sep b.
Proof. unfold all_sep. now rewrite list_ascii_app, forallb_app. Qed.

Lemma has_sep_of_list l :
  forallb (fun c => negb (is_sep c)) l = true ->
  has_sep (string_of_list_ascii l) = false.
Proof.
  unfold has_sep. rewrite list_ascii_of_string_of_list_ascii.
  induction l as [|x l IH]; [reflexivity|]. cbn [forallb existsb].
  intros H. apply andb_true_iff in H as [Hx Hl].
  apply negb_true_iff in Hx. now rewrite Hx, IH.
Qed.

Lemma rstrip_sep_app_sep h : rstrip_sep (h ++ String sep "") = rstrip_sep h.
Proof.
  unfold rstrip_sep. rewrite list_ascii_app. cbn [list_ascii_of_string].
  rewrite rev_app_distr. cbn [rev app dropwhile]. now rewrite is_sep_sep.
Qed.

Lemma all_sep_seps m : all_sep (string_of_list_ascii (repeat sep m)) = true.
Proof.
  unfold all_sep. rewrite list_ascii_of_string_of_list_ascii.
  induction m as [|m IH]; [reflexivity|]. cbn [repeat forallb].
  now rewrite is_sep_sep, IH.
Qed.

Lemma rstrip_sep_spec s :
  exists m, s = rstrip_sep s ++ string_of_list_ascii (repeat sep m).
Proof.
  unfold rstrip_sep.
  pose proof (takewhile_dropwhile_app is_sep (rev (list_ascii_of_string s)))
    as H.
  pose proof (takewhile_forallb is_sep (rev (list_ascii_of_string s))) as Ht.
  set (tw := takewhile is_sep (rev (list_ascii_of_string s))) in *.
  set (dw := dropwhile is_sep (rev (list_ascii_of_string s))) in *.
  assert (Htw : tw = repeat sep (List.length tw)).
  { clear H. induction tw as [|x l IH]; [reflexivity|].
    cbn [forallb] in Ht. apply andb_true_iff in Ht as [Hx Hl].
    unfold is_sep in Hx. apply Ascii.eqb_eq in Hx. subst x.
    cbn. now rewrite <- IH. }
  exists (List.length tw).
  assert (Hrev : rev tw = repeat sep (List.length tw))
    by (rewrite Htw at 1; apply rev_repeat).
  rewrite <- string_of_list_app, <- Hrev, <- rev_app_distr, <- H.
  now rewrite rev_involutive, string_of_list_ascii_of_string.
Qed.

Lemma rstrip_sep_not_empty s :
  all_sep s = false -> (rstrip_sep s =? "") = false.
Proof.
  intros Ha. destruct (rstrip_sep_spec s) as (m & Hm).
  destruct (rstrip_sep s) as [|c r]; [|reflexivity].
  cbn [append] in Hm. rewrite Hm, all_sep_seps in Ha. discriminate Ha.
Qed.

Lemma split_sep_seps s m :
  split_sep (s ++ string_of_list_ascii (repeat sep m))
  = (split_sep s ++ repeat "" m)%list.
Proof.
  revert s. induction m as [|m IH]; intros s.
  - cbn [repeat string_of_list_ascii]. now rewrite append_nil_r, app_nil_r.
  - cbn [repeat string_of_list_ascii].
    change (s ++ String sep (string_of_list_ascii (repeat sep m)))
      with (s ++ (String sep "" ++ string_of_list_ascii (repeat sep m))).
    rewrite <- append_assoc, IH, split_sep_app_sep.
    cbn [split_sep]. rewrite <- app_assoc. reflexivity.
Qed.

Lemma os_path_split_trailing h : snd (os_path_split (h ++ String sep "")) = "".
Proof.
  unfold os_path_split. cbn [snd]. rewrite list_ascii_app.
  cbn [list_ascii_of_string]. rewrite rev_app_distr. cbn [rev app takewhile].
  now rewrite is_sep_sep.
Qed.

(** The tail has no separator; the path is the tail alone, or a path, a
    separator and the tail, and the head is that path without the
    separators at its end, unless it has nothing else. *)
Lemma os_path_split_cases p :
  has_sep (snd (os_path_split p)) = false
  /\ ((p = snd (os_path_split p) /\ fst (os_path_split p) = "")
      \/ exists h1,
           p = h1 ++ String sep (snd (os_path_split p))
           /\ fst (os_path_split p)
              = if all_sep h1 then h1 ++ String sep "" else rstrip_sep h1).
Proof.
  unfold os_path_split. cbn [fst snd].
  set (f := fun c => negb (is_sep c)).
  set (r := rev (list_ascii_of_string p)).
  pose proof (takewhile_dropwhile_app f r) as Hr.
  pose proof (takewhile_forallb f r) as Ht.
  set (tw := takewhile f r) in *. set (dw := dropwhile f r) in *.
  assert (Hp : p = string_of_list_ascii (rev dw)
                   ++ string_of_list_ascii (rev tw)).
  { rewrite <- string_of_list_app, <- rev_app_distr, <- Hr. unfold r.
    now rewrite rev_involutive, string_of_list_ascii_of_string. }
  split.
  { apply has_sep_of_list. unfold f in Ht. now rewrite forallb_rev. }
  destruct dw as [|x rest] eqn:Edw.
  - left. cbn [rev string_of_list_ascii] in *. split; [exact Hp|reflexivity].
  - right. pose proof (dropwhile_head f r x rest Edw) as Hx.
    unfold f in Hx. apply negb_false_iff in Hx. unfold is_sep in Hx.
    apply Ascii.eqb_eq in Hx. subst x.
    exists (string_of_list_ascii (rev rest)).
    cbn [rev] in *. rewrite string_of_list_app in *.
    cbn [string_of_list_ascii] in *.
    split.
    + rewrite Hp at 1. now rewrite append_assoc.
    + set (h1 := string_of_list_ascii (rev rest)).
      assert (Hne : (h1 ++ String sep "" =? "") = false)
        by (destruct h1; reflexivity).
      rewrite Hne, all_sep_app. cbn [negb andb].
      change (all_sep (String sep "")) with true. rewrite andb_true_r.
      destruct (all_sep h1); cbn [negb]; [reflexivity|].
      apply rstrip_sep_app_sep.
Qed.

Lemma length_seps m :
  String.length (string_of_list_ascii (repeat sep m)) = m.
Proof. now rewrite length_string_of_list, repeat_length. Qed.

Lemma os_path_split_components body head tail :
  os_path_split body = (head, tail) -> (tail =? "") = false ->
  (body =? "") = false
  /\ String.length head < String.length body
  /\ exists front,
       split_sep body = (front ++ [tail])%list
       /\ (head = "" -> front = [] /\ prefix "/" body = false)
       /\ ((head =? "") = false ->
           prefix "/" body = prefix "/" head
           /\ forall r cur Q es,
                resolve_from r cur (split_sep head) = inr Q ->
                lookup r Q = Some (Dir es) ->
                resolve_from r cur front = inr Q).
Proof.
  intros E Ht. pose proof (os_path_split_cases body) as [Hs Hc].
  rewrite E in Hs, Hc. cbn [fst snd] in Hs, Hc.
  assert (Hlt : (0 < String.length tail)%nat)
    by (destruct tail; [discriminate|cbn; lia]).
  destruct Hc as [[Hb Hh]|(h1 & Hb & Hh)].
  - subst head. rewrite Hb. split; [exact Ht|].
    split; [cbn; lia|]. exists [].
    split; [now apply split_sep_no_sep|]. split.
    + intros _. split; [reflexivity|now apply prefix_sep_no_sep].
    + discriminate.
  - assert (Hbe : (body =? "") = false)
      by (rewrite Hb; destruct h1; reflexivity).
    split; [exact Hbe|].
    assert (Hsp : split_sep body = (split_sep h1 ++ [tail])%list)
      by (rewrite Hb, split_sep_app_sep; now rewrite (split_sep_no_sep _ Hs)).
    destruct (all_sep h1) eqn:Ha.
    + (* the head is made of separators only *)
      subst head. split.
      { rewrite Hb, !length_append. cbn [String.length]. lia. }
      exists (split_sep h1). split; [exact Hsp|]. split.
      * intros H. destruct h1; discriminate H.
      * intros _. split.
        -- rewrite Hb. apply prefix_sep_app_sep.
        -- intros r cur Q es Hr HQ.
           rewrite split_sep_app_sep, resolve_from_app in Hr.
           destruct (resolve_from r cur (split_sep h1)) as [e|Q'];
             [discriminate Hr|].
           cbn [split_sep resolve_from] in Hr.
           destruct (lookup r Q') as [[|es']|]; try discriminate Hr.
           injection Hr as Hr. change (step Q' "") with Q' in Hr.
           now subst Q'.
    + (* the head is the path before the separators *)
      destruct (rstrip_sep_spec h1) as (m & Hm). rewrite <- Hh in Hm.
      pose proof (rstrip_sep_not_empty _ Ha) as Hhe. rewrite <- Hh in Hhe.
      split.
      { rewrite Hb, Hm, !length_append. cbn [String.length]. lia. }
      exists (split_sep head ++ repeat "" m)%list. split.
      { rewrite Hsp. f_equal. rewrite Hm at 1. apply split_sep_seps. }
      split.
      * intros H. rewrite H in Hhe. discriminate Hhe.
      * intros _. split.
        -- rewrite Hb, Hm, append_assoc. now apply prefix_sep_app.
        -- intros r cur Q es Hr HQ. rewrite resolve_from_app, Hr.
           now apply (resolve_from_empties _ _ _ es).
Qed.

(** The components of a path [os.makedirs] is given, from the head and
    the tail it computes. *)
Lemma makedirs_split_components name head tail :
  makedirs_split name = (head, tail) -> (tail =? "") = false ->
  has_sep tail = false
  /\ (name =? "") = false
  /\ String.length head < String.length name
  /\ exists front k,
       split_sep name = (front ++ [tail] ++ repeat "" k)%list
       /\ (head = "" -> front = [] /\ prefix "/" name = false)
       /\ ((head =? "") = false ->
           prefix "/" name = prefix "/" head
           /\ forall r cur Q es,
                resolve_from r cur (split_sep head) = inr Q ->
                lookup r Q = Some (Dir es) ->
                resolve_from r cur front = inr Q).
Proof.
  unfold makedirs_split. intros E Ht.
  destruct (os_path_split name) as [ha ta] eqn:E1.
  destruct (ta =? "") eqn:Hta.
  - (* separators at the end *)
    apply String.eqb_eq in Hta. subst ta.
    pose proof (os_path_split_cases name) as [_ Hc].
    rewrite E1 in Hc. cbn [fst snd] in Hc.
    pose proof (os_path_split_cases ha) as [Hs _].
    rewrite E in Hs. cbn [snd] in Hs. split; [exact Hs|].
    destruct Hc as [[Hn Hh]|(h1 & Hn & Hh)].
    { subst ha. rewrite Hn in *. vm_compute in E.
      injection E as <- <-. discriminate Ht. }
    destruct (all_sep h1) eqn:Ha.
    { subst ha. pose proof (os_path_split_trailing h1) as Htr.
      rewrite E in Htr. cbn [snd] in Htr. subst tail. discriminate Ht. }
    destruct (rstrip_sep_spec h1) as (m & Hm). rewrite <- Hh in Hm.
    pose proof (rstrip_sep_not_empty _ Ha) as Hhe. rewrite <- Hh in Hhe.
    destruct (os_path_split_components _ _ _ E Ht)
      as (_ & Hlen & front & Hsp & H0 & H1).
    assert (Hname : name = ha ++ string_of_list_ascii (repeat sep (S m))).
    { rewrite Hn, Hm at 1. rewrite append_assoc. f_equal.
      change (String sep "") with (string_of_list_ascii (repeat sep 1)).
      rewrite <- string_of_list_app, <- repeat_app.
      do 2 f_equal. lia. }
    split; [rewrite Hname; now apply app_not_empty|].
    split; [rewrite Hname, length_append, length_seps; lia|].
    exists front, (S m). split.
    { rewrite Hname at 1. rewrite split_sep_seps, Hsp.
      now rewrite <- app_assoc. }
    assert (Hpre : prefix "/" name = prefix "/" ha)
      by (rewrite Hname; now apply prefix_sep_app).
    split.
    + intros H. destruct (H0 H) as [-> Hp]. split; [reflexivity|congruence].
    + intros H. destruct (H1 H) as [Hp Hr]. split; [congruence|exact Hr].
  - injection E as <- <-.
    pose proof (os_path_split_cases name) as [Hs _].
    rewrite E1 in Hs. cbn [snd] in Hs. split; [exact Hs|].
    destruct (os_path_split_components _ _ _ E1 Ht)
      as (Hne & Hlen & front & Hsp & H0 & H1).
    split; [exact Hne|]. split; [exact Hlen|].
    exists front, 0. cbn [repeat]. now rewrite app_nil_r.
Qed.

(** *** Destinations that are sure to be created *)

Lemma is_name_not_empty' c : is_name c = true -> (c =? "") = false.
Proof.
  unfold is_name. intros H. apply negb_true_iff in H.
  apply orb_false_iff in H as [H _]. now apply orb_false_iff in H as [H _].
Qed.

(** [os.mkdir] of a path whose tail is a free name in the directory its
    head names. *)
Lemma os_mkdir_at name head tail w Q es :
  makedirs_split name = (head, tail) ->
  proper_name tail = true ->
  (if head =? "" then inr (cwd w) else resolve (root w) (cwd w) head)
  = inr Q ->
  lookup (root w) Q = Some (Dir es) ->
  assoc tail es = None ->
  exists w1, os_mkdir name w = (Ok tt, w1).
Proof.
  intros E Hp Hres HQ Hfree. destruct (proper_name_inv _ Hp) as [Hn _].
  pose proof (is_name_not_empty' _ Hn) as Ht.
  destruct (makedirs_split_components _ _ _ E Ht)
    as (_ & Hne & _ & front & k & Hsp & H0 & H1).
  unfold os_mkdir, create_target. rewrite Hne, Hsp.
  rewrite (strip_trailing_empty_app _ _ _ Ht).
  assert (Hm : forall (a b : errno + list string),
            match (front ++ [tail])%list with [] => a | _ :: _ => b end = b)
    by (intros; destruct front; reflexivity).
  rewrite Hm, removelast_last, last_last.
  assert (Hrf : resolve_from (root w) (start_of (cwd w) name) front = inr Q).
  { unfold start_of. destruct (head =? "") eqn:Hh.
    - apply String.eqb_eq in Hh. destruct (H0 Hh) as [-> Hpre].
      rewrite Hpre. cbn [resolve_from]. exact Hres.
    - destruct (H1 eq_refl) as [Hpre Hr]. rewrite Hpre.
      unfold resolve in Hres. rewrite Hh in Hres.
      exact (Hr _ _ _ _ Hres HQ). }
  rewrite Hrf, HQ, Hn, lookup_app, HQ. cbn [lookup]. rewrite Hfree.
  eexists. reflexivity.
Qed.

(** A path that ends in the component "." names what its head names. *)
Lemma stat_dot r cwd name head es :
  makedirs_split name = (head, ".") -> (head =? "") = false ->
  stat r cwd head = inr (Dir es) ->
  stat r cwd name = inr (Dir es).
Proof.
  intros E Hh Hs.
  destruct (makedirs_split_components _ _ _ E eq_refl)
    as (_ & Hne & _ & front & k & Hsp & _ & H1).
  destruct (H1 Hh) as [Hpre Hr].
  unfold stat, resolve in *. rewrite Hh in Hs. rewrite Hne, Hsp.
  unfold start_of in *. rewrite Hpre.
  destruct (resolve_from r (if prefix "/" head then [] else cwd)
              (split_sep head)) as [e|Q] eqn:Hres; [discriminate Hs|].
  destruct (lookup r Q) as [n|] eqn:HQ; [|discriminate Hs].
  injection Hs as ->.
  rewrite resolve_from_app, (Hr _ _ _ _ Hres HQ).
  cbn [app resolve_from]. rewrite HQ.
  change (step Q ".") with Q.
  now rewrite (resolve_from_empties _ _ _ _ HQ), HQ.
Qed.

Lemma makedirs_rec_makeable w name :
  makeable (root w) (cwd w) name ->
  forall fuel,
    String.length name < fuel ->
    exists w1,
      makedirs_rec fuel name w = (Ok tt, w1)
      /\ cwd w1 = cwd w
      /\ stat (root w1) (cwd w1) name = inr (Dir []).
Proof.
  induction 1 as [name tail es E Hp Hcwd Hfree
                 |name head tail es E Hh Hp Hs Hfree
                 |name head tail e E Hh Ht Hs Hable IH];
    intros fuel Hfuel; (destruct fuel as [|fuel]; [lia|]);
    rewrite makedirs_rec_S, E; unfold bind at 1, os_path_exists.
  - (* a name in the working directory *)
    change (stat (root w) (cwd w) "") with (@inl errno node ENOENT).
    cbn [eqb negb andb].
    destruct (os_mkdir_at name "" tail w (cwd w) es E Hp eq_refl Hcwd Hfree)
      as (w1 & Hmk).
    exists w1. split; [exact Hmk|]. now apply os_mkdir_ok.
  - (* a name in a directory that is there *)
    rewrite Hs. cbn [negb]. rewrite !andb_false_r.
    unfold stat in Hs.
    destruct (resolve (root w) (cwd w) head) as [e|Q] eqn:Hres;
      [discriminate Hs|].
    destruct (lookup (root w) Q) as [n|] eqn:HQ; [|discriminate Hs].
    injection Hs as ->.
    destruct (os_mkdir_at name head tail w Q es E Hp
                ltac:(now rewrite Hh) HQ Hfree) as (w1 & Hmk).
    exists w1. split; [exact Hmk|]. now apply os_mkdir_ok.
  - (* the head is missing: it is created first *)
    rewrite Hs, Hh.
    assert (Hte : (tail =? "") = false).
    { destruct Ht as [->|Hp]; [reflexivity|].
      destruct (proper_name_inv _ Hp) as [Hn _].
      now apply is_name_not_empty'. }
    rewrite Hte. cbn [negb andb].
    destruct (makedirs_split_components _ _ _ E Hte) as (_ & _ & Hlen & _).
    destruct (IH fuel ltac:(lia)) as (w1 & Hrec & Hcw & Hst).
    unfold bind, try_except. rewrite Hrec.
    destruct Ht as [->|Hp].
    + cbn [eqb Ascii.eqb Bool.eqb]. change ("." =? ".") with true. cbv iota.
      exists w1. split; [reflexivity|]. split; [exact Hcw|].
      exact (stat_dot _ _ _ _ _ E Hh Hst).
    + destruct (proper_name_inv _ Hp) as [Hn _].
      assert (Hdot : (tail =? ".") = false).
      { unfold is_name in Hn. apply negb_true_iff in Hn.
        apply orb_false_iff in Hn as [H _].
        now apply orb_false_iff in H as [_ H]. }
      rewrite Hdot. unfold stat in Hst.
      destruct (resolve (root w1) (cwd w1) head) as [e'|Q] eqn:Hres;
        [discriminate Hst|].
      destruct (lookup (root w1) Q) as [n|] eqn:HQ; [|discriminate Hst].
      injection Hst as ->.
      destruct (os_mkdir_at name head tail w1 Q [] E Hp
                  ltac:(now rewrite Hh) HQ eq_refl) as (w2 & Hmk).
      exists w2. split; [exact Hmk|].
      destruct (os_mkdir_ok _ _ _ Hmk) as [Hc2 Hst2].
      split; [congruence|exact Hst2].
Qed.

Lemma os_makedirs_makeable w name :
  makeable (root w) (cwd w) name ->
  exists w1,
    os_makedirs name w = (Ok tt, w1)
    /\ cwd w1 = cwd w
    /\ stat (root w1) (cwd w1) name = inr (Dir []).
Proof.
  intros H. unfold os_makedirs, bind, log.
  exact (makedirs_rec_makeable (add_call (EvMakedirs name) w) name H
           (S (String.length name)) ltac:(lia)).
Qed.

(** C7, as the code has it.  When the destination exists, [main]
    attempts no creation: it reaches the call of the archiving step with
    the world as it was.  When it does not exist,
    [os.makedirs(destination)] is the first call [main] makes, before any
    opening of an archive, and the tree [main] leaves is the one
    [os.makedirs] leaves.  The call may raise, and [main] then ends with
    its exception.
    Whenever the call returns, [main] goes on to the archiving step, and
    unless the last component of the destination is ".", the destination
    is a new, empty directory, and every path above it is a directory.
    The call is sure to return for a destination that is [makeable]. *)
Theorem C7_destination_created (args : Namespace) (w : world) :
  (forall n, stat (root w) (cwd w) (destination args) = inr n ->
             main args w = (Raise (NameError "zip_sources"), w))
  /\ (forall e,
        stat (root w) (cwd w) (destination args) = inl e ->
        snd (main args w) = snd (os_makedirs (destination args) w)
        /\ calls (snd (main args w))
           = (calls w ++ [EvMakedirs (destination args)])%list
        /\ (forall e' w1,
              os_makedirs (destination args) w = (Raise e', w1) ->
              main args w = (Raise e', w1))
        /\ (forall w1,
              os_makedirs (destination args) w = (Ok tt, w1) ->
              main args w = (Raise (NameError "zip_sources"), w1)
              /\ (makedirs_tail (destination args) <> "." ->
                  stat (root w1) (cwd w1) (destination args) = inr (Dir [])
                  /\ forall h,
                       ancestor_of h (destination args) ->
                       (h =? "") = false ->
                       exists es, stat (root w1) (cwd w1) h = inr (Dir es)))
        /\ (makeable (root w) (cwd w) (destination args) ->
            exists w1,
              os_makedirs (destination args) w = (Ok tt, w1)
              /\ main args w = (Raise (NameError "zip_sources"), w1)
              /\ stat (root w1) (cwd w1) (destination args) = inr (Dir [])
              /\ forall h,
                   ancestor_of h (destination args) -> (h =? "") = false ->
                   exists es, stat (root w1) (cwd w1) h = inr (Dir es))).
Proof.
  split.
  - intros n Hn. rewrite main_unfold. now rewrite Hn.
  - intros e He.
    assert (Hsnd : snd (main args w) = snd (os_makedirs (destination args) w)).
    { rewrite main_unfold, He.
      now destruct (os_makedirs (destination args) w) as [[[]|e'] w1]. }
    split; [exact Hsnd|]. split.
    { rewrite Hsnd. apply os_makedirs_calls. }
    split.
    { intros e' w1 Hmk. rewrite main_unfold, He, Hmk. reflexivity. }
    split.
    + intros w1 Hmk. split; [rewrite main_unfold, He, Hmk; reflexivity|].
      intros Htail. destruct (os_makedirs_ok _ _ _ Hmk Htail) as [_ Hst].
      split; [exact Hst|]. intros h Hanc Hh.
      exact (ancestors_are_dirs _ _ _ _ Hanc Hh _ Hst).
    + intros Hable.
      destruct (os_makedirs_makeable _ _ Hable) as (w1 & Hmk & _ & Hst).
      exists w1. split; [exact Hmk|].
      split; [rewrite main_unfold, He, Hmk; reflexivity|].
      split; [exact Hst|]. intros h Hanc Hh.
      exact (ancestors_are_dirs _ _ _ _ Hanc Hh _ Hst).
Qed.

Lemma C7_destination_created_witness :
  let to d := {| source := ["subdir"]; destination := d; name := None |} in
  stat (root demo_world) (cwd demo_world) "out" = inr (Dir [])
  /\ main (to "out") demo_world
     = (Raise (NameError "zip_sources"), demo_world)
  /\ stat (root demo_world) (cwd demo_world) "backups//jan/" = inl ENOENT
  /\ makeable (root demo_world) (cwd demo_world) "backups//jan/"
  /\ (exists w1,
        os_makedirs "backups//jan/" demo_world = (Ok tt, w1)
        /\ main (to "backups//jan/") demo_world
           = (Raise (NameError "zip_sources"), w1)
        /\ stat (root w1) (cwd w1) "backups//jan/" = inr (Dir [])
        /\ forall h,
             ancestor_of h "backups//jan/" -> (h =? "") = false ->
             exists es, stat (root w1) (cwd w1) h = inr (Dir es))
  /\ stat (root demo_world) (cwd demo_world) "x/../y" = inl ENOENT
  /\ fst (os_makedirs "x/../y" demo_world) = Ok tt
  /\ stat (root (snd (os_makedirs "x/../y" demo_world))) (cwd demo_world)
       "x/../y" = inr (Dir []).
Proof.
  intros to.
  assert (Hout : stat (root demo_world) (cwd demo_world) "out" = inr (Dir []))
    by reflexivity.
  assert (Hmiss : stat (root demo_world) (cwd demo_world) "backups//jan/"
                  = inl ENOENT) by (vm_compute; reflexivity).
  assert (Hable : makeable (root demo_world) (cwd demo_world)
                    "backups//jan/").
  { apply (makeable_under _ _ "backups//jan/" "backups" "jan" ENOENT).
    - vm_compute. reflexivity.
    - reflexivity.
    - right. vm_compute. reflexivity.
    - vm_compute. reflexivity.
    - apply (makeable_name _ _ "backups" "backups" demo_home).
      + vm_compute. reflexivity.
      + vm_compute. reflexivity.
      + reflexivity.
      + vm_compute. reflexivity. }
  assert (Hmiss2 : stat (root demo_world) (cwd demo_world) "x/../y"
                   = inl ENOENT) by (vm_compute; reflexivity).
  assert (Hok : os_makedirs "x/../y" demo_world
                = (Ok tt, snd (os_makedirs "x/../y" demo_world)))
    by (vm_compute; reflexivity).
  assert (Htail : makedirs_tail "x/../y" <> ".")
    by (vm_compute; discriminate).
  split; [exact Hout|]. split.
  { exact (proj1 (C7_destination_created (to "out") demo_world) _ Hout). }
  split; [exact Hmiss|]. split; [exact Hable|]. split.
  { exact (proj2 (proj2 (proj2 (proj2
             (proj2 (C7_destination_created (to "backups//jan/") demo_world)
                _ Hmiss)))) Hable). }
  split; [exact Hmiss2|]. split; [now rewrite Hok|].
  exact (proj1 (proj2 (proj1 (proj2 (proj2 (proj2
           (proj2 (C7_destination_created (to "x/../y") demo_world)
              _ Hmiss2)))) _ Hok) Htail)).
Defined.

(** C7, as stated, fails: the destination [a.txt/sub] does not exist,
    and [os.makedirs] cannot create it under the regular file [a.txt];
    [main] ends with [NotADirectoryError] and the tree is as it was.  The
    empty destination does not exist either, and [os.makedirs] raises
    [FileNotFoundError].  For [x/../a.txt/.] the call returns, after the
    [FileExistsError] of the path before the "." has been dropped, and
    the destination is still not a directory. *)
Lemma C7_missing_destination_is_not_created :
  let to d := {| source := ["subdir"]; destination := d; name := None |} in
  (os_path_exists "a.txt/sub" demo_world = (Ok false, demo_world)
   /\ exists w1,
        main (to "a.txt/sub") demo_world
        = (Raise (NotADirectoryError "a.txt/sub"), w1)
        /\ root w1 = root demo_world
        /\ stat (root w1) (cwd w1) "a.txt/sub" = inl ENOTDIR)
  /\ (os_path_exists "" demo_world = (Ok false, demo_world)
      /\ exists w1,
           main (to "") demo_world = (Raise (FileNotFoundError ""), w1)
           /\ root w1 = root demo_world)
  /\ (os_path_exists "x/../a.txt/." demo_world = (Ok false, demo_world)
      /\ exists w1,
           os_makedirs "x/../a.txt/." demo_world = (Ok tt, w1)
           /\ stat (root w1) (cwd w1) "x/../a.txt/." = inl ENOTDIR).
Proof.
  intros to. split; [|split].
  - split; [vm_compute; reflexivity|]. eexists.
    split; [vm_compute; reflexivity|]. split; vm_compute; reflexivity.
  - split; [vm_compute; reflexivity|]. eexists.
    split; vm_compute; reflexivity.
  - split; [vm_compute; reflexivity|]. eexists.
    split; vm_compute; reflexivity.
Qed.

(** * Further properties *)

(** ** Putting a leaf in the tree keeps the other files *)

Lemma lookup_leaf_below new k q :
  is_leaf new -> lookup new (k :: q) = None.
Proof. destruct new as [|[|e es]]; simpl; intros H; [auto|auto|contradiction]. Qed.

Lemma lookup_put_leaf r p new :
  forall q,
    is_leaf new -> not_dir_at r p -> q <> p ->
    forall b c,
      lookup (put r p new) q = Some (File b c)
      <-> lookup r q = Some (File b c).
Proof.
  revert r. induction p as [|a p IH]; intros r q Hleaf Hnd Hne b c.
  - unfold not_dir_at in Hnd. simpl in Hnd. destruct r as [b0 c0|es];
      [|contradiction].
    destruct q as [|k q]; [congruence|]. cbn [put].
    rewrite (lookup_leaf_below _ _ _ Hleaf). simpl. tauto.
  - destruct r as [b0 c0|es]; [cbn [put]; tauto|].
    cbn [put]. unfold not_dir_at in Hnd. cbn [lookup] in Hnd.
    destruct (assoc a es) as [ch|] eqn:Ea.
    + destruct q as [|k q]; [simpl; split; discriminate|].
      cbn [lookup].
      destruct (String.eqb_spec k a) as [->|Hk].
      * rewrite assoc_set_entry_same, Ea.
        apply IH; [exact Hleaf|exact Hnd|congruence].
      * now rewrite (assoc_set_entry_other a k _ es Hk).
    + destruct p as [|a' p]; [|tauto].
      destruct q as [|k q]; [simpl; split; discriminate|].
      cbn [lookup].
      destruct (String.eqb_spec k a) as [->|Hk].
      * rewrite assoc_set_entry_same, Ea.
        destruct q as [|k' q]; [congruence|].
        rewrite (lookup_leaf_below _ _ _ Hleaf). tauto.
      * now rewrite (assoc_set_entry_other a k _ es Hk).
Qed.

Lemma lookup_put_self r p new :
  lookup (put r p new) p = Some new \/ lookup (put r p new) p = lookup r p.
Proof.
  revert r. induction p as [|a p IH]; intros r; [left; reflexivity|].
  destruct r as [b c|es]; [right; reflexivity|]. cbn [put].
  destruct (assoc a es) as [ch|] eqn:Ea.
  - cbn [lookup]. rewrite assoc_set_entry_same, Ea. apply IH.
  - destruct p as [|a' p]; [|right; reflexivity].
    left. cbn [lookup]. now rewrite assoc_set_entry_same.
Qed.

Lemma files_kept_refl r : files_kept r r.
Proof. intros q b c. tauto. Qed.

Lemma files_kept_trans r1 r2 r3 :
  files_kept r1 r2 -> files_kept r2 r3 -> files_kept r1 r3.
Proof.
  intros H1 H2 q b c. split; intros H.
  - apply H1, H2, H.
  - apply H2, H1, H.
Qed.

Lemma files_kept_but_refl pos r : files_kept_but pos r r.
Proof. intros q _ b c. tauto. Qed.

Lemma files_kept_but_trans pos r1 r2 r3 :
  files_kept_but pos r1 r2 -> files_kept_but pos r2 r3 ->
  files_kept_but pos r1 r3.
Proof.
  intros H1 H2 q Hq b c. split; intros H.
  - apply (H1 q Hq), (H2 q Hq), H.
  - apply (H2 q Hq), (H1 q Hq), H.
Qed.

Lemma files_kept_mkdir r p :
  lookup r p = None -> files_kept r (put r p (Dir [])).
Proof.
  intros Hp q b c. destruct (list_eq_dec string_dec q p) as [->|Hne].
  - rewrite Hp. destruct (lookup_put_self r p (Dir [])) as [-> | ->];
      [|rewrite Hp]; split; discriminate.
  - apply lookup_put_leaf; [exact I| |exact Hne].
    unfold not_dir_at. now rewrite Hp.
Qed.

Lemma files_kept_but_put_file r pos b c :
  not_dir_at r pos -> files_kept_but pos r (put r pos (File b c)).
Proof.
  intros Hnd q Hq b' c'. now apply lookup_put_leaf.
Qed.

(** ** The walk reaches the files below a directory *)

Lemma walk_files_app t1 t2 :
  walk_files (t1 ++ t2) = (walk_files t1 ++ walk_files t2)%list.
Proof. unfold walk_files. apply flat_map_app. Qed.

Lemma walk_files_flat_map {A} (g : A -> list (string * list string * list string)) l :
  walk_files (flat_map g l) = flat_map (fun x => walk_files (g x)) l.
Proof.
  induction l as [|x l IH]; simpl; [reflexivity|].
  now rewrite walk_files_app, IH.
Qed.

Lemma walk_node_dir top es :
  walk_files (walk_node top (Dir es))
  = (map (os_path_join top)
       (map fst (filter (fun e => negb (is_dir_node (snd e))) es))
     ++ flat_map (fun e => walk_files (walk_node (os_path_join top (fst e))
                                         (snd e))) es)%list.
Proof.
  cbn [walk_node]. unfold walk_files at 1. cbn [flat_map].
  f_equal. apply walk_files_flat_map.
Qed.

Lemma walk_complete r cwd n :
  forall top P,
    wf_node n = true -> resolve r cwd top = inr P -> lookup r P = Some n ->
    forall q b c,
      lookup n q = Some (File b c) -> q <> [] ->
      exists fp, In fp (walk_files (walk_node top n))
                 /\ resolve r cwd fp = inr (P ++ q)%list.
Proof.
  induction n as [b0 c0|es IH] using node_ind';
    intros top P Hwf Hres HP q b c Hq Hne.
  - destruct q; [congruence|discriminate].
  - destruct q as [|k q]; [congruence|]. cbn [lookup] in Hq.
    destruct (assoc k es) as [ch|] eqn:Ea; [|discriminate].
    destruct (assoc_in _ _ _ Ea) as (k' & Hin & ->).
    destruct (wf_node_entry _ _ _ Hwf Hin) as (Hname & Hwfc & _).
    pose proof (resolve_join _ _ _ _ _ _ Hname Hres HP) as Hrj.
    rewrite walk_node_dir.
    destruct q as [|k2 q].
    + simpl in Hq. injection Hq as ->.
      exists (os_path_join top k). split; [|exact Hrj].
      apply in_or_app. left. apply in_map. apply in_map_iff.
      exists (k, File b c). split; [reflexivity|].
      apply filter_In. split; [exact Hin|reflexivity].
    + rewrite Forall_forall in IH.
      destruct (IH (k, ch) Hin (os_path_join top k) (P ++ [k])%list Hwfc Hrj
                  ltac:(rewrite lookup_app, HP; simpl; now rewrite Ea)
                  (k2 :: q) b c Hq ltac:(discriminate))
        as (fp & Hfp & Hr).
      exists fp. split.
      * apply in_or_app. right. apply in_flat_map. now exists (k, ch).
      * now rewrite <- app_assoc in Hr.
Qed.

(** ** Every walked path has a member name *)

Lemma walk_files_joins n :
  forall top,
    wf_node n = true -> (top =? "") = false ->
    forall fp, In fp (walk_files (walk_node top n)) ->
      exists rt name, fp = os_path_join rt name /\ (rt =? "") = false
                      /\ proper_name name = true.
Proof.
  induction n as [b c|es IH] using node_ind'; intros top Hwf Htop fp Hin.
  - simpl in Hin. contradiction.
  - rewrite walk_node_dir in Hin. apply in_app_or in Hin as [Hin|Hin].
    + apply in_map_iff in Hin. destruct Hin as (k & <- & Hk).
      apply in_map_iff in Hk. destruct Hk as ([k' v] & <- & Hf).
      apply filter_In in Hf as [Hf _].
      destruct (wf_node_entry _ _ _ Hwf Hf) as (Hname & _ & _).
      now exists top, k'.
    + apply in_flat_map in Hin. destruct Hin as ([k v] & Hkv & Hin).
      rewrite Forall_forall in IH.
      destruct (wf_node_entry _ _ _ Hwf Hkv) as (Hname & Hwfv & _).
      apply (IH (k, v) Hkv (os_path_join top k) Hwfv); [|exact Hin].
      now apply os_path_join_not_empty.
Qed.

Lemma all_sep_name c : proper_name c = true -> all_sep c = false.
Proof.
  intros Hc. destruct (proper_name_inv _ Hc) as [Hn Hs].
  destruct (is_name_not_empty _ Hn) as (ch & c' & ->).
  unfold has_sep in Hs. unfold all_sep. simpl in *.
  apply orb_false_iff in Hs as [-> _]. reflexivity.
Qed.

Lemma lstrip_sep_not_empty s : all_sep s = false -> lstrip_sep s <> "".
Proof.
  unfold all_sep. induction s as [|c s IH]; simpl; [discriminate|].
  unfold is_sep at 1. destruct (Ascii.eqb c sep); simpl; [exact IH|].
  discriminate.
Qed.

Lemma split_sep_join top name :
  (top =? "") = false -> proper_name name = true ->
  exists front, split_sep (os_path_join top name) = (front ++ [name])%list.
Proof.
  intros Ht Hname. destruct (proper_name_inv _ Hname) as [_ Hs].
  rewrite (os_path_join_name _ _ Ht Hs).
  destruct (ends_with_sep top) eqn:He.
  - destruct (ends_with_sep_inv _ He) as (t & ->).
    rewrite append_assoc.
    change (String sep "" ++ name) with (String sep name).
    rewrite split_sep_app_sep, (split_sep_no_sep _ Hs). eauto.
  - change ("/" ++ name) with (String sep name).
    rewrite split_sep_app_sep, (split_sep_no_sep _ Hs). eauto.
Qed.

Lemma normpath_step_name isl acc name :
  is_name name = true -> normpath_step isl acc name = name :: acc.
Proof.
  unfold is_name, normpath_step. intros Hn. apply negb_true_iff in Hn.
  apply orb_false_iff in Hn as [Hn Hdd]. apply orb_false_iff in Hn as [He Hd].
  now rewrite He, Hd, Hdd.
Qed.

Lemma concat_ends_with l name :
  exists pre, String.concat "/" (l ++ [name]) = pre ++ name.
Proof.
  destruct l as [|x l].
  - now exists "".
  - exists (String.concat "/" (x :: l) ++ "/").
    rewrite concat_snoc by discriminate. now rewrite append_assoc.
Qed.

(** [zipfile] finds a member name for the path of every directory
    entry. *)
Lemma arcname_of_join top name :
  (top =? "") = false -> proper_name name = true ->
  exists arc, arcname_of (os_path_join top name) = Some arc.
Proof.
  intros Ht Hname.
  destruct (split_sep_join _ _ Ht Hname) as (front & Hsp).
  destruct (proper_name_inv _ Hname) as [Hn _].
  unfold arcname_of, normpath.
  rewrite (os_path_join_not_empty _ name Ht), Hsp, fold_left_app.
  cbn [fold_left]. rewrite (normpath_step_name _ _ _ Hn). cbn [rev].
  match goal with
  | |- context [String.concat "/" (?l ++ [name])] =>
      destruct (concat_ends_with l name) as (pre & ->)
  end.
  match goal with
  | |- context [String.concat "" ?sl ++ (pre ++ name)] =>
      set (s := String.concat "" sl ++ (pre ++ name))
  end.
  assert (Hs : all_sep s = false).
  { unfold s. rewrite !all_sep_app, (all_sep_name _ Hname).
    now rewrite !andb_false_r. }
  assert (Hres : all_sep (if s =? "" then "." else s) = false).
  { destruct (s =? ""); [reflexivity|exact Hs]. }
  pose proof (lstrip_sep_not_empty _ Hres) as Hne.
  destruct (lstrip_sep (if s =? "" then "." else s)); [congruence|eauto].
Qed.

Lemma walked_paths_arcname r cwd source fp :
  wf_node r = true -> In fp (walked_paths r cwd source) ->
  exists arc, arcname_of fp = Some arc.
Proof.
  intros Hwf. unfold walked_paths.
  destruct (stat r cwd source) as [e|n] eqn:Hs; [contradiction|].
  intros Hin.
  assert (Hsrc : (source =? "") = false).
  { destruct source; [discriminate|reflexivity]. }
  unfold stat in Hs.
  destruct (resolve r cwd source) as [e|P]; [discriminate|].
  destruct (lookup r P) as [n'|] eqn:HP; [|discriminate].
  injection Hs as ->.
  destruct (walk_files_joins n source (wf_node_lookup _ _ _ Hwf HP) Hsrc
              fp Hin) as (rt & name & -> & Hrt & Hname).
  now apply arcname_of_join.
Qed.

(** ** Writing files that can be read, and one that cannot *)

Lemma ZipFile_ok_state p w h w0 :
  ZipFile p w = (Ok h, w0) ->
  exists pos,
    open_target (root w) (cwd w) p = inr pos
    /\ h = List.length (zips w)
    /\ archive_state h pos [] w0
    /\ cwd w0 = cwd w
    /\ root w0 = put (root w) pos (File true (ZipData false [])).
Proof.
  intros Ho. pose proof (ZipFile_cases p w) as Hc.
  destruct (open_target (root w) (cwd w) p) as [e|pos] eqn:Eo;
    [rewrite Ho in Hc; discriminate|].
  destruct Hc as (w0' & Ho' & Hst & Hcwd & Hroot & _).
  rewrite Ho in Ho'. injection Ho' as -> <-. now exists pos.
Qed.

Lemma writing_start p w h w0 pos :
  ZipFile p w = (Ok h, w0) -> open_target (root w) (cwd w) p = inr pos ->
  writing h pos (root w0) (cwd w0) [] w0
  /\ lookup (root w0) pos = Some (File true (ZipData false [])).
Proof.
  intros Ho Eo. destruct (ZipFile_ok_state _ _ _ _ Ho)
    as (pos' & Eo' & _ & Hst & _).
  rewrite Eo in Eo'. injection Eo' as <-.
  split; [|exact (proj2 Hst)].
  split; [exact Hst|]. split; [reflexivity|]. split; [reflexivity|].
  apply files_kept_but_refl.
Qed.

(** Between the opening and the closing, a path names a file with the
    permission it had at the opening, and, the archive apart, with the
    data it had. *)
Lemma stat_flag_stable h pos r0 cwd0 ms w c0 fp b c :
  writing h pos r0 cwd0 ms w ->
  lookup r0 pos = Some (File true c0) ->
  stat r0 cwd0 fp = inr (File b c) ->
  exists c', stat (root w) (cwd w) fp = inr (File b c')
             /\ (resolve r0 cwd0 fp = inr pos \/ c' = c).
Proof.
  intros ([Hz Hl] & Hsh & Hcwd & Hkept) H0 Hs. unfold stat in *.
  rewrite (resolve_shape _ _ (cwd w) fp Hsh), Hcwd.
  destruct (resolve r0 cwd0 fp) as [e|P]; [discriminate|].
  destruct (lookup r0 P) as [n|] eqn:HP; [|discriminate].
  injection Hs as ->.
  destruct (list_eq_dec string_dec P pos) as [->|Hne].
  - rewrite H0 in HP. injection HP as <- _. rewrite Hl. eauto.
  - apply (Hkept P Hne) in HP. rewrite HP. eauto.
Qed.

Lemma write_readable h pos r0 cwd0 ms w fp data arc :
  writing h pos r0 cwd0 ms w ->
  stat (root w) (cwd w) fp = inr (File true data) ->
  arcname_of fp = Some arc ->
  exists w',
    ZipFile_write h fp w = (Ok tt, w')
    /\ writing h pos r0 cwd0 (ms ++ [(arc, data)]) w'.
Proof.
  intros ([Hz Hl] & Hsh & Hcwd & Hkept) Hs Ha.
  unfold ZipFile_write, bind, log. cbn [root cwd zips add_call].
  rewrite Hz. cbn [zclosed]. rewrite Hs, Ha.
  eexists. split; [reflexivity|]. cbn.
  assert (Hnd : not_dir_at (root w) pos)
    by (unfold not_dir_at; now rewrite Hl).
  split; [split|split; [|split]].
  - eapply nth_error_set_nth; eauto.
  - eapply lookup_put_file; eauto.
  - rewrite <- Hsh. eapply shape_put_file; eauto.
  - exact Hcwd.
  - eapply files_kept_but_trans; [exact Hkept|].
    now apply files_kept_but_put_file.
Qed.

Lemma write_denied h pos ms w fp data arc :
  archive_state h pos ms w ->
  stat (root w) (cwd w) fp = inr (File false data) ->
  arcname_of fp = Some arc ->
  ZipFile_write h fp w
  = (Raise (PermissionError fp), add_call (EvZipWrite fp) w).
Proof.
  intros [Hz Hl] Hs Ha.
  unfold ZipFile_write, bind, log. cbn [root cwd zips add_call].
  rewrite Hz. cbn [zclosed]. now rewrite Hs, Ha.
Qed.

(** Files that can be read are all written, each under its member name
    and, the archive apart, with its data. *)
Lemma writes_readable h pos r0 cwd0 c0 paths :
  lookup r0 pos = Some (File true c0) ->
  (forall fp, In fp paths ->
     (exists c, stat r0 cwd0 fp = inr (File true c))
     /\ exists arc, arcname_of fp = Some arc) ->
  forall ms w,
    writing h pos r0 cwd0 ms w ->
    exists w' ms',
      for_each paths (ZipFile_write h) w = (Ok tt, w')
      /\ writing h pos r0 cwd0 (ms ++ ms') w'
      /\ Forall2 (fun fp m =>
                    arcname_of fp = Some (fst m)
                    /\ (resolve r0 cwd0 fp = inr pos
                        \/ stat r0 cwd0 fp = inr (File true (snd m))))
           paths ms'.
Proof.
  intros H0. induction paths as [|fp paths IH]; intros Hall ms w Hw.
  - exists w, []. rewrite app_nil_r. auto.
  - destruct (Hall fp (or_introl eq_refl)) as ((c & Hs) & arc & Ha).
    destruct (stat_flag_stable _ _ _ _ _ _ _ _ _ _ Hw H0 Hs)
      as (c' & Hs' & Hc').
    destruct (write_readable _ _ _ _ _ _ _ _ _ Hw Hs' Ha) as (w1 & Hw1 & Hi1).
    destruct (IH (fun x Hx => Hall x (or_intror Hx)) _ _ Hi1)
      as (w' & ms' & Hrun & Hi' & Hcopies).
    exists w', ((arc, c') :: ms'). cbn [for_each].
    rewrite (bind_ok _ _ _ _ _ Hw1), Hrun. rewrite <- app_assoc in Hi'.
    split; [reflexivity|]. split; [exact Hi'|].
    constructor; [|exact Hcopies]. cbn [fst snd]. split; [exact Ha|].
    destruct Hc' as [Hc'| ->]; [now left|now right].
Qed.

Lemma ZipFile_ok_resolve p w h w0 pos :
  ZipFile p w = (Ok h, w0) ->
  open_target (root w) (cwd w) p = inr pos ->
  resolve (root w0) (cwd w0) p = inr pos.
Proof.
  intros Ho Eo.
  destruct (ZipFile_ok_state _ _ _ _ Ho) as (pos' & Eo' & _ & _ & Hcwd & Hroot).
  rewrite Eo in Eo'. injection Eo' as <-.
  destruct (open_target_resolve _ _ _ _ Eo) as (Hres & Hnd & Hne & _).
  unfold resolve in *. rewrite Hcwd, Hroot.
  destruct (p =? ""); [discriminate|].
  exact (resolve_from_put _ _ _ _ _ _ Hne Hnd Hres).
Qed.

Lemma create_zip_file_readable p sources w h w0 pos :
  wf_node (root w) = true ->
  ZipFile p w = (Ok h, w0) ->
  open_target (root w) (cwd w) p = inr pos ->
  (forall fp,
     In fp (flat_map (walked_paths (root w0) (cwd w0)) sources) ->
     exists c, stat (root w0) (cwd w0) fp = inr (File true c)) ->
  exists w' ms,
    create_zip_file p sources w = (Ok tt, w')
    /\ closed_and_finalized h w'
    /\ members_of h w' = ms
    /\ lookup (root w') pos = Some (File true (ZipData true ms))
    /\ stat (root w') (cwd w') p = inr (File true (ZipData true ms))
    /\ Forall2 (copy_of (root w0) (cwd w0) p)
         (flat_map (walked_paths (root w0) (cwd w0)) sources) ms.
Proof.
  intros Hwf Ho Eo Hread.
  destruct (writing_start _ _ _ _ _ Ho Eo) as (Hw0 & Hl0).
  pose proof (ZipFile_keeps_wf _ _ _ _ Hwf Ho) as Hwf0.
  pose proof (ZipFile_ok_resolve _ _ _ _ _ Ho Eo) as Hres.
  set (paths := flat_map (walked_paths (root w0) (cwd w0)) sources) in *.
  destruct (writes_readable h pos (root w0) (cwd w0) _ paths Hl0) with
    (ms := @nil (string * content)) (w := w0) as (w1 & ms & Hrun & Hw1 & Hcp).
  { intros fp Hin. split; [now apply Hread|].
    apply in_flat_map in Hin. destruct Hin as (s & _ & Hin).
    eapply walked_paths_arcname; eauto. }
  { exact Hw0. }
  pose proof (create_zip_file_cases p sources w) as Hc.
  rewrite Ho in Hc. cbv zeta in Hc. fold paths in Hc. rewrite Hrun in Hc.
  destruct Hc as (w2 & Hc & Hcl & Hfin & _ & Hstat & _).
  destruct Hw1 as (Hst1 & _).
  destruct (ZipFile_close_spec _ _ _ _ Hst1)
    as (w2' & Hcl' & _ & Hms & Hl2 & _).
  rewrite Hcl in Hcl'. injection Hcl' as <-. cbn [app] in Hms, Hl2.
  exists w2, ms. split; [exact Hc|]. split; [exact Hfin|].
  split; [exact Hms|]. split; [exact Hl2|].
  split; [now rewrite <- Hms|].
  eapply Forall2_impl; [|exact Hcp].
  intros fp m [Ha Hd]. split; [exact Ha|]. rewrite Hres. exact Hd.
Qed.

Lemma first_unreadable r cwd paths :
  (forall fp, In fp paths -> exists b c, stat r cwd fp = inr (File b c)) ->
  (forall fp, In fp paths -> exists c, stat r cwd fp = inr (File true c))
  \/ exists before denied after c,
       paths = (before ++ denied :: after)%list
       /\ (forall fp, In fp before ->
             exists c', stat r cwd fp = inr (File true c'))
       /\ stat r cwd denied = inr (File false c).
Proof.
  induction paths as [|fp paths IH]; intros Hall.
  - left. intros fp [].
  - destruct (Hall fp (or_introl eq_refl)) as ([|] & c & Hs).
    + destruct (IH (fun x Hx => Hall x (or_intror Hx)))
        as [Hr|(before & denied & after & c' & -> & Hb & Hd)].
      * left. intros x [<-|Hx]; [eauto|now apply Hr].
      * right. exists (fp :: before), denied, after, c'.
        split; [reflexivity|]. split; [|exact Hd].
        intros x [<-|Hx]; [eauto|now apply Hb].
    + right. exists [], fp, paths, c. split; [reflexivity|].
      split; [intros x []|exact Hs].
Qed.

Lemma create_zip_file_unreadable p sources w h w0 pos before after denied
    data :
  wf_node (root w) = true ->
  ZipFile p w = (Ok h, w0) ->
  open_target (root w) (cwd w) p = inr pos ->
  flat_map (walked_paths (root w0) (cwd w0)) sources
  = (before ++ denied :: after)%list ->
  (forall fp, In fp before ->
     exists c, stat (root w0) (cwd w0) fp = inr (File true c)) ->
  stat (root w0) (cwd w0) denied = inr (File false data) ->
  exists w1,
    create_zip_file p sources w = (Raise (PermissionError denied), w1)
    /\ left_open h w1
    /\ Forall2 (copy_of (root w0) (cwd w0) p) before (members_of h w1)
    /\ stdout w1 = stdout w.
Proof.
  intros Hwf Ho Eo Hpaths Hread Hden.
  destruct (writing_start _ _ _ _ _ Ho Eo) as (Hw0 & Hl0).
  pose proof (ZipFile_keeps_wf _ _ _ _ Hwf Ho) as Hwf0.
  pose proof (ZipFile_ok_resolve _ _ _ _ _ Ho Eo) as Hres.
  assert (Harc : forall fp, In fp (before ++ denied :: after) ->
                   exists arc, arcname_of fp = Some arc).
  { intros fp Hin. rewrite <- Hpaths in Hin.
    apply in_flat_map in Hin. destruct Hin as (s & _ & Hin).
    eapply walked_paths_arcname; eauto. }
  destruct (writes_readable h pos (root w0) (cwd w0) _ before Hl0) with
    (ms := @nil (string * content)) (w := w0) as (w1 & ms & Hrun & Hw1 & Hcp).
  { intros fp Hin. split; [now apply Hread|].
    apply Harc. apply in_or_app. now left. }
  { exact Hw0. }
  destruct (stat_flag_stable _ _ _ _ _ _ _ _ _ _ Hw1 Hl0 Hden)
    as (c' & Hs1 & _).
  destruct (Harc denied ltac:(apply in_or_app; right; left; reflexivity))
    as (arc & Ha).
  pose proof (write_denied _ _ _ _ _ _ _ (proj1 Hw1) Hs1 Ha) as Hwr.
  pose proof (create_zip_file_cases p sources w) as Hc.
  rewrite Ho in Hc. cbv zeta in Hc. rewrite Hpaths, for_each_app, Hrun in Hc.
  cbn [for_each] in Hc. rewrite (bind_raise _ _ _ _ _ Hwr) in Hc.
  destruct Hc as [Hc Hopen].
  eexists. split; [exact Hc|]. split; [exact Hopen|]. split.
  - destruct Hw1 as ([Hz Hl] & _). unfold members_of. cbn [zips add_call].
    rewrite Hz. cbn [zmembers app].
    eapply Forall2_impl; [|exact Hcp].
    intros fp m [Hn Hd]. split; [exact Hn|]. rewrite Hres. exact Hd.
  - pose proof (stdout_create_zip_file p sources w) as Hout.
    now rewrite Hc in Hout.
Qed.

(** A run that returns has read every file the walks discovered. *)
Lemma create_zip_file_ok_readable p sources w h w0 w' :
  wf_node (root w) = true ->
  ZipFile p w = (Ok h, w0) ->
  create_zip_file p sources w = (Ok tt, w') ->
  forall fp,
    In fp (flat_map (walked_paths (root w0) (cwd w0)) sources) ->
    exists c, stat (root w0) (cwd w0) fp = inr (File true c).
Proof.
  intros Hwf Ho Hrun.
  destruct (ZipFile_ok_state _ _ _ _ Ho) as (pos & Eo & _).
  pose proof (ZipFile_keeps_wf _ _ _ _ Hwf Ho) as Hwf0.
  assert (Hfiles : forall fp,
            In fp (flat_map (walked_paths (root w0) (cwd w0)) sources) ->
            exists b c, stat (root w0) (cwd w0) fp = inr (File b c)).
  { intros fp Hin. apply in_flat_map in Hin. destruct Hin as (s & _ & Hin).
    eapply walked_paths_are_files; eauto. }
  destruct (first_unreadable _ _ _ Hfiles)
    as [Hr|(before & denied & after & c & Hpaths & Hb & Hd)]; [exact Hr|].
  destruct (create_zip_file_unreadable _ _ _ _ _ _ _ _ _ _
              Hwf Ho Eo Hpaths Hb Hd) as (w1 & Hraise & _).
  rewrite Hrun in Hraise. discriminate Hraise.
Qed.

Lemma create_zip_file_ok_open p sources w w' :
  create_zip_file p sources w = (Ok tt, w') ->
  exists h w0, ZipFile p w = (Ok h, w0).
Proof.
  intros Hrun. pose proof (create_zip_file_cases p sources w) as Hc.
  destruct (ZipFile p w) as [[h|e] w0]; [eauto|].
  rewrite Hrun in Hc. discriminate Hc.
Qed.

Lemma create_zip_file_copies p sources w w' :
  wf_node (root w) = true ->
  create_zip_file p sources w = (Ok tt, w') ->
  exists h w0,
    ZipFile p w = (Ok h, w0)
    /\ h = List.length (zips w)
    /\ closed_and_finalized h w'
    /\ stat (root w') (cwd w') p
       = inr (File true (ZipData true (members_of h w')))
    /\ Forall2 (copy_of (root w0) (cwd w0) p)
         (flat_map (walked_paths (root w0) (cwd w0)) sources)
         (members_of h w').
Proof.
  intros Hwf Hrun.
  destruct (create_zip_file_ok_open _ _ _ _ Hrun) as (h & w0 & Ho).
  destruct (ZipFile_ok_state _ _ _ _ Ho) as (pos & Eo & Hh & _).
  pose proof (create_zip_file_ok_readable _ _ _ _ _ _ Hwf Ho Hrun) as Hread.
  destruct (create_zip_file_readable _ _ _ _ _ _ Hwf Ho Eo Hread)
    as (w'' & ms & Hrun' & Hfin & Hms & _ & Hstat & Hcp).
  rewrite Hrun in Hrun'. injection Hrun' as <-.
  exists h, w0. rewrite Hms. auto.
Qed.

(** X2.  In a directory tree, when [create_zip_file] returns, the
    members of the archive are, in the order of the walks, one for each
    file the walks discovered, under the member name of the file's path
    and, unless the file is the archive itself, with the data the file
    has: earlier writes change no file but the archive. *)
Theorem create_zip_file_members_are_copies (p : string)
    (sources : list string) (w w' : world) :
  wf_node (root w) = true ->
  create_zip_file p sources w = (Ok tt, w') ->
  exists h w0,
    ZipFile p w = (Ok h, w0)
    /\ Forall2 (copy_of (root w0) (cwd w0) p)
         (flat_map (walked_paths (root w0) (cwd w0)) sources)
         (members_of h w').
Proof.
  intros Hwf Hrun.
  destruct (create_zip_file_copies _ _ _ _ Hwf Hrun)
    as (h & w0 & Ho & _ & _ & _ & Hcp).
  now exists h, w0.
Qed.

Lemma create_zip_file_members_are_copies_witness :
  let w' := snd (create_zip_file "out/mybackup.zip"
                   ["subdir"; "empty"; "/home/u/subdir"] demo_world) in
  let w0 := snd (ZipFile "out/mybackup.zip" demo_world) in
  wf_node (root demo_world) = true
  /\ create_zip_file "out/mybackup.zip" ["subdir"; "empty"; "/home/u/subdir"]
       demo_world
     = (Ok tt, w')
  /\ Forall2 (copy_of (root w0) (cwd w0) "out/mybackup.zip")
       ["subdir/b.txt"; "/home/u/subdir/b.txt"]
       (members_of 0 w').
Proof.
  intros w' w0.
  assert (Hwf : wf_node (root demo_world) = true) by (vm_compute; reflexivity).
  assert (Hrun : create_zip_file "out/mybackup.zip"
                   ["subdir"; "empty"; "/home/u/subdir"] demo_world
                 = (Ok tt, w')) by (vm_compute; reflexivity).
  split; [exact Hwf|]. split; [exact Hrun|].
  destruct (create_zip_file_members_are_copies _ _ _ _ Hwf Hrun)
    as (h & w1 & Ho & Hcp).
  assert (Hh : (h, w1) = (0, w0)).
  { assert (Ho' : ZipFile "out/mybackup.zip" demo_world = (Ok 0, w0))
      by (vm_compute; reflexivity).
    rewrite Ho in Ho'. now injection Ho' as -> ->. }
  injection Hh as -> ->. exact Hcp.
Defined.

(** X3.  In a directory tree, once the archive is open, a discovered
    file that cannot be read keeps [create_zip_file] from returning: the
    archive is left open, not finalized, and nothing is printed. *)
Theorem unreadable_file_prevents_return (p : string) (sources : list string)
    (w : world) (h : nat) (w0 : world) (fp : string) (c : content) :
  wf_node (root w) = true ->
  ZipFile p w = (Ok h, w0) ->
  In fp (flat_map (walked_paths (root w0) (cwd w0)) sources) ->
  stat (root w0) (cwd w0) fp = inr (File false c) ->
  fst (create_zip_file p sources w) <> Ok tt
  /\ left_open h (snd (create_zip_file p sources w))
  /\ stdout (snd (create_zip_file p sources w)) = stdout w.
Proof.
  intros Hwf Ho Hin Hden.
  pose proof (create_zip_file_cases p sources w) as Hc.
  rewrite Ho in Hc. cbv zeta in Hc.
  pose proof (stdout_create_zip_file p sources w) as Hout.
  destruct (for_each (flat_map (walked_paths (root w0) (cwd w0)) sources)
              (ZipFile_write h) w0) as [[[]|e] w1].
  - exfalso. destruct Hc as (w2 & Hrun & _).
    destruct (create_zip_file_ok_readable _ _ _ _ _ _ Hwf Ho Hrun fp Hin)
      as (c' & Hc').
    rewrite Hden in Hc'. discriminate Hc'.
  - destruct Hc as [Hrun Hopen]. rewrite Hrun in *. cbn [fst snd] in *.
    split; [intros H; discriminate H|]. split; [exact Hopen|exact Hout].
Qed.

Lemma unreadable_file_prevents_return_witness :
  let w0 := snd (ZipFile "out/mybackup.zip" demo_world) in
  wf_node (root demo_world) = true
  /\ ZipFile "out/mybackup.zip" demo_world = (Ok 0, w0)
  /\ In "secret/key"
       (flat_map (walked_paths (root w0) (cwd w0)) ["subdir"; "secret"])
  /\ stat (root w0) (cwd w0) "secret/key" = inr (File false (Raw [Byte.x6b]))
  /\ fst (create_zip_file "out/mybackup.zip" ["subdir"; "secret"] demo_world)
     <> Ok tt
  /\ left_open 0
       (snd (create_zip_file "out/mybackup.zip" ["subdir"; "secret"]
               demo_world))
  /\ stdout (snd (create_zip_file "out/mybackup.zip" ["subdir"; "secret"]
                    demo_world))
     = stdout demo_world.
Proof.
  intros w0.
  assert (Hwf : wf_node (root demo_world) = true) by (vm_compute; reflexivity).
  assert (Ho : ZipFile "out/mybackup.zip" demo_world = (Ok 0, w0))
    by (vm_compute; reflexivity).
  assert (Hin : In "secret/key"
                  (flat_map (walked_paths (root w0) (cwd w0))
                     ["subdir"; "secret"]))
    by (vm_compute; tauto).
  assert (Hs : stat (root w0) (cwd w0) "secret/key"
               = inr (File false (Raw [Byte.x6b])))
    by (vm_compute; reflexivity).
  split; [exact Hwf|]. split; [exact Ho|]. split; [exact Hin|].
  split; [exact Hs|].
  exact (unreadable_file_prevents_return "out/mybackup.zip"
           ["subdir"; "secret"] demo_world 0 w0 _ _ Hwf Ho Hin Hs).
Defined.

(** ** The files the archiving leaves alone *)

Lemma ZipFile_write_root h pos ms w filename :
  archive_state h pos ms w ->
  root (snd (ZipFile_write h filename w)) = root w
  \/ exists c,
       root (snd (ZipFile_write h filename w))
       = put (root w) pos (File true c).
Proof.
  intros [Hz Hl]. unfold ZipFile_write, bind, log.
  cbn [root cwd zips add_call fst snd]. rewrite Hz. cbn [zclosed].
  destruct (stat (root w) (cwd w) filename) as [e|n]; [now left|].
  destruct (arcname_of filename) as [arc|]; [|now left].
  destruct n as [[|] data|es]; [right|now left|right];
    eexists; reflexivity.
Qed.

Lemma ZipFile_close_root h pos ms w :
  archive_state h pos ms w ->
  root (snd (ZipFile_close h w))
  = put (root w) pos (File true (ZipData true ms)).
Proof.
  intros [Hz Hl]. unfold ZipFile_close, bind, log.
  cbn [root cwd zips add_call fst snd]. rewrite Hz. reflexivity.
Qed.

Lemma archive_state_not_dir h pos ms w :
  archive_state h pos ms w -> not_dir_at (root w) pos.
Proof. intros [_ Hl]. unfold not_dir_at. now rewrite Hl. Qed.

Lemma ZipFile_write_keeps h pos ms w filename :
  archive_state h pos ms w ->
  files_kept_but pos (root w) (root (snd (ZipFile_write h filename w))).
Proof.
  intros Hst.
  destruct (ZipFile_write_root _ _ _ _ filename Hst) as [->|(c & ->)].
  - apply files_kept_but_refl.
  - apply files_kept_but_put_file. eapply archive_state_not_dir; eauto.
Qed.

Lemma writes_keep h pos paths :
  forall ms w,
    archive_state h pos ms w ->
    files_kept_but pos (root w)
      (root (snd (for_each paths (ZipFile_write h) w))).
Proof.
  induction paths as [|fp paths IH]; intros ms w Hst; cbn [for_each].
  - apply files_kept_but_refl.
  - unfold bind.
    pose proof (ZipFile_write_step h pos ms w fp Hst) as Hw.
    pose proof (ZipFile_write_keeps h pos ms w fp Hst) as Hk.
    destruct (ZipFile_write h fp w) as [[[]|e] w1]; cbn [snd] in *.
    + destruct Hw as (m & Hst1 & _).
      eapply files_kept_but_trans; [exact Hk|]. eapply IH; eauto.
    + exact Hk.
Qed.

(** X4.  Whatever its outcome, [create_zip_file] creates, changes and
    removes no regular file but the archive: when the archive cannot be
    opened the tree is as it was, and otherwise every position other
    than the archive's holds a regular file after the run exactly when
    it held the same file, with the same permission, before it. *)
Theorem create_zip_file_keeps_other_files (p : string)
    (sources : list string) (w : world) :
  match open_target (root w) (cwd w) p with
  | inl _ => root (snd (create_zip_file p sources w)) = root w
  | inr pos =>
      files_kept_but pos (root w) (root (snd (create_zip_file p sources w)))
  end.
Proof.
  pose proof (ZipFile_cases p w) as Hc.
  pose proof (create_zip_file_cases p sources w) as Hr.
  destruct (open_target (root w) (cwd w) p) as [e|pos] eqn:Eo.
  - rewrite Hc in Hr. rewrite Hr. reflexivity.
  - destruct Hc as (w0 & Ho & Hst & _ & Hroot & _).
    rewrite Ho in Hr. cbv zeta in Hr.
    destruct (open_target_resolve _ _ _ _ Eo) as (_ & Hnd & _).
    assert (H0 : files_kept_but pos (root w) (root w0))
      by (rewrite Hroot; now apply files_kept_but_put_file).
    destruct (writes_spec (List.length (zips w)) pos
      (flat_map (walked_paths (root w0) (cwd w0)) sources) [] w0 Hst)
      as (_ & _ & ms' & Hst1 & _).
    pose proof (writes_keep (List.length (zips w)) pos
      (flat_map (walked_paths (root w0) (cwd w0)) sources) [] w0 Hst) as Hk1.
    destruct (for_each (flat_map (walked_paths (root w0) (cwd w0)) sources)
                (ZipFile_write (List.length (zips w))) w0) as [[[]|e] w1];
      cbn [snd] in *.
    + destruct Hr as (w2 & -> & Hcl & _). cbn [snd].
      pose proof (ZipFile_close_root _ _ _ _ Hst1) as Hr2.
      rewrite Hcl in Hr2. cbn [snd] in Hr2. rewrite Hr2.
      eapply files_kept_but_trans; [exact H0|].
      eapply files_kept_but_trans; [exact Hk1|].
      apply files_kept_but_put_file. eapply archive_state_not_dir; eauto.
    + destruct Hr as [-> _]. cbn [snd].
      eapply files_kept_but_trans; eauto.
Qed.

(** ** What the entry point leaves alone *)

Lemma dirs_kept_refl r : dirs_kept r r.
Proof. intros q es H. eauto. Qed.

Lemma dirs_kept_trans r1 r2 r3 :
  dirs_kept r1 r2 -> dirs_kept r2 r3 -> dirs_kept r1 r3.
Proof.
  intros H1 H2 q es H. destruct (H1 _ _ H) as (es' & H'). eauto.
Qed.

Lemma os_mkdir_kept path w :
  files_kept (root w) (root (snd (os_mkdir path w)))
  /\ dirs_kept (root w) (root (snd (os_mkdir path w))).
Proof.
  unfold os_mkdir.
  destruct (create_target _ _ _ _) as [e|p];
    [split; [apply files_kept_refl|apply dirs_kept_refl]|].
  destruct (lookup (root w) p) eqn:Hp;
    [split; [apply files_kept_refl|apply dirs_kept_refl]|].
  cbn [snd root set_root]. split; [now apply files_kept_mkdir|].
  intros q es Hq. apply (lookup_dir_put _ _ _ _ es); [| |exact Hq].
  - intros ->. destruct (root w); discriminate.
  - unfold not_dir_at. now rewrite Hp.
Qed.

Lemma makedirs_rec_kept fuel :
  forall name w,
    files_kept (root w) (root (snd (makedirs_rec fuel name w)))
    /\ dirs_kept (root w) (root (snd (makedirs_rec fuel name w))).
Proof.
  induction fuel as [|fuel IH]; intros name w; cbn [makedirs_rec].
  - split; [apply files_kept_refl|apply dirs_kept_refl].
  - destruct (os_path_split name) as [head tail].
    destruct (if tail =? "" then os_path_split head else (head, tail))
      as [head' tail'].
    set (ex := match stat (root w) (cwd w) head' with
               | inr _ => true | inl _ => false end).
    match goal with
    | |- context [bind (os_path_exists head') ?k] =>
        assert (Heq : bind (os_path_exists head') k w = k ex w)
          by (unfold bind, os_path_exists, ex;
              destruct (stat (root w) (cwd w) head'); reflexivity)
    end.
    rewrite Heq. clear Heq.
    destruct (negb (head' =? "") && negb (tail' =? "") && negb ex);
      [|apply os_mkdir_kept].
    unfold bind, try_except, ret.
    destruct (IH head' w) as [Hf Hd].
    destruct (makedirs_rec fuel head' w) as [[[]|e] w1]; cbn [snd] in *.
    + destruct (tail' =? "."); [now split|].
      destruct (os_mkdir_kept name w1) as [Hf1 Hd1].
      split; [eapply files_kept_trans|eapply dirs_kept_trans]; eauto.
    + destruct (is_FileExistsError e); [|now split].
      destruct (tail' =? "."); [now split|].
      destruct (os_mkdir_kept name w1) as [Hf1 Hd1].
      split; [eapply files_kept_trans|eapply dirs_kept_trans]; eauto.
Qed.

Lemma os_makedirs_kept name w :
  files_kept (root w) (root (snd (os_makedirs name w)))
  /\ dirs_kept (root w) (root (snd (os_makedirs name w))).
Proof.
  unfold os_makedirs, bind, log.
  apply (makedirs_rec_kept _ name (add_call (EvMakedirs name) w)).
Qed.

(** X5.  Whatever the arguments and the file system, a run of [main]
    creates, changes and removes no regular file, removes no directory,
    opens no archive, and does not return normally: all it can leave
    behind are new empty directories on the way to the destination. *)
Theorem main_writes_no_file (args : Namespace) (w : world) :
  files_kept (root w) (root (snd (main args w)))
  /\ dirs_kept (root w) (root (snd (main args w)))
  /\ zips (snd (main args w)) = zips w
  /\ cwd (snd (main args w)) = cwd w
  /\ fst (main args w) <> Ok tt.
Proof.
  rewrite main_unfold.
  destruct (stat (root w) (cwd w) (destination args)) as [e|n].
  - destruct (os_makedirs_kept (destination args) w) as [Hf Hd].
    assert (Hz : zips (snd (os_makedirs (destination args) w)) = zips w)
      by now apply (keeps_os_makedirs zips).
    assert (Hc : cwd (snd (os_makedirs (destination args) w)) = cwd w)
      by now apply (keeps_os_makedirs cwd).
    destruct (os_makedirs (destination args) w) as [[[]|e'] w1];
      cbn [fst snd] in *;
      (split; [exact Hf|]; split; [exact Hd|]; split; [exact Hz|];
       split; [exact Hc|]; intros Hx; discriminate Hx).
  - cbn [fst snd]. split; [apply files_kept_refl|].
    split; [apply dirs_kept_refl|]. split; [reflexivity|].
    split; [reflexivity|]. intros Hx; discriminate Hx.
Qed.

(** ** Archive paths that coincide *)

Lemma append_inj_l (d a b : string) : d ++ a = d ++ b -> a = b.
Proof.
  induction d as [|c d IH]; cbn [append]; intros H; [exact H|].
  injection H as H. now apply IH.
Qed.

Lemma append_inj_r (a b s : string) : a ++ s = b ++ s -> a = b.
Proof.
  intros H.
  assert (Hl : String.length a = String.length b).
  { apply (f_equal String.length) in H. rewrite !length_append in H. lia. }
  revert b H Hl. induction a as [|c a IH]; intros [|c' b] H Hl;
    cbn [String.length] in Hl; try discriminate; [reflexivity|].
  cbn [append] in H. injection H as -> H. f_equal. apply IH; [exact H|lia].
Qed.

Lemma pad2_inj n m :
  (n < 100)%nat -> (m < 100)%nat -> pad2 n = pad2 m -> n = m.
Proof.
  intros Hn Hm H.
  assert (Hall : forallb (fun n =>
            forallb (fun m => implb (pad2 n =? pad2 m) (Nat.eqb n m))
              (seq 0 100)) (seq 0 100) = true) by (vm_compute; reflexivity).
  rewrite forallb_forall in Hall.
  specialize (Hall n ltac:(apply in_seq; lia)).
  rewrite forallb_forall in Hall.
  specialize (Hall m ltac:(apply in_seq; lia)).
  rewrite H, String.eqb_refl in Hall. now apply Nat.eqb_eq.
Qed.

Lemma strftime_inj t1 t2 :
  valid_datetime t1 -> valid_datetime t2 ->
  strftime t1 = strftime t2 -> same_second t1 t2.
Proof.
  intros (Hy & Hm & Hd & Hh & Hmi & Hs) (Hy' & Hm' & Hd' & Hh' & Hmi' & Hs').
  assert (By : (year t1 mod 100 < 100)%nat)
    by (apply Nat.mod_upper_bound; lia).
  assert (By' : (year t2 mod 100 < 100)%nat)
    by (apply Nat.mod_upper_bound; lia).
  unfold strftime, same_second. intros H.
  destruct (pad2_two_digits (day t1)) as (a1 & b1 & E1 & _); [lia|].
  destruct (pad2_two_digits (month t1)) as (a2 & b2 & E2 & _); [lia|].
  destruct (pad2_two_digits (year t1 mod 100)) as (a3 & b3 & E3 & _);
    [exact By|].
  destruct (pad2_two_digits (hour t1)) as (a4 & b4 & E4 & _); [lia|].
  destruct (pad2_two_digits (minute t1)) as (a5 & b5 & E5 & _); [lia|].
  destruct (pad2_two_digits (second t1)) as (a6 & b6 & E6 & _); [lia|].
  destruct (pad2_two_digits (day t2)) as (c1 & d1 & F1 & _); [lia|].
  destruct (pad2_two_digits (month t2)) as (c2 & d2 & F2 & _); [lia|].
  destruct (pad2_two_digits (year t2 mod 100)) as (c3 & d3 & F3 & _);
    [exact By'|].
  destruct (pad2_two_digits (hour t2)) as (c4 & d4 & F4 & _); [lia|].
  destruct (pad2_two_digits (minute t2)) as (c5 & d5 & F5 & _); [lia|].
  destruct (pad2_two_digits (second t2)) as (c6 & d6 & F6 & _); [lia|].
  rewrite E1, E2, E3, E4, E5, E6, F1, F2, F3, F4, F5, F6 in H.
  cbn [append] in H.
  injection H as -> -> -> -> -> -> -> -> -> -> -> ->.
  rewrite <- F1 in E1. rewrite <- F2 in E2. rewrite <- F3 in E3.
  rewrite <- F4 in E4. rewrite <- F5 in E5. rewrite <- F6 in E6.
  repeat split; apply pad2_inj; (exact E1 || exact E2 || exact E3
    || exact E4 || exact E5 || exact E6 || lia).
Qed.

(** X6.  With no name given and the same destination, two runs build the
    same archive path exactly when their clock readings agree on the
    day, the month, the last two digits of the year, the hour, the
    minute and the second: a second run within the same second writes to
    the file of the first. *)
Theorem default_paths_coincide (t1 t2 : datetime) (d : string) :
  valid_datetime t1 -> valid_datetime t2 ->
  create_zip_filepath (strftime t1) d None
  = create_zip_filepath (strftime t2) d None
  <-> same_second t1 t2.
Proof.
  intros H1 H2. unfold create_zip_filepath. split.
  - intros H. apply append_inj_l in H.
    apply (append_inj_l "/") in H. apply (append_inj_l "backup_") in H.
    apply append_inj_r in H. now apply strftime_inj.
  - intros (Hd & Hm & Hy & Hh & Hmi & Hs). unfold strftime.
    now rewrite Hd, Hm, Hy, Hh, Hmi, Hs.
Qed.

Lemma default_paths_coincide_witness :
  let t1 := {| year := 2024; month := 3; day := 5;
               hour := 14; minute := 7; second := 9 |} in
  let t2 := {| year := 2124; month := 3; day := 5;
               hour := 14; minute := 7; second := 9 |} in
  valid_datetime t1 /\ valid_datetime t2
  /\ (create_zip_filepath (strftime t1) "out" None
      = create_zip_filepath (strftime t2) "out" None
      <-> same_second t1 t2).
Proof.
  intros t1 t2.
  assert (V1 : valid_datetime t1).
  { unfold valid_datetime; cbn.
    repeat split; try lia; apply Nat.leb_le; vm_compute; reflexivity. }
  assert (V2 : valid_datetime t2).
  { unfold valid_datetime; cbn.
    repeat split; try lia; apply Nat.leb_le; vm_compute; reflexivity. }
  split; [exact V1|]. split; [exact V2|].
  exact (default_paths_coincide t1 t2 "out" V1 V2).
Defined.

(** ** The size the summary reports *)

Lemma hundredths_nonneg n :
  (0 <= n < 2 ^ 53)%Z -> (0 <= hundredths (int_truediv n MiB))%Z.
Proof.
  intros Hn. pose proof (hundredths_nearest n Hn) as H.
  set (h := hundredths (int_truediv n MiB)) in *.
  unfold MiB in *. lia.
Qed.

Lemma str_of_Z_zero q : (0 <= q)%Z -> str_of_Z q = "0" -> q = 0%Z.
Proof.
  destruct q as [|p|p]; [reflexivity| |lia]. intros _ H. exfalso.
  unfold str_of_Z in H. cbn [Z.to_N N.to_uint] in H.
  apply (f_equal NilZero.uint_of_string) in H.
  rewrite NilZero.usu in H by apply Unsigned.to_uint_nonnil.
  cbn in H. injection H as H. exact (Unsigned.to_uint_nonzero p H).
Qed.

Lemma format_2f_zero x :
  (0 <= hundredths x)%Z ->
  format_2f x = "0.00" <-> hundredths x = 0%Z.
Proof.
  intros Hh. unfold format_2f. cbv zeta.
  set (h := hundredths x) in *. split.
  - intros H.
    assert (Hr : (Z.to_nat (h mod 100) < 100)%nat)
      by (pose proof (Z.mod_pos_bound h 100); lia).
    destruct (pad2_two_digits _ Hr) as (a & b & E & _).
    rewrite E in H.
    assert (Hs : str_of_Z (h / 100) = "0" /\ a = "0"%char /\ b = "0"%char).
    { destruct (str_of_Z (h / 100)) as [|c [|c' s']]; cbn [append] in H.
      - discriminate H.
      - injection H as -> -> ->. auto.
      - exfalso. injection H as _ _ H.
        destruct s' as [|c1 [|c2 s'']]; cbn [append] in H; try discriminate H.
        injection H as _ _ H. destruct s''; discriminate H. }
    destruct Hs as (Hq & -> & ->).
    apply str_of_Z_zero in Hq; [|apply Z.div_pos; lia].
    assert (Hm : Z.to_nat (h mod 100) = 0%nat)
      by (apply pad2_inj; [exact Hr|lia|exact E]).
    pose proof (Z.mod_pos_bound h 100).
    pose proof (Z.div_mod h 100). lia.
  - intros ->. reflexivity.
Qed.

(** X7.  For an archive of [n] bytes, the summary line reports the size
    as [0.00] exactly when [n] is at most 5242: an archive without
    members, of 22 bytes, is reported as [0.00 MB]. *)
Theorem small_archive_reported_as_zero (n : Z) :
  (0 <= n < 2 ^ 53)%Z ->
  format_2f (int_truediv n MiB) = "0.00" <-> (n <= 5242)%Z.
Proof.
  intros Hn. rewrite format_2f_zero by now apply hundredths_nonneg.
  pose proof (hundredths_nearest n Hn) as H.
  set (h := hundredths (int_truediv n MiB)) in *.
  unfold MiB in *. lia.
Qed.

Lemma small_archive_reported_as_zero_witness :
  (0 <= 22 < 2 ^ 53)%Z
  /\ (format_2f (int_truediv 22 MiB) = "0.00" <-> (22 <= 5242)%Z).
Proof.
  assert (H : (0 <= 22 < 2 ^ 53)%Z) by (split; [lia|reflexivity]).
  split; [exact H|]. exact (small_archive_reported_as_zero 22 H).
Defined.

(** X8.  The size the summary line reports, in hundredths of a
    mebibyte, never decreases when the archive grows. *)
Theorem reported_size_monotone (n m : Z) :
  (0 <= n <= m)%Z -> (m < 2 ^ 53)%Z ->
  (hundredths (int_truediv n MiB) <= hundredths (int_truediv m MiB))%Z.
Proof.
  intros Hnm Hm.
  destruct (Z.eq_dec n m) as [->|Hne]; [lia|].
  pose proof (hundredths_nearest n ltac:(lia)) as H1.
  pose proof (hundredths_nearest m ltac:(lia)) as H2.
  set (h1 := hundredths (int_truediv n MiB)) in *.
  set (h2 := hundredths (int_truediv m MiB)) in *.
  unfold MiB in *. lia.
Qed.

Lemma reported_size_monotone_witness :
  (0 <= 131072 <= 131073)%Z /\ (131073 < 2 ^ 53)%Z
  /\ (hundredths (int_truediv 131072 MiB)
      <= hundredths (int_truediv 131073 MiB))%Z.
Proof.
  assert (H1 : (0 <= 131072 <= 131073)%Z) by lia.
  assert (H2 : (131073 < 2 ^ 53)%Z) by reflexivity.
  split; [exact H1|]. split; [exact H2|].
  exact (reported_size_monotone 131072 131073 H1 H2).
Defined.

(** ** A run of the archiving step that returns *)

Lemma has_sep_app a b : has_sep (a ++ b) = has_sep a || has_sep b.
Proof. unfold has_sep. now rewrite list_ascii_app, existsb_app. Qed.

Lemma digit_not_sep a : is_digit a = true -> is_sep a = false.
Proof.
  destruct a as [[] [] [] [] [] [] [] []]; vm_compute; congruence.
Qed.

Lemma strftime_no_sep t : valid_datetime t -> has_sep (strftime t) = false.
Proof.
  intros (Hy & Hm & Hd & Hh & Hmi & Hs). unfold strftime.
  destruct (pad2_two_digits (day t)) as (d1 & d2 & -> & Hd1 & Hd2); [lia|].
  destruct (pad2_two_digits (month t)) as (m1 & m2 & -> & Hm1 & Hm2); [lia|].
  destruct (pad2_two_digits (year t mod 100)) as (y1 & y2 & -> & Hy1 & Hy2).
  { apply Nat.mod_upper_bound. lia. }
  destruct (pad2_two_digits (hour t)) as (h1 & h2 & -> & Hh1 & Hh2); [lia|].
  destruct (pad2_two_digits (minute t)) as (i1 & i2 & -> & Hi1 & Hi2); [lia|].
  destruct (pad2_two_digits (second t)) as (s1 & s2 & -> & Hs1 & Hs2); [lia|].
  unfold has_sep. cbn [append list_ascii_of_string existsb].
  rewrite (digit_not_sep _ Hd1), (digit_not_sep _ Hd2),
    (digit_not_sep _ Hm1), (digit_not_sep _ Hm2),
    (digit_not_sep _ Hy1), (digit_not_sep _ Hy2),
    (digit_not_sep _ Hh1), (digit_not_sep _ Hh2),
    (digit_not_sep _ Hi1), (digit_not_sep _ Hi2),
    (digit_not_sep _ Hs1), (digit_not_sep _ Hs2).
  reflexivity.
Qed.

Lemma zip_name_proper x :
  has_sep x = false -> proper_name (x ++ ".zip") = true.
Proof.
  intros Hx. unfold proper_name. rewrite has_sep_app, Hx.
  rewrite andb_true_iff. split; [|reflexivity].
  unfold is_name.
  assert (Hl : (4 <= String.length (x ++ ".zip"))%nat)
    by (rewrite length_append; cbn; lia).
  destruct (String.eqb_spec (x ++ ".zip") "") as [E|_];
    [rewrite E in Hl; cbn in Hl; lia|].
  destruct (String.eqb_spec (x ++ ".zip") ".") as [E|_];
    [rewrite E in Hl; cbn in Hl; lia|].
  destruct (String.eqb_spec (x ++ ".zip") "..") as [E|_];
    [rewrite E in Hl; cbn in Hl; lia|].
  reflexivity.
Qed.

(** The file name [create_zip_filepath] builds is a proper entry name
    when the given name has no separator, and always when none is
    given. *)
Lemma base_name_proper t n :
  match n with
  | Some x => has_sep x = false
  | None => valid_datetime t
  end ->
  proper_name (base_name (strftime t) n ++ ".zip") = true.
Proof.
  destruct n as [x|]; intros H; apply zip_name_proper; cbn [base_name].
  - exact H.
  - rewrite has_sep_app, (strftime_no_sep _ H). reflexivity.
Qed.

Lemma create_zip_filepath_base t d n :
  create_zip_filepath t d n = d ++ String sep (base_name t n ++ ".zip").
Proof.
  unfold create_zip_filepath, base_name. destruct n as [x|].
  - reflexivity.
  - now rewrite append_assoc.
Qed.

(** Opening a file by its name in a directory that is there. *)
Lemma open_in_dir r cwd d f P es :
  resolve r cwd d = inr P -> lookup r P = Some (Dir es) ->
  proper_name f = true ->
  open_target r cwd (d ++ String sep f)
  = match assoc f es with
    | Some (Dir _) => inl EISDIR
    | _ => inr (P ++ [f])%list
    end.
Proof.
  intros Hres HP Hf. destruct (proper_name_inv _ Hf) as [Hn Hs].
  unfold resolve in Hres. destruct (d =? "") eqn:Hd; [discriminate|].
  assert (Hf0 : (f =? "") = false).
  { unfold is_name in Hn. apply negb_true_iff in Hn.
    apply orb_false_iff in Hn as [H _].
    now apply orb_false_iff in H as [H _]. }
  unfold open_target. cbv zeta.
  rewrite split_sep_app_sep, (split_sep_no_sep _ Hs), last_last, Hf0.
  unfold create_target. rewrite (app_not_empty d _ Hd).
  assert (Hm : forall (a b : errno + list string),
            match (split_sep d ++ [f])%list with [] => a | _ :: _ => b end
            = b)
    by (intros; destruct (split_sep d); reflexivity).
  rewrite Hm, removelast_last, last_last.
  unfold start_of in *. rewrite (prefix_sep_app d _ Hd), Hres, HP, Hn.
  rewrite lookup_app, HP. cbn [lookup].
  destruct (assoc f es) as [[b c|es']|]; reflexivity.
Qed.

(** X9.  In a directory tree, when [zipources] returns, the archive at
    the path [create_zip_filepath] builds is closed and finalized, its
    members are copies, in the order of the walks, of the files the
    walks discovered, and exactly one line has been printed: the summary,
    with the number of sources and the size of the file at that path. *)
Theorem zipources_returns (sources : list string) (d : string)
    (n : option string) (w w' : world) :
  wf_node (root w) = true ->
  zipources sources d n w = (Ok tt, w') ->
  let p := create_zip_filepath (strftime (clock w)) d n in
  let h := List.length (zips w) in
  let w0 := snd (ZipFile p w) in
  closed_and_finalized h w'
  /\ Forall2 (copy_of (root w0) (cwd w0) p)
       (flat_map (walked_paths (root w0) (cwd w0)) sources)
       (members_of h w')
  /\ exists archive,
       stat (root w') (cwd w') p = inr archive
       /\ stdout w'
          = (stdout w
             ++ [finish_message (List.length sources) d
                   (int_truediv (st_size archive) MiB)])%list.
Proof.
  intros Hwf Hrun p h w0.
  rewrite zipources_eq in Hrun. fold p in Hrun.
  destruct (create_zip_file p sources w) as [[[]|e] w1] eqn:Hczf;
    [|discriminate Hrun].
  destruct (create_zip_file_copies _ _ _ _ Hwf Hczf)
    as (h' & w0' & Ho & Hh & Hfin & Hstat & Hcp).
  assert (h' = h) by exact Hh. subst h'.
  assert (Hw0 : w0 = w0') by (unfold w0; now rewrite Ho).
  clearbody w0. subst w0'.
  pose proof (stdout_create_zip_file p sources w) as Hout.
  rewrite Hczf in Hout. cbn [snd] in Hout.
  rewrite (print_finish_message_ok _ _ _ _ _ Hstat) in Hrun.
  injection Hrun as <-.
  split; [exact Hfin|]. split; [exact Hcp|].
  eexists. split; [exact Hstat|].
  cbn [stdout add_stdout add_call]. now rewrite Hout.
Qed.

Lemma zipources_returns_witness :
  let w' := snd (zipources ["a.txt"; "subdir"; "/home/u/subdir"] "out"
                   (Some "mybackup") demo_world) in
  let w0 := snd (ZipFile "out/mybackup.zip" demo_world) in
  wf_node (root demo_world) = true
  /\ zipources ["a.txt"; "subdir"; "/home/u/subdir"] "out" (Some "mybackup")
       demo_world
     = (Ok tt, w')
  /\ closed_and_finalized 0 w'
  /\ Forall2 (copy_of (root w0) (cwd w0) "out/mybackup.zip")
       (flat_map (walked_paths (root w0) (cwd w0))
          ["a.txt"; "subdir"; "/home/u/subdir"])
       (members_of 0 w')
  /\ exists archive,
       stat (root w') (cwd w') "out/mybackup.zip" = inr archive
       /\ stdout w'
          = (stdout demo_world
             ++ [finish_message 3 "out" (int_truediv (st_size archive) MiB)])%list.
Proof.
  intros w' w0.
  assert (Hwf : wf_node (root demo_world) = true) by (vm_compute; reflexivity).
  assert (Hrun : zipources ["a.txt"; "subdir"; "/home/u/subdir"] "out"
                   (Some "mybackup") demo_world = (Ok tt, w'))
    by (vm_compute; reflexivity).
  split; [exact Hwf|]. split; [exact Hrun|].
  exact (zipources_returns ["a.txt"; "subdir"; "/home/u/subdir"] "out"
           (Some "mybackup") demo_world w' Hwf Hrun).
Defined.

(** ** A destination that is not a directory *)

Lemma resolve_from_errno r cs :
  forall cur e, resolve_from r cur cs = inl e -> e = ENOENT \/ e = ENOTDIR.
Proof.
  induction cs as [|c cs IH]; intros cur e; cbn [resolve_from];
    [discriminate|].
  destruct (lookup r cur) as [[b d|es]|].
  - intros H. injection H as <-. now right.
  - apply IH.
  - intros H. injection H as <-. now left.
Qed.

Lemma stat_errno r cwd d e :
  stat r cwd d = inl e -> e = ENOENT \/ e = ENOTDIR.
Proof.
  unfold stat, resolve. destruct (d =? "").
  - intros H. injection H as <-. now left.
  - destruct (resolve_from r (start_of cwd d) (split_sep d)) as [e'|P] eqn:E.
    + intros H. injection H as <-. eapply resolve_from_errno; eauto.
    + destruct (lookup r P); [discriminate|].
      intros H. injection H as <-. now left.
Qed.

(** Opening a file by its name under a path that is not a directory. *)
Lemma open_not_in_dir r cwd d f :
  (d =? "") = false -> proper_name f = true ->
  (forall es, stat r cwd d <> inr (Dir es)) ->
  open_target r cwd (d ++ String sep f)
  = inl match stat r cwd d with
        | inl e => e
        | inr _ => ENOTDIR
        end.
Proof.
  intros Hd Hf Hnot. destruct (proper_name_inv _ Hf) as [Hn Hs].
  assert (Hf0 : (f =? "") = false).
  { unfold is_name in Hn. apply negb_true_iff in Hn.
    apply orb_false_iff in Hn as [H _].
    now apply orb_false_iff in H as [H _]. }
  pose proof (stat_errno r cwd d) as Herr.
  unfold stat, resolve in *. rewrite Hd in *.
  unfold open_target. cbv zeta.
  rewrite split_sep_app_sep, (split_sep_no_sep _ Hs), last_last, Hf0.
  unfold create_target. rewrite (app_not_empty d _ Hd).
  assert (Hm : forall (a b : errno + list string),
            match (split_sep d ++ [f])%list with [] => a | _ :: _ => b end
            = b)
    by (intros; destruct (split_sep d); reflexivity).
  rewrite Hm, removelast_last, last_last.
  unfold start_of in *. rewrite (prefix_sep_app d _ Hd).
  destruct (resolve_from r (if prefix "/" d then [] else cwd) (split_sep d))
    as [e|P].
  - destruct (Herr e eq_refl) as [-> | ->]; reflexivity.
  - destruct (lookup r P) as [[b c|es]|]; try reflexivity.
    exfalso. exact (Hnot es eq_refl).
Qed.

(** X10.  [zipources] does not create the destination: when the
    destination, not empty, is missing or is not a directory, opening
    the archive raises [FileNotFoundError] or [NotADirectoryError] for
    the archive path, and the run ends there, with no file created, no
    archive open and nothing printed. *)
Theorem zipources_destination_not_directory (sources : list string)
    (d : string) (n : option string) (w : world) :
  match n with
  | Some x => has_sep x = false
  | None => valid_datetime (clock w)
  end ->
  (d =? "") = false ->
  (forall es, stat (root w) (cwd w) d <> inr (Dir es)) ->
  let p := create_zip_filepath (strftime (clock w)) d n in
  let w' := snd (zipources sources d n w) in
  fst (zipources sources d n w)
  = Raise match stat (root w) (cwd w) d with
          | inl ENOENT => FileNotFoundError p
          | _ => NotADirectoryError p
          end
  /\ root w' = root w /\ zips w' = zips w /\ stdout w' = stdout w
  /\ calls w' = (calls w ++ [EvZipOpen p])%list.
Proof.
  intros Hn Hd Hnot p w'.
  pose proof (base_name_proper (clock w) n Hn) as Hf.
  assert (Eo : open_target (root w) (cwd w) p
               = inl match stat (root w) (cwd w) d with
                     | inl e => e
                     | inr _ => ENOTDIR
                     end).
  { unfold p. rewrite create_zip_filepath_base.
    now apply open_not_in_dir. }
  pose proof (ZipFile_cases p w) as Hc. rewrite Eo in Hc.
  pose proof (create_zip_file_cases p sources w) as Hr. rewrite Hc in Hr.
  unfold w'. rewrite zipources_eq. fold p. rewrite Hr. cbn [fst snd].
  split; [|now repeat split].
  pose proof (stat_errno (root w) (cwd w) d) as Herr.
  destruct (stat (root w) (cwd w) d) as [e|nd]; [|reflexivity].
  destruct (Herr e eq_refl) as [-> | ->]; reflexivity.
Qed.

Lemma zipources_destination_not_directory_witness :
  has_sep "mybackup" = false
  /\ ("a.txt/sub" =? "") = false
  /\ fst (zipources ["subdir"] "a.txt/sub" (Some "mybackup") demo_world)
     = Raise (NotADirectoryError "a.txt/sub/mybackup.zip")
  /\ fst (zipources ["subdir"] "nowhere" None demo_world)
     = Raise (FileNotFoundError "nowhere/backup_09-01-23_07-05-00.zip").
Proof.
  assert (Hn : has_sep "mybackup" = false) by (vm_compute; reflexivity).
  assert (Hd : ("a.txt/sub" =? "") = false) by reflexivity.
  assert (Hv : valid_datetime (clock demo_world)).
  { unfold valid_datetime; cbn.
    repeat split; try lia; apply Nat.leb_le; vm_compute; reflexivity. }
  split; [exact Hn|]. split; [exact Hd|]. split.
  - refine (proj1 (zipources_destination_not_directory ["subdir"] "a.txt/sub"
                     (Some "mybackup") demo_world Hn Hd _)).
    intros es H. vm_compute in H. discriminate H.
  - refine (proj1 (zipources_destination_not_directory ["subdir"] "nowhere"
                     None demo_world Hv eq_refl _)).
    intros es H. vm_compute in H. discriminate H.
Defined.

(** ** An archive placed under a source *)

Lemma in_Forall2_l {A B} (R : A -> B -> Prop) l1 l2 x :
  Forall2 R l1 l2 -> In x l1 -> exists y, In y l2 /\ R x y.
Proof.
  induction 1 as [|a b l1 l2 Hab _ IH]; intros Hin; [contradiction|].
  destruct Hin as [->|Hin].
  - exists b. split; [now left|exact Hab].
  - destruct (IH Hin) as (y & Hy & Hr). exists y. split; [now right|exact Hr].
Qed.

(** X11.  The archive is created before the sources are walked: when
    its position is below a source that is a directory, the walk of that
    source discovers the archive itself, still empty, and a run that
    returns has stored a member under the archive's own name. *)
Theorem archive_under_source_is_walked (p s : string)
    (sources : list string) (w : world) (h : nat) (w0 : world)
    (es : list (string * node)) (P q : list string) :
  wf_node (root w) = true ->
  ZipFile p w = (Ok h, w0) ->
  In s sources ->
  resolve (root w) (cwd w) s = inr P ->
  lookup (root w) P = Some (Dir es) ->
  resolve (root w) (cwd w) p = inr (P ++ q)%list ->
  exists fp,
    In fp (flat_map (walked_paths (root w0) (cwd w0)) sources)
    /\ resolve (root w0) (cwd w0) fp = resolve (root w0) (cwd w0) p
    /\ stat (root w0) (cwd w0) fp = inr (File true (ZipData false []))
    /\ forall w',
         create_zip_file p sources w = (Ok tt, w') ->
         exists m, In m (members_of h w')
                   /\ arcname_of fp = Some (fst m).
Proof.
  intros Hwf Ho Hs Hres HP Hp.
  destruct (ZipFile_ok_state _ _ _ _ Ho)
    as (pos & Eo & _ & [_ Hl0] & Hcwd & Hroot).
  destruct (open_target_resolve _ _ _ _ Eo) as (Hrp & Hnd & Hne & _).
  assert (pos = (P ++ q)%list) by congruence. subst pos.
  assert (Hq : q <> []).
  { intros ->. rewrite app_nil_r in Hnd. unfold not_dir_at in Hnd.
    now rewrite HP in Hnd. }
  pose proof (ZipFile_keeps_wf _ _ _ _ Hwf Ho) as Hwf0.
  pose proof (ZipFile_ok_resolve _ _ _ _ _ Ho Eo) as Hrp0.
  assert (Hres0 : resolve (root w0) (cwd w0) s = inr P).
  { unfold resolve in *. rewrite Hcwd, Hroot.
    destruct (s =? ""); [discriminate|].
    exact (resolve_from_put _ _ _ _ _ _ Hne Hnd Hres). }
  destruct (lookup_dir_put _ _ (File true (ZipData false [])) _ _ Hne Hnd HP)
    as (es' & HP0).
  rewrite <- Hroot in HP0.
  assert (Hq0 : lookup (Dir es') q = Some (File true (ZipData false [])))
    by (rewrite lookup_app, HP0 in Hl0; exact Hl0).
  destruct (walk_complete (root w0) (cwd w0) (Dir es') s P
              (wf_node_lookup _ _ _ Hwf0 HP0) Hres0 HP0 q _ _ Hq0 Hq)
    as (fp & Hin & Hr).
  assert (Hin' : In fp (flat_map (walked_paths (root w0) (cwd w0)) sources)).
  { apply in_flat_map. exists s. split; [exact Hs|].
    unfold walked_paths, stat. now rewrite Hres0, HP0. }
  assert (Hst : stat (root w0) (cwd w0) fp
                = inr (File true (ZipData false []))).
  { unfold stat. now rewrite Hr, Hl0. }
  exists fp. split; [exact Hin'|]. split; [congruence|].
  split; [exact Hst|].
  intros w' Hrun.
  pose proof (create_zip_file_cases p sources w) as Hc.
  rewrite Ho in Hc. cbv zeta in Hc.
  destruct (for_each (flat_map (walked_paths (root w0) (cwd w0)) sources)
              (ZipFile_write h) w0) as [[[]|e] w1].
  - destruct Hc as (w2 & Hc & _ & _ & Hwr & _).
    rewrite Hrun in Hc. injection Hc as <-.
    destruct (in_Forall2_l _ _ _ _ Hwr Hin') as (m & Hm & Hw).
    exists m. split; [exact Hm|].
    unfold written_as in Hw. now rewrite Hst in Hw.
  - destruct Hc as [Hc _]. rewrite Hrun in Hc. discriminate Hc.
Qed.

Lemma archive_under_source_is_walked_witness :
  let w0 := snd (ZipFile "out/mybackup.zip" demo_world) in
  wf_node (root demo_world) = true
  /\ ZipFile "out/mybackup.zip" demo_world = (Ok 0, w0)
  /\ fst (create_zip_file "out/mybackup.zip" ["subdir"; "out"] demo_world)
     = Ok tt
  /\ exists fp,
       In fp (flat_map (walked_paths (root w0) (cwd w0)) ["subdir"; "out"])
       /\ resolve (root w0) (cwd w0) fp
          = resolve (root w0) (cwd w0) "out/mybackup.zip"
       /\ stat (root w0) (cwd w0) fp = inr (File true (ZipData false []))
       /\ forall w',
            create_zip_file "out/mybackup.zip" ["subdir"; "out"] demo_world
            = (Ok tt, w') ->
            exists m, In m (members_of 0 w')
                      /\ arcname_of fp = Some (fst m).
Proof.
  intros w0.
  assert (Hwf : wf_node (root demo_world) = true) by (vm_compute; reflexivity).
  assert (Ho : ZipFile "out/mybackup.zip" demo_world = (Ok 0, w0))
    by (vm_compute; reflexivity).
  split; [exact Hwf|]. split; [exact Ho|].
  split; [vm_compute; reflexivity|].
  apply (archive_under_source_is_walked "out/mybackup.zip" "out"
           ["subdir"; "out"] demo_world 0 w0 [] ["home"; "u"; "out"]
           ["mybackup.zip"] Hwf Ho).
  - right. left. reflexivity.
  - vm_compute. reflexivity.
  - vm_compute. reflexivity.
  - vm_compute. reflexivity.
Defined.

(** ** An archive path that names a directory *)

(** X13.  When the archive path names an existing directory,
    [zipources] raises [IsADirectoryError] for that path: no file is
    created or changed, no archive is open, nothing is printed. *)
Theorem zipources_archive_path_is_directory (sources : list string)
    (d : string) (n : option string) (w : world)
    (es es' : list (string * node)) :
  match n with
  | Some x => has_sep x = false
  | None => valid_datetime (clock w)
  end ->
  stat (root w) (cwd w) d = inr (Dir es) ->
  assoc (base_name (strftime (clock w)) n ++ ".zip") es = Some (Dir es') ->
  let p := create_zip_filepath (strftime (clock w)) d n in
  let w' := snd (zipources sources d n w) in
  fst (zipources sources d n w) = Raise (IsADirectoryError p)
  /\ root w' = root w /\ zips w' = zips w /\ stdout w' = stdout w.
Proof.
  intros Hn Hd Ha p w'.
  unfold stat in Hd.
  destruct (resolve (root w) (cwd w) d) as [e|P] eqn:Hres; [discriminate|].
  destruct (lookup (root w) P) as [nd|] eqn:HP; [|discriminate].
  assert (nd = Dir es) by congruence. subst nd. clear Hd.
  pose proof (base_name_proper (clock w) n Hn) as Hf.
  assert (Eo : open_target (root w) (cwd w) p = inl EISDIR).
  { unfold p. rewrite create_zip_filepath_base.
    rewrite (open_in_dir _ _ _ _ _ _ Hres HP Hf). now rewrite Ha. }
  pose proof (ZipFile_cases p w) as Hc. rewrite Eo in Hc.
  pose proof (create_zip_file_cases p sources w) as Hr. rewrite Hc in Hr.
  unfold w'. rewrite zipources_eq. fold p. rewrite Hr. cbn [fst snd].
  now repeat split.
Qed.

Lemma zipources_archive_path_is_directory_witness :
  has_sep "empty" = false
  /\ stat (root demo_world) (cwd demo_world) "subdir/.."
     = inr (Dir demo_home)
  /\ fst (zipources ["subdir"] "subdir/.." (Some "empty") (
            set_root (put (root demo_world) ["home"; "u"; "empty.zip"]
                        (Dir [])) demo_world))
     = Raise (IsADirectoryError "subdir/../empty.zip").
Proof.
  assert (Hn : has_sep "empty" = false) by (vm_compute; reflexivity).
  split; [exact Hn|]. split; [vm_compute; reflexivity|].
  refine (proj1 (zipources_archive_path_is_directory ["subdir"] "subdir/.."
                   (Some "empty")
                   (set_root (put (root demo_world)
                                ["home"; "u"; "empty.zip"] (Dir []))
                      demo_world)
                   _ [] Hn _ _)).
  - vm_compute. reflexivity.
  - vm_compute. reflexivity.
Defined.

